(** * Confidence-Aware Google Workspace Agent: a shallow embedding

  The development follows the Python sources module by module:
  - [Py]                 the few Python primitives the code relies on
                         (slice index clamping, [str.find], [str.strip]);
  - [TextProcessing]     src/utils/text_processing.py ([chunk_text]);
  - [Effects]            results that may raise, coroutine objects, and the
                         state-and-exception monad of the service modules;
  - [ConversationMemory] src/memory/conversation_memory.py;
  - [Chroma]             the persistent index, as far as the code uses it;
  - [Env]                parsed mail, the machine, the outside services;
  - [EmailStorage]       src/memory/email_storage.py;
  - [VectorStore]        src/memory/vector_store.py;
  - [EmailIndexer]       src/services/email_indexer.py;
  - [BaseAgent]          src/agents/base_agent.py (what the model decides);
  - [ExecutionPlanner]   src/workflows/execution_planner.py;
  - [DecisionEngine]     src/workflows/decision_engine.py;
  - [MemoryManager]      src/memory/memory_manager.py;
  - [Assistant]          the stores of the two assistants, their
                         maintenance entry points and the recall tool;
  - [Indexing]           the indexer and its two stores together;
  - [AgentTools]         src/workflows/autonomous_agent.py (the
                         [get_email_details] tool);
  - [Workflow]           src/workflows/email_assistant.py (the routes of
                         the fixed pipeline);
  - [AgentLoop]          src/agents/base_agent.py (the ReAct loop [run]).

  Python [int] is [Z]; [str] is [list ascii] where the code slices it and
  [string] where it only passes it around; a [dict] with string keys is a
  [gmap string _] or a record of its keys; a call that may raise answers
  in [Effects.result]; a method that updates its object runs in
  [Effects.M] over the object's state and the machine. *)

From Stdlib Require Import ZArith List Ascii String Lia Bool.
From stdpp Require Import gmap strings list pretty.

Local Open Scope Z_scope.
Set Warnings "-register-all,-clear-no-such-hyp".

(** ** Python primitives *)

Module Py.

Definition str := list ascii.

Definition len {A} (l : list A) : Z := Z.of_nat (length l).

(** Index clamping of a slice bound ([PySlice_AdjustIndices], step 1):
    a negative bound counts from the end and is clamped at 0, a bound past
    the end is clamped at the length. *)
Definition adjust (n i : Z) : Z :=
  if i <? 0 then Z.max 0 (i + n) else Z.min i n.

(** [l[start:stop]] *)
Definition slice {A} (l : list A) (start stop : Z) : list A :=
  let a := adjust (len l) start in
  let b := adjust (len l) stop in
  take (Z.to_nat (b - a)) (drop (Z.to_nat a) l).

(** [l[start:]] *)
Definition slice_from {A} (l : list A) (start : Z) : list A :=
  drop (Z.to_nat (adjust (len l) start)) l.

(** [l[-n:]], as [get_recent_messages] and the prompt builders write it
    with a positive literal [n]. *)
Definition last_n {A} (l : list A) (n : nat) : list A :=
  drop (length l - n)%nat l.

Fixpoint index_of (c : ascii) (l : str) : option nat :=
  match l with
  | [] => None
  | x :: l' =>
      if Ascii.eqb x c then Some O
      else match index_of c l' with
           | Some i => Some (S i)
           | None => None
           end
  end.

(** [text.find(c, start, stop)] for a one-character needle: the lowest
    index in the clamped window, or -1. *)
Definition find (text : str) (c : ascii) (start stop : Z) : Z :=
  let a := adjust (len text) start in
  match index_of c (slice text start stop) with
  | Some i => a + Z.of_nat i
  | None => -1
  end.

(** Code points below 256 for which [str.isspace] holds. *)
Definition isspace (c : ascii) : bool :=
  let n := N.to_nat (N_of_ascii c) in
  ((9 <=? n) && (n <=? 13) || (28 <=? n) && (n <=? 32)
   || (n =? 133) || (n =? 160))%nat.

Fixpoint lstrip (s : str) : str :=
  match s with
  | [] => []
  | c :: s' => if isspace c then lstrip s' else s
  end.

Definition rstrip (s : str) : str := rev (lstrip (rev s)).

(** [s.strip()] *)
Definition strip (s : str) : str := rstrip (lstrip s).

(** Truthiness of a sequence: [bool(s)]. *)
Definition truthy {A} (l : list A) : bool :=
  match l with [] => false | _ => true end.

Definition lower_char (c : ascii) : ascii :=
  let n := nat_of_ascii c in
  if ((65 <=? n) && (n <=? 90))%nat then ascii_of_nat (n + 32) else c.

(** [s.lower()] on ASCII letters *)
Fixpoint lower (s : string) : string :=
  match s with
  | EmptyString => EmptyString
  | String c s' => String (lower_char c) (lower s')
  end.

(** [s.strip()] on a [string] *)
Definition strip_string (s : string) : string :=
  string_of_list_ascii (strip (list_ascii_of_string s)).

(** [len(s.split())]: the number of maximal runs without white space. *)
Fixpoint count_words (in_word : bool) (s : str) : Z :=
  match s with
  | [] => 0
  | c :: s' =>
      if isspace c then count_words false s'
      else (if in_word then 0 else 1) + count_words true s'
  end.

(** [s.split(c)[0]] *)
Fixpoint until_char (c : ascii) (s : string) : string :=
  match s with
  | EmptyString => EmptyString
  | String x s' => if Ascii.eqb x c then EmptyString else String x (until_char c s')
  end.

(** What follows the first [c] in [s], if there is one. *)
Fixpoint after_char (c : ascii) (s : string) : option string :=
  match s with
  | EmptyString => None
  | String x s' => if Ascii.eqb x c then Some s' else after_char c s'
  end.

(** [s or ""] for an optional string *)
Definition or_empty (s : option string) : string :=
  match s with Some s => s | None => EmptyString end.

(** [bool(s)] for a [string] *)
Definition nonempty (s : string) : bool :=
  match s with EmptyString => false | _ => true end.

(** [sub in s] *)
Definition contains (sub s : string) : bool :=
  match String.index 0 sub s with Some _ => true | None => false end.

(** [sep.join(parts)] *)
Definition join (sep : string) (parts : list string) : string :=
  String.concat sep parts.

Lemma length_append (s1 s2 : string) :
  String.length (s1 ++ s2) = (String.length s1 + String.length s2)%nat.
Proof. induction s1 as [|c s1 IH]; simpl; [done|]. by rewrite IH. Qed.

Lemma adjust_range n i : 0 <= n -> 0 <= adjust n i <= n.
Proof. unfold adjust. destruct (Z.ltb_spec i 0); lia. Qed.

Lemma adjust_nonneg n i : 0 <= i -> adjust n i = Z.min i n.
Proof. unfold adjust. destruct (Z.ltb_spec i 0); lia. Qed.

End Py.

(** ** src/utils/text_processing.py *)

Module TextProcessing.
Import Py.

(** The body of one loop iteration up to the slice: the window end after
    the sentence-boundary nudge. *)
Definition window_end (text : str) (chunk_size start : Z) : Z :=
  let end_ := start + chunk_size in
  if end_ <? len text then
    let next_period := find text "."%char (end_ - 100) (end_ + 100) in
    if negb (next_period =? -1) then next_period + 1 else end_
  else end_.

(** [while start < len(text): ...]; the fuel bounds the number of
    iterations, [None] means it ran out. *)
Fixpoint chunk_loop (fuel : nat) (text : str) (chunk_size overlap : Z)
    (start : Z) (chunks : list str) : option (list str) :=
  if start <? len text then
    match fuel with
    | O => None
    | S fuel' =>
        let end_ := window_end text chunk_size start in
        let chunk := strip (slice text start end_) in
        let chunks' := if truthy chunk then chunks ++ [chunk] else chunks in
        chunk_loop fuel' text chunk_size overlap (end_ - overlap) chunks'
    end
  else Some chunks.

Definition chunk_text (fuel : nat) (text : str) (chunk_size overlap : Z)
    : option (list str) :=
  if negb (truthy text) || (len text <=? chunk_size) then
    Some (if truthy text then [text] else [])
  else chunk_loop fuel text chunk_size overlap 0 [].

(** The raw windows [text[start:end]] the loop slices, before [strip] and
    before empty chunks are dropped. *)
Fixpoint chunk_windows (fuel : nat) (text : str) (chunk_size overlap : Z)
    (start : Z) : option (list str) :=
  if start <? len text then
    match fuel with
    | O => None
    | S fuel' =>
        let end_ := window_end text chunk_size start in
        match chunk_windows fuel' text chunk_size overlap (end_ - overlap) with
        | Some ws => Some (slice text start end_ :: ws)
        | None => None
        end
    end
  else Some [].

(** How the windows become the returned chunks. *)
Definition stripped_chunks (ws : list str) : list str :=
  List.filter truthy (List.map strip ws).

(** The reading of "concatenating consecutive chunks' non-overlapping
    regions": the first piece whole, every later piece without its first
    [overlap] characters (which repeat the end of the previous window). *)
Definition non_overlapping (overlap : Z) (pieces : list str) : str :=
  match pieces with
  | [] => []
  | p :: rest => p ++ concat (List.map (fun q => slice_from q overlap) rest)
  end.

(** *** Facts about the primitives *)

Lemma index_of_lt c l i : index_of c l = Some i -> (i < length l)%nat.
Proof.
  revert i. induction l as [|x l IH]; intros i; simpl; [discriminate|].
  destruct (Ascii.eqb x c).
  - intros [= <-]. lia.
  - destruct (index_of c l) as [j|]; [|discriminate].
    intros [= <-]. specialize (IH j eq_refl). lia.
Qed.

Lemma length_slice {A} (l : list A) a b :
  len (slice l a b) <= Z.max 0 (adjust (len l) b - adjust (len l) a).
Proof. unfold slice, len. rewrite length_take, length_drop. lia. Qed.

(** A successful [find] answers inside the clamped window. *)
Lemma find_range text c a b :
  find text c a b = -1 \/
  adjust (len text) a <= find text c a b < adjust (len text) b.
Proof.
  unfold find.
  destruct (index_of c (slice text a b)) as [i|] eqn:E; [right|now left].
  apply index_of_lt in E.
  pose proof (length_slice text a b) as L.
  pose proof (adjust_range (len text) a ltac:(unfold len; lia)).
  unfold len in *. lia.
Qed.

Lemma length_lstrip s : (length (lstrip s) <= length s)%nat.
Proof. induction s as [|c s IH]; simpl; [lia|]. destruct (isspace c); simpl; lia. Qed.

Lemma length_strip s : (length (strip s) <= length s)%nat.
Proof.
  unfold strip, rstrip. rewrite length_rev.
  etransitivity; [apply length_lstrip|]. rewrite length_rev. apply length_lstrip.
Qed.

(** *** The window end moves by at least [chunk_size - 99] and, for a
    non-negative raw end, by at most [chunk_size + 100]. *)

Lemma window_end_lower text chunk_size start :
  start + chunk_size - 99 <= window_end text chunk_size start.
Proof.
  unfold window_end.
  destruct (Z.ltb_spec (start + chunk_size) (len text)) as [Hlt|]; [|lia].
  destruct (find_range text "."%char (start + chunk_size - 100) (start + chunk_size + 100))
    as [-> | [Hlo _]]; simpl; [lia|].
  destruct (Z.eqb_spec (find text "."%char (start + chunk_size - 100) (start + chunk_size + 100)) (-1));
    simpl; [lia|].
  revert Hlo. unfold adjust.
  destruct (Z.ltb_spec (start + chunk_size - 100) 0); lia.
Qed.

Lemma window_end_upper text chunk_size start :
  0 <= start + chunk_size + 100 ->
  window_end text chunk_size start <= start + chunk_size + 100.
Proof.
  intros Hnn. unfold window_end.
  destruct (Z.ltb_spec (start + chunk_size) (len text)) as [Hlt|]; [|lia].
  destruct (find_range text "."%char (start + chunk_size - 100) (start + chunk_size + 100))
    as [-> | [_ Hhi]]; simpl; [lia|].
  destruct (Z.eqb_spec (find text "."%char (start + chunk_size - 100) (start + chunk_size + 100)) (-1));
    simpl; [lia|].
  rewrite adjust_nonneg in Hhi by lia. lia.
Qed.

(** Every iteration moves the window start forward. *)
Lemma start_increases text chunk_size overlap start :
  overlap <= chunk_size - 100 ->
  start < window_end text chunk_size start - overlap.
Proof. intros H. pose proof (window_end_lower text chunk_size start). lia. Qed.

(** The loop returns once the fuel covers the distance to the end of the
    text, and appends at most one chunk per remaining position. *)
Lemma chunk_loop_terminates text chunk_size overlap :
  overlap <= chunk_size - 100 ->
  forall fuel start chunks,
    (Z.to_nat (len text - start) <= fuel)%nat ->
    exists out,
      chunk_loop fuel text chunk_size overlap start chunks = Some out /\
      (length out <= length chunks + Z.to_nat (len text - start))%nat.
Proof.
  intros Hov. induction fuel as [|fuel IH]; intros start chunks Hfuel; simpl.
  - destruct (Z.ltb_spec start (len text)); [lia|]. exists chunks. split; [done|lia].
  - destruct (Z.ltb_spec start (len text)) as [Hlt|].
    + pose proof (start_increases text chunk_size overlap start Hov) as Hinc.
      set (e := window_end text chunk_size start) in *.
      destruct (IH (e - overlap)
                  (if truthy (strip (slice text start e))
                   then chunks ++ [strip (slice text start e)] else chunks))
        as (out & Hout & Hlen); [lia|].
      exists out. split; [exact Hout|].
      destruct (truthy (strip (slice text start e)));
        rewrite ?length_app in Hlen; simpl in Hlen; lia.
    + exists chunks. split; [done|lia].
Qed.

(** More fuel never changes an answer. *)
Lemma chunk_loop_fuel_mono text chunk_size overlap :
  forall fuel fuel' start chunks out,
    (fuel <= fuel')%nat ->
    chunk_loop fuel text chunk_size overlap start chunks = Some out ->
    chunk_loop fuel' text chunk_size overlap start chunks = Some out.
Proof.
  induction fuel as [|fuel IH]; intros fuel' start chunks out Hle; simpl.
  - destruct (Z.ltb_spec start (len text)); [discriminate|].
    intros [= <-]. destruct fuel'; simpl; destruct (Z.ltb_spec start (len text)); (lia || done).
  - destruct fuel' as [|fuel']; [lia|]. simpl.
    destruct (Z.ltb_spec start (len text)); [|done].
    apply IH. lia.
Qed.

(** *** Windows and chunks *)

Lemma chunk_loop_windows text chunk_size overlap :
  forall fuel start chunks,
    chunk_loop fuel text chunk_size overlap start chunks =
    match chunk_windows fuel text chunk_size overlap start with
    | Some ws => Some (chunks ++ stripped_chunks ws)
    | None => None
    end.
Proof.
  induction fuel as [|fuel IH]; intros start chunks; simpl.
  - destruct (start <? len text); [done|]. by rewrite app_nil_r.
  - destruct (start <? len text); [|by rewrite app_nil_r].
    rewrite IH.
    destruct (chunk_windows fuel text chunk_size overlap
                (window_end text chunk_size start - overlap)) as [ws|]; [|done].
    unfold stripped_chunks. simpl.
    destruct (truthy (strip (slice text start (window_end text chunk_size start)))).
    + by rewrite <- app_assoc.
    + done.
Qed.

Lemma chunk_windows_terminates text chunk_size overlap :
  overlap <= chunk_size - 100 ->
  forall fuel start,
    (Z.to_nat (len text - start) <= fuel)%nat ->
    exists ws, chunk_windows fuel text chunk_size overlap start = Some ws.
Proof.
  intros Hov fuel start Hfuel.
  destruct (chunk_loop_terminates text chunk_size overlap Hov fuel start [] Hfuel)
    as (out & Hout & _).
  rewrite chunk_loop_windows in Hout.
  destruct (chunk_windows fuel text chunk_size overlap start) as [ws|]; [eauto|done].
Qed.

Lemma chunk_windows_fuel_mono text chunk_size overlap :
  forall fuel fuel' start ws,
    (fuel <= fuel')%nat ->
    chunk_windows fuel text chunk_size overlap start = Some ws ->
    chunk_windows fuel' text chunk_size overlap start = Some ws.
Proof.
  induction fuel as [|fuel IH]; intros fuel' start ws Hle; simpl.
  - destruct (Z.ltb_spec start (len text)); [discriminate|].
    intros [= <-]. destruct fuel'; simpl; destruct (Z.ltb_spec start (len text)); (lia || done).
  - destruct fuel' as [|fuel']; [lia|]. simpl.
    destruct (Z.ltb_spec start (len text)); [|done].
    destruct (chunk_windows fuel text chunk_size overlap
                (window_end text chunk_size start - overlap)) as [ws'|] eqn:E; [|done].
    intros [= <-]. by rewrite (IH fuel' _ ws' ltac:(lia) E).
Qed.

(** With non-negative bounds a slice is a [take] of a [drop]. *)
Lemma slice_nonneg {A} (l : list A) a b :
  0 <= a -> 0 <= b ->
  slice l a b = take (Z.to_nat b - Z.to_nat a) (drop (Z.to_nat a) l).
Proof.
  intros Ha Hb. unfold slice. rewrite !adjust_nonneg by done. unfold len.
  destruct (Z.le_gt_cases (Z.of_nat (length l)) a) as [Hge|Hlt].
  - rewrite !drop_ge by lia. by rewrite !take_nil.
  - replace (Z.to_nat (Z.min a (Z.of_nat (length l)))) with (Z.to_nat a) by lia.
    destruct (Z.le_gt_cases b (Z.of_nat (length l))).
    + f_equal. lia.
    + rewrite !take_ge; [done| |]; rewrite length_drop; lia.
Qed.

Lemma slice_from_nonneg {A} (l : list A) k :
  0 <= k -> slice_from l k = drop (Z.to_nat k) l.
Proof.
  intros Hk. unfold slice_from. rewrite adjust_nonneg by done. unfold len.
  destruct (Z.le_gt_cases (Z.of_nat (length l)) k).
  - rewrite !drop_ge; [done| |]; lia.
  - f_equal. lia.
Qed.

(** One window without its overlap, followed by the rest of the text. *)
Lemma window_tail {A} (l : list A) (a k e : nat) :
  (a + k <= e)%nat ->
  drop k (take (e - a) (drop a l)) ++ drop e l = drop (a + k) l.
Proof.
  intros Hle. rewrite skipn_firstn_comm, drop_drop.
  rewrite <- (take_drop (e - a - k) (drop (a + k) l)) at 2.
  rewrite drop_drop. do 2 f_equal. lia.
Qed.

(** The windows from [start] on, each without its first [overlap]
    characters, are the text from [start + overlap] on. *)
Lemma windows_cover text chunk_size overlap :
  0 <= overlap <= chunk_size - 100 ->
  forall fuel start ws,
    0 <= start ->
    chunk_windows fuel text chunk_size overlap start = Some ws ->
    concat (List.map (fun q => slice_from q overlap) ws) =
    drop (Z.to_nat (start + overlap)) text.
Proof.
  intros [Hov0 Hov]. induction fuel as [|fuel IH]; intros start ws Hstart; simpl.
  - destruct (Z.ltb_spec start (len text)) as [|Hge]; [discriminate|].
    intros [= <-]. simpl. unfold len in Hge. rewrite drop_ge; [done|lia].
  - destruct (Z.ltb_spec start (len text)) as [Hlt|Hge].
    + pose proof (start_increases text chunk_size overlap start Hov) as Hinc.
      set (e := window_end text chunk_size start) in *.
      destruct (chunk_windows fuel text chunk_size overlap (e - overlap)) as [ws'|] eqn:E;
        [|discriminate].
      intros [= <-]. simpl.
      rewrite (IH (e - overlap) ws' ltac:(lia) E).
      rewrite slice_nonneg, slice_from_nonneg by lia.
      replace (Z.to_nat (e - overlap + overlap)) with (Z.to_nat e) by lia.
      replace (Z.to_nat (start + overlap)) with (Z.to_nat start + Z.to_nat overlap)%nat by lia.
      apply window_tail. lia.
    + intros [= <-]. simpl. unfold len in Hge. rewrite drop_ge; [done|lia].
Qed.

Lemma windows_bounded text chunk_size overlap :
  0 <= overlap <= chunk_size - 100 ->
  forall fuel start ws,
    0 <= start ->
    chunk_windows fuel text chunk_size overlap start = Some ws ->
    Forall (fun w => len w <= chunk_size + 100) ws.
Proof.
  intros [Hov0 Hov]. induction fuel as [|fuel IH]; intros start ws Hstart; simpl.
  - destruct (start <? len text); [discriminate|]. intros [= <-]. constructor.
  - destruct (Z.ltb_spec start (len text)) as [Hlt|Hge]; [|intros [= <-]; constructor].
    pose proof (start_increases text chunk_size overlap start Hov) as Hinc.
    pose proof (window_end_upper text chunk_size start ltac:(lia)) as Hup.
    set (e := window_end text chunk_size start) in *.
    destruct (chunk_windows fuel text chunk_size overlap (e - overlap)) as [ws'|] eqn:E;
      [|discriminate].
    intros [= <-]. constructor; [|apply (IH (e - overlap) ws' ltac:(lia) E)].
    rewrite slice_nonneg by lia. unfold len. rewrite length_take, length_drop. lia.
Qed.

Lemma stripped_chunks_bounded (bound : Z) ws :
  Forall (fun w => len w <= bound) ws ->
  Forall (fun c => len c <= bound) (stripped_chunks ws).
Proof.
  unfold stripped_chunks. induction 1 as [|w ws Hw _ IH]; simpl; [constructor|].
  destruct (truthy (strip w)); [constructor|]; try exact IH.
  pose proof (length_strip w). cbv beta in *. unfold len in *. lia.
Qed.

(** *** What [chunk_text] returns *)

(** A text that starts with a blank, longer than the default window. *)
Definition blank_then_letters : str := " "%char :: repeat "a"%char 1100.

(** C4, as stated, fails: with the default window 1000 and overlap 200 the
    chunks of a 1101-character text that starts with a blank are the
    stripped windows; their non-overlapping regions do not give the text
    back, and the leading blank is in no chunk at all. *)
Lemma chunk_text_roundtrip_fails :
  1000 < len blank_then_letters /\
  exists chunks,
    chunk_text 1101 blank_then_letters 1000 200 = Some chunks /\
    non_overlapping 200 chunks <> blank_then_letters /\
    In " "%char blank_then_letters /\
    Forall (fun c => ~ In " "%char c) chunks.
Proof.
  split; [vm_compute; reflexivity|].
  exists [repeat "a"%char 999; repeat "a"%char 301].
  split; [vm_compute; reflexivity|].
  split.
  - intros H. apply (f_equal (@length ascii)) in H. vm_compute in H. discriminate.
  - split; [left; reflexivity|].
    repeat constructor; intros H; apply repeat_spec in H; discriminate.
Qed.

(** Without [overlap <= chunk_size - 100] the loop need not return: with
    window 10 and overlap 10 the start stays at 0 for a text without a full
    stop, whatever the fuel. *)
Lemma chunk_text_may_not_return (fuel : nat) :
  chunk_text fuel (repeat "a"%char 20) 10 10 = None.
Proof.
  assert (Hloop : forall chunks,
            chunk_loop fuel (repeat "a"%char 20) 10 10 0 chunks = None).
  { induction fuel as [|fuel IH]; intros chunks; [reflexivity|].
    exact (IH (chunks ++ [repeat "a"%char 10])). }
  exact (Hloop []).
Qed.

(** C4, amended: a text no longer than [chunk_size] comes back as the one
    chunk (none when empty).  For a longer text and
    [0 <= overlap <= chunk_size - 100], the call returns; the returned
    chunks are the windows [text[start:end]] stripped of surrounding white
    space, those that strip to nothing dropped; the windows' non-overlapping
    regions concatenate to the text; and no chunk is longer than
    [chunk_size + 100]. *)
Theorem chunk_text_windows text chunk_size overlap :
  (text = [] -> forall fuel, chunk_text fuel text chunk_size overlap = Some []) /\
  (text <> [] -> len text <= chunk_size ->
     forall fuel, chunk_text fuel text chunk_size overlap = Some [text]) /\
  (chunk_size < len text -> 0 <= overlap <= chunk_size - 100 ->
     exists ws,
       (forall fuel, (length text <= fuel)%nat ->
          chunk_windows fuel text chunk_size overlap 0 = Some ws /\
          chunk_text fuel text chunk_size overlap = Some (stripped_chunks ws)) /\
       non_overlapping overlap ws = text /\
       Forall (fun c => len c <= chunk_size + 100) (stripped_chunks ws)).
Proof.
  split; [|split].
  - intros -> fuel. reflexivity.
  - intros Hne Hle fuel. unfold chunk_text.
    destruct text as [|c text]; [done|]. simpl truthy. simpl negb.
    destruct (Z.leb_spec (len (c :: text)) chunk_size); [done|lia].
  - intros Hlong Hov.
    assert (Hov' : overlap <= chunk_size - 100) by lia.
    destruct (chunk_windows_terminates text chunk_size overlap Hov' (length text) 0
                ltac:(unfold len; lia)) as [ws Hws].
    exists ws. split; [|split].
    + intros fuel Hfuel.
      pose proof (chunk_windows_fuel_mono _ _ _ _ _ _ _ Hfuel Hws) as Hws'.
      split; [exact Hws'|]. unfold chunk_text.
      destruct text as [|c text]; [unfold len in Hlong; simpl in Hlong; lia|].
      simpl truthy. simpl negb.
      destruct (Z.leb_spec (len (c :: text)) chunk_size); [lia|]. simpl orb.
      rewrite chunk_loop_windows, Hws'. reflexivity.
    + destruct (length text) as [|fuel] eqn:Hlen;
        [unfold len in Hlong; rewrite Hlen in Hlong; simpl in Hlong; lia|].
      simpl in Hws.
      destruct (Z.ltb_spec 0 (len text)) as [_|Hge];
        [|unfold len in Hge; rewrite Hlen in Hge; lia].
      pose proof (start_increases text chunk_size overlap 0 Hov') as Hinc.
      set (e := window_end text chunk_size 0) in *.
      destruct (chunk_windows fuel text chunk_size overlap (e - overlap)) as [ws'|] eqn:E;
        [|discriminate].
      injection Hws as <-. simpl.
      rewrite (windows_cover text chunk_size overlap Hov fuel (e - overlap) ws'
                 ltac:(lia) E).
      rewrite slice_nonneg by lia.
      replace (Z.to_nat (e - overlap + overlap)) with (Z.to_nat e) by lia.
      simpl Z.to_nat. rewrite Nat.sub_0_r. simpl drop at 1. apply take_drop.
    + apply stripped_chunks_bounded.
      apply (windows_bounded text chunk_size overlap Hov (length text) 0 ws); [lia|done].
Qed.

(** A text with a full stop near the first raw boundary and blanks around
    the cut. *)
Definition two_sentences : str :=
  repeat "a"%char 1040 ++ "."%char :: " "%char :: repeat "b"%char 400.

Lemma chunk_text_windows_witness :
  (@nil ascii = [] -> forall fuel, chunk_text fuel [] 1200 150 = Some []) /\
  (forall fuel, chunk_text fuel two_sentences 1500 150 = Some [two_sentences]) /\
  (exists ws,
     chunk_text 1442 two_sentences 1000 200 = Some (stripped_chunks ws) /\
     non_overlapping 200 ws = two_sentences /\
     Forall (fun c => len c <= 1000 + 100) (stripped_chunks ws)).
Proof.
  split; [|split].
  - apply (chunk_text_windows [] 1200 150).
  - apply (chunk_text_windows two_sentences 1500 150).
    + discriminate.
    + vm_compute. discriminate.
  - destruct (chunk_text_windows two_sentences 1000 200) as (_ & _ & H).
    destruct H as (ws & Hrun & Hcat & Hlen).
    + vm_compute. reflexivity.
    + lia.
    + exists ws. split; [|split; assumption].
      apply Hrun. vm_compute. lia.
Defined.

(** C9: when [overlap <= chunk_size - 100] every iteration moves the window
    start strictly forward, the call returns for every fuel that covers the
    text length, and it returns at most one chunk per character. *)
Theorem chunk_text_terminates text chunk_size overlap :
  overlap <= chunk_size - 100 ->
  (forall start, start < window_end text chunk_size start - overlap) /\
  exists chunks,
    (forall fuel, (length text <= fuel)%nat ->
       chunk_text fuel text chunk_size overlap = Some chunks) /\
    (length chunks <= length text)%nat.
Proof.
  intros Hov. split; [intros start; by apply start_increases|].
  unfold chunk_text.
  destruct (negb (truthy text) || (len text <=? chunk_size)) eqn:Hshort.
  - exists (if truthy text then [text] else []). split; [done|].
    destruct text; simpl; lia.
  - destruct (chunk_loop_terminates text chunk_size overlap Hov (length text) 0 []
                ltac:(unfold len; lia)) as (out & Hout & Hlen).
    exists out. split.
    + intros fuel Hfuel. by apply (chunk_loop_fuel_mono _ _ _ (length text)).
    + simpl in Hlen. unfold len in Hlen. lia.
Qed.

Lemma chunk_text_terminates_witness :
  150 <= 1200 - 100 /\
  exists chunks,
    chunk_text 1442 two_sentences 1200 150 = Some chunks /\
    (length chunks <= length two_sentences)%nat.
Proof.
  split; [lia|].
  destruct (chunk_text_terminates two_sentences 1200 150 ltac:(lia))
    as (_ & chunks & Hrun & Hlen).
  exists chunks. split; [|exact Hlen].
  apply Hrun. vm_compute. lia.
Defined.

(** *** Chunks are never empty, and windows are stripped *)

(** No white space at either end. *)
Definition stripped (s : str) : Prop :=
  (forall x rest, s = x :: rest -> isspace x = false) /\
  (forall x init, s = init ++ [x] -> isspace x = false).

Lemma lstrip_head s x rest : lstrip s = x :: rest -> isspace x = false.
Proof.
  induction s as [|c s IH]; simpl; [discriminate|].
  destruct (isspace c) eqn:Hc; [exact IH|]. intros [= <- _]. exact Hc.
Qed.

(** [lstrip] drops a prefix, [rstrip] a suffix. *)
Lemma lstrip_suffix s : exists w, s = w ++ lstrip s.
Proof.
  induction s as [|c s [w IH]]; simpl; [by exists []|].
  destruct (isspace c); [|by exists []].
  exists (c :: w). simpl. by rewrite <- IH.
Qed.

Lemma rstrip_prefix s : exists w, s = rstrip s ++ w.
Proof.
  unfold rstrip. destruct (lstrip_suffix (rev s)) as [w Hw].
  exists (rev w). rewrite <- rev_app_distr, <- Hw. by rewrite rev_involutive.
Qed.

Lemma rstrip_last s x init : rstrip s = init ++ [x] -> isspace x = false.
Proof.
  unfold rstrip. intros H. apply (f_equal (@rev ascii)) in H.
  rewrite rev_involutive, rev_app_distr in H. simpl in H.
  by apply lstrip_head in H.
Qed.

Lemma strip_stripped s : stripped (strip s).
Proof.
  unfold strip. split.
  - intros x rest H. destruct (rstrip_prefix (lstrip s)) as [w Hw].
    rewrite H in Hw. simpl in Hw. by apply lstrip_head in Hw.
  - intros x init H. by apply rstrip_last in H.
Qed.

Lemma stripped_chunks_stripped ws :
  Forall (fun c => c <> [] /\ stripped c) (stripped_chunks ws).
Proof.
  unfold stripped_chunks. induction ws as [|w ws IH]; simpl; [constructor|].
  destruct (strip w) as [|x rest] eqn:E; simpl; [exact IH|].
  constructor; [|exact IH]. split; [done|]. rewrite <- E. apply strip_stripped.
Qed.

(** X1: whatever [chunk_text] returns holds no empty chunk; when the text is
    longer than [chunk_size], every chunk also starts and ends with a
    character that is not white space. *)
Theorem chunk_text_chunks_nonempty fuel text chunk_size overlap chunks :
  chunk_text fuel text chunk_size overlap = Some chunks ->
  Forall (fun c => c <> []) chunks /\
  (chunk_size < len text -> Forall stripped chunks).
Proof.
  unfold chunk_text. intros H.
  destruct text as [|c text].
  - injection H as <-. split; [constructor|]. intros _. constructor.
  - simpl truthy in H. simpl negb in H. simpl orb in H.
    destruct (Z.leb_spec (len (c :: text)) chunk_size) as [Hle|Hgt].
    + injection H as <-. split; [by repeat constructor|]. lia.
    + rewrite chunk_loop_windows in H.
      destruct (chunk_windows fuel (c :: text) chunk_size overlap 0) as [ws|];
        [|discriminate].
      injection H as <-. simpl.
      pose proof (stripped_chunks_stripped ws) as Hall.
      split; [|intros _]; eapply Forall_impl; try exact Hall; by intros ? [? ?].
Qed.

Lemma chunk_text_chunks_nonempty_witness :
  Forall (fun c => c <> []) [repeat "a"%char 999; repeat "a"%char 301] /\
  (1000 < len blank_then_letters ->
   Forall stripped [repeat "a"%char 999; repeat "a"%char 301]).
Proof.
  apply (chunk_text_chunks_nonempty 1101 blank_then_letters 1000 200).
  vm_compute. reflexivity.
Defined.

End TextProcessing.

(** ** Effects shared by the service modules *)

Module Effects.

(** The outcome of a call that may raise: Python's [Exception] carries its
    message. *)
Inductive result (A : Type) : Type :=
| Ok (a : A)
| Raise (e : string).
Arguments Ok {A} a.
Arguments Raise {A} e.

Definition bind {A B} (r : result A) (k : A -> result B) : result B :=
  match r with
  | Ok a => k a
  | Raise e => Raise e
  end.

(** [try: body except Exception as e: handler(e)] *)
Definition try_except {A} (body : result A) (handler : string -> A) : A :=
  match body with
  | Ok a => a
  | Raise e => handler e
  end.

(** What calling an [async def] function returns: a coroutine object that
    holds the body.  The body runs only when the object is awaited. *)
Inductive Coroutine (A : Type) : Type :=
| coroutine (body : unit -> A).
Arguments coroutine {A} body.

Definition await {A} (c : Coroutine A) : A :=
  match c with coroutine body => body tt end.

(** A statement [f(...)] whose value, a coroutine object, is dropped: the
    state after it is the state before it. *)
Definition call_unawaited {A S} (c : Coroutine A) (s : S) : S := s.

Definition nl : string := String "010"%char EmptyString.

(** Stateful code that may raise: the state reached so far survives an
    exception, as the fields of a Python object do. *)
Definition M (S A : Type) : Type := S -> result A * S.

Definition ret {S A} (a : A) : M S A := fun s => (Ok a, s).

Definition raise {S A} (e : string) : M S A := fun s => (Raise e, s).

Definition mbind {S A B} (m : M S A) (k : A -> M S B) : M S B :=
  fun s =>
    match m s with
    | (Ok a, s') => k a s'
    | (Raise e, s') => (Raise e, s')
    end.

(** [try: m except Exception as e: h e] *)
Definition catch {S A} (m : M S A) (h : string -> M S A) : M S A :=
  fun s =>
    match m s with
    | (Ok a, s') => (Ok a, s')
    | (Raise e, s') => h e s'
    end.

Definition gets {S A} (f : S -> A) : M S A := fun s => (Ok (f s), s).

Definition modify {S} (f : S -> S) : M S unit := fun s => (Ok tt, f s).

Definition lift {S A} (r : result A) : M S A := fun s => (r, s).

(** Run a method of a component on the part of the state it owns. *)
Definition zoom {S T A} (get : S -> T) (set : T -> S -> S) (m : M T A) : M S A :=
  fun s => let '(r, t') := m (get s) in (r, set t' s).

Declare Scope py_scope.
Delimit Scope py_scope with py.
Notation "x <~ c ;;; k" := (mbind c (fun x => k))
  (at level 200, c at level 100, k at level 200, right associativity) : py_scope.
Notation "c ;;; k" := (mbind c (fun _ => k))
  (at level 200, k at level 200, right associativity, only parsing) : py_scope.

End Effects.

(** ** src/memory/conversation_memory.py *)

Module ConversationMemory.
Import Effects.

Record Message : Type := {
  role : string;
  content : string;
  timestamp : string
}.

Record t : Type := {
  messages : list Message;
  summary : option string;
  message_count : Z
}.

(** [__init__] *)
Definition init : t :=
  {| messages := []; summary := None; message_count := 0 |}.

(** [AzureOpenAIClient.generate_response(messages, max_tokens)]: the hosted
    model, an input of the embedding.  A message is (role, content). *)
Definition Llm : Type := list (string * string) -> Z -> result string.

Definition upper_char (c : ascii) : ascii :=
  let n := nat_of_ascii c in
  if ((97 <=? n) && (n <=? 122))%nat then ascii_of_nat (n - 32) else c.

Fixpoint upper (s : string) : string :=
  match s with
  | EmptyString => EmptyString
  | String c s' => String (upper_char c) (upper s')
  end.

Definition render (msg : Message) : string :=
  (upper (role msg) ++ ": " ++ content msg)%string.

Definition summary_prompt (conversation_text : string) : string :=
  ("Summarize the following conversation, focusing on:" ++ nl
   ++ "1. Key topics discussed" ++ nl
   ++ "2. Important information shared" ++ nl
   ++ "3. User preferences or patterns" ++ nl
   ++ "4. Any pending tasks or follow-ups" ++ nl ++ nl
   ++ "Conversation:" ++ nl ++ conversation_text ++ nl ++ nl
   ++ "Provide a concise summary (max 500 words):")%string.

Definition combined_prompt (old new : string) : string :=
  ("Previous summary: " ++ old ++ nl ++ nl
   ++ "New conversation summary: " ++ new ++ nl ++ nl
   ++ "Provide a unified summary that combines both:")%string.

(** [if self.summary:] holds for a summary that is neither [None] nor the
    empty string. *)
Definition summary_truthy (s : option string) : option string :=
  match s with
  | Some EmptyString => None
  | other => other
  end.

(** The body of [_summarize_and_compress] inside its [try]. *)
Definition summarize_body (threshold : Z) (llm : Llm) (self : t) : result t :=
  if Py.len (messages self) <? threshold then Ok self
  else
    let split_point := Py.len (messages self) - 10 in
    let old_messages := Py.slice (messages self) 0 split_point in
    let recent_messages := Py.slice_from (messages self) split_point in
    let conversation_text :=
      String.concat (nl ++ nl) (List.map render old_messages) in
    bind (llm [("system", "You are a helpful assistant that summarizes conversations concisely.");
               ("user", summary_prompt conversation_text)]%string 1000)
      (fun new_summary =>
         bind (match summary_truthy (summary self) with
               | Some old =>
                   llm [("system", "You are a helpful assistant that creates unified summaries.");
                        ("user", combined_prompt old new_summary)]%string 1000
               | None => Ok new_summary
               end)
           (fun s =>
              Ok {| messages := recent_messages;
                    summary := Some s;
                    message_count := Py.len recent_messages |})).

(** [async def _summarize_and_compress(self)]: an exception leaves the
    memory as it was. *)
Definition _summarize_and_compress (threshold : Z) (llm : Llm) (self : t)
    : Coroutine t :=
  coroutine (fun _ => try_except (summarize_body threshold llm self) (fun _ => self)).

(** [def add_message(self, role, content)]; [now] is what
    [datetime.now().isoformat()] reads.  The method is not [async] and
    calls [self._summarize_and_compress()] without awaiting it. *)
Definition add_message (threshold : Z) (llm : Llm) (now : string)
    (self : t) (role content : string) : t :=
  let message := {| role := role; content := content; timestamp := now |} in
  let self := {| messages := messages self ++ [message];
                 summary := summary self;
                 message_count := message_count self + 1 |} in
  if threshold <=? message_count self then
    call_unawaited (_summarize_and_compress threshold llm self) self
  else self.

(** [get_recent_messages(n)]: [self.messages[-n:] if self.messages else []] *)
Definition get_recent_messages (self : t) (n : Z) : list Message :=
  if Py.truthy (messages self) then Py.slice_from (messages self) (- n) else [].

(** [clear] *)
Definition clear (self : t) : t := init.

(** [n] calls of [add_message] in a row, the [i]-th with role and content
    taken from [turn i]. *)
Fixpoint add_messages (threshold : Z) (llm : Llm) (now : string)
    (turn : nat -> string * string) (n : nat) (self : t) : t :=
  match n with
  | O => self
  | S n' =>
      let self' := add_messages threshold llm now turn n' self in
      add_message threshold llm now self' (fst (turn n')) (snd (turn n'))
  end.

(** *** What [add_message] does to the memory *)

Lemma add_message_appends threshold llm now self r c :
  messages (add_message threshold llm now self r c) =
    messages self ++ [{| role := r; content := c; timestamp := now |}] /\
  summary (add_message threshold llm now self r c) = summary self /\
  message_count (add_message threshold llm now self r c) = message_count self + 1.
Proof.
  unfold add_message, call_unawaited. simpl.
  destruct (threshold <=? message_count self + 1); simpl; auto.
Qed.

Lemma add_messages_grow threshold llm now turn n self :
  length (messages (add_messages threshold llm now turn n self)) =
    (length (messages self) + n)%nat /\
  summary (add_messages threshold llm now turn n self) = summary self.
Proof.
  induction n as [|n [IHl IHs]]; simpl; [split; [lia|done]|].
  destruct (add_message_appends threshold llm now
              (add_messages threshold llm now turn n self)
              (fst (turn n)) (snd (turn n))) as (Hm & Hs & _).
  rewrite Hm, Hs, length_app, IHl. simpl. split; [lia|done].
Qed.

(** Had the coroutine been awaited, a memory at the threshold would be cut
    to its last ten messages and get a summary. *)
Lemma awaited_compaction threshold llm self :
  10 <= threshold <= Py.len (messages self) ->
  (forall ms n, exists s, llm ms n = Ok s) ->
  let self' := await (_summarize_and_compress threshold llm self) in
  messages self' = Py.last_n (messages self) 10 /\
  length (messages self') = 10%nat /\
  summary self' <> None.
Proof.
  intros [H10 Hth] Hllm. simpl. unfold summarize_body.
  destruct (Z.ltb_spec (Py.len (messages self)) threshold) as [|_]; [lia|].
  destruct (Hllm [("system", "You are a helpful assistant that summarizes conversations concisely.");
                  ("user", summary_prompt
                     (String.concat (nl ++ nl)
                        (List.map render
                           (Py.slice (messages self) 0 (Py.len (messages self) - 10)))))]%string
              1000) as [s1 ->].
  simpl.
  assert (Hrecent : Py.slice_from (messages self) (Py.len (messages self) - 10) =
                    Py.last_n (messages self) 10).
  { unfold Py.slice_from, Py.last_n. rewrite Py.adjust_nonneg by lia.
    f_equal. unfold Py.len in *. lia. }
  destruct (summary_truthy (summary self)) as [old|].
  - destruct (Hllm [("system", "You are a helpful assistant that creates unified summaries.");
                    ("user", combined_prompt old s1)]%string 1000) as [s2 ->].
    simpl. rewrite Hrecent. split; [done|]. split; [|done].
    unfold Py.last_n. rewrite length_drop. unfold Py.len in *. lia.
  - simpl. rewrite Hrecent. split; [done|]. split; [|done].
    unfold Py.last_n. rewrite length_drop. unfold Py.len in *. lia.
Qed.

(** C1 (the code departs from it): with threshold 20, the call that adds
    the 20th message to a fresh memory returns with all 20 messages live
    and no summary, whatever the model would have answered: the coroutine
    that compacts is created and dropped, never awaited. *)
Theorem twentieth_message_not_compacted (llm : Llm) (now : string)
    (turn : nat -> string * string) :
  let mem := add_messages 20 llm now turn 20 init in
  length (messages mem) = 20%nat /\
  summary mem = None /\
  message_count mem = 20.
Proof.
  cbv zeta.
  destruct (add_messages_grow 20 llm now turn 20 init) as [Hlen Hsum].
  split; [exact Hlen|]. split; [exact Hsum|]. reflexivity.
Qed.

(** *** Reading, exporting and importing *)

(** The dict of [export_conversation], and any dict handed to
    [import_conversation]: a key may be missing, and [data.get("summary")]
    reads a missing key and a null alike. *)
Record Exported : Type := {
  e_messages : option (list Message);
  e_summary : option string;
  e_message_count : option Z;
  e_exported_at : option string
}.

(** [export_conversation] *)
Definition export_conversation (now : string) (self : t) : Exported :=
  {| e_messages := Some (messages self);
     e_summary := summary self;
     e_message_count := Some (message_count self);
     e_exported_at := Some now |}.

(** [import_conversation]: the default of the count is read after
    [self.messages] has been assigned. *)
Definition import_conversation (self : t) (data : Exported) : t :=
  let messages' := default [] (e_messages data) in
  {| messages := messages';
     summary := e_summary data;
     message_count := default (Py.len messages') (e_message_count data) |}.

(** *** One list, two memories

    [self.messages.append(message)] changes a list object in place,
    [export_conversation] puts that very object into the dict it returns,
    and [import_conversation] binds [self.messages] to the object it finds
    in the dict.  So the lists live in a store, and a memory object holds
    the address of its list. *)
Definition Store : Type := list (list Message).

Record Object : Type := {
  messages_at : nat;
  o_summary : option string;
  o_message_count : Z
}.

Definition list_at (store : Store) (address : nat) : list Message :=
  default [] (store !! address).

(** The fields of a memory object, read now. *)
Definition value (store : Store) (self : Object) : t :=
  {| messages := list_at store (messages_at self);
     summary := o_summary self;
     message_count := o_message_count self |}.

(** [add_message], on an object: the list is appended to where it is. *)
Definition add_message_at (threshold : Z) (llm : Llm) (now : string)
    (self : Object) (role content : string) (store : Store) : Object * Store :=
  let message := {| role := role; content := content; timestamp := now |} in
  let store :=
    <[messages_at self := list_at store (messages_at self) ++ [message]]> store in
  let self := {| messages_at := messages_at self;
                 o_summary := o_summary self;
                 o_message_count := o_message_count self + 1 |} in
  if threshold <=? o_message_count self then
    call_unawaited (_summarize_and_compress threshold llm (value store self)) (self, store)
  else (self, store).

(** The dict [export_conversation] returns, as an object: its
    ["messages"] is the address of a list. *)
Record ExportedObject : Type := {
  x_messages : nat;
  x_summary : option string;
  x_message_count : Z;
  x_exported_at : string
}.

(** [export_conversation], on an object *)
Definition export_conversation_at (now : string) (self : Object) : ExportedObject :=
  {| x_messages := messages_at self;
     x_summary := o_summary self;
     x_message_count := o_message_count self;
     x_exported_at := now |}.

(** [import_conversation], on an object, of a dict with all its keys *)
Definition import_conversation_at (self : Object) (data : ExportedObject) : Object :=
  {| messages_at := x_messages data;
     o_summary := x_summary data;
     o_message_count := x_message_count data |}.

(** X2: [get_recent_messages(n)] returns the last [n] messages (all of
    them when there are fewer) for [n >= 1], but the whole history for
    [n = 0], since [l[-0:]] is [l[0:]]. *)
Theorem get_recent_messages_suffix (self : t) (n : Z) :
  (1 <= n ->
   get_recent_messages self n =
     drop (length (messages self) - Z.to_nat n) (messages self)) /\
  get_recent_messages self 0 = messages self.
Proof.
  unfold get_recent_messages, Py.slice_from, Py.adjust, Py.len. split.
  - intros Hn. destruct (messages self) as [|m ms] eqn:E; [done|].
    cbn [Py.truthy]. destruct (Z.ltb_spec (- n) 0) as [_|]; [|lia].
    f_equal. lia.
  - destruct (messages self) as [|m ms]; [done|]. reflexivity.
Qed.

Lemma get_recent_messages_suffix_witness :
  get_recent_messages
    {| messages := [ {| role := "user"; content := "a"; timestamp := "t" |};
                     {| role := "assistant"; content := "b"; timestamp := "t" |} ];
       summary := None; message_count := 2 |} 1 =
  [ {| role := "assistant"; content := "b"; timestamp := "t" |} ].
Proof.
  exact (proj1 (get_recent_messages_suffix
    {| messages := [ {| role := "user"; content := "a"; timestamp := "t" |};
                     {| role := "assistant"; content := "b"; timestamp := "t" |} ];
       summary := None; message_count := 2 |} 1) ltac:(lia)).
Defined.

(** X3: importing what [export_conversation] returned restores messages,
    summary and count, whatever the importing memory held before; a dict
    without a count gets the number of the messages it brings. *)
Theorem export_import_round_trip (now : string) (self other : t) :
  import_conversation other (export_conversation now self) = self /\
  (forall ms sm at_,
     message_count
       (import_conversation other
          {| e_messages := ms; e_summary := sm; e_message_count := None;
             e_exported_at := at_ |}) = Py.len (default [] ms)).
Proof. split; [by destruct self|done]. Qed.

(** X4: a memory that imports what another one exported holds the
    exporter's list object, not a copy.  Right after the import it reads
    as [import_conversation] says.  When the exporter then adds a message,
    the exporter is as [add_message] says, but the importer's messages have
    grown by that message too while its [message_count] has not: if count
    and length agreed in the exporter, the importer now holds one message
    more than it counts.  A memory whose list is another object is not
    touched. *)
Theorem import_shares_messages (threshold : Z) (llm : Llm) (now now' : string)
    (a b : Object) (r c : string) (store : Store) :
  (messages_at a < length store)%nat ->
  let b' := import_conversation_at b (export_conversation_at now a) in
  let out := add_message_at threshold llm now' a r c store in
  let message := {| role := r; content := c; timestamp := now' |} in
  value store b' =
    import_conversation (value store b) (export_conversation now (value store a)) /\
  value (snd out) (fst out) = add_message threshold llm now' (value store a) r c /\
  messages (value (snd out) b') = messages (value store a) ++ [message] /\
  message_count (value (snd out) b') = message_count (value store a) /\
  (message_count (value store a) = Py.len (messages (value store a)) ->
   Py.len (messages (value (snd out) b')) = message_count (value (snd out) b') + 1) /\
  (forall other, messages_at other <> messages_at a ->
     value (snd out) other = value store other).
Proof.
  intros Hin. cbv zeta.
  assert (Hout : add_message_at threshold llm now' a r c store =
                 ({| messages_at := messages_at a;
                     o_summary := o_summary a;
                     o_message_count := o_message_count a + 1 |},
                  <[messages_at a :=
                      list_at store (messages_at a)
                      ++ [{| role := r; content := c; timestamp := now' |}]]> store)).
  { unfold add_message_at, call_unawaited. by destruct (_ <=? _). }
  rewrite Hout. clear Hout. simpl.
  assert (Hat : list_at
                  (<[messages_at a :=
                       list_at store (messages_at a)
                       ++ [{| role := r; content := c; timestamp := now' |}]]> store)
                  (messages_at a) =
                list_at store (messages_at a)
                ++ [{| role := r; content := c; timestamp := now' |}]).
  { unfold list_at at 1, Store. by rewrite list_lookup_insert_eq. }
  split; [reflexivity|]. split; [|split; [|split; [|split]]].
  - unfold value, add_message, call_unawaited. simpl. rewrite Hat.
    by destruct (_ <=? _).
  - exact Hat.
  - reflexivity.
  - intros Hcount. rewrite Hat. unfold Py.len in *. rewrite length_app. simpl.
    unfold value in Hcount. simpl in Hcount. lia.
  - intros other Hne. unfold value, list_at, Store.
    by rewrite list_lookup_insert_ne.
Qed.

(** Two fresh memories, each with its own empty list. *)
Definition two_lists : Store := [[]; []].

Definition exporter : Object :=
  {| messages_at := 0; o_summary := None; o_message_count := 0 |}.

Definition importer : Object :=
  {| messages_at := 1; o_summary := None; o_message_count := 0 |}.

Lemma import_shares_messages_witness :
  Py.len (messages
            (value
               (snd (add_message_at 20 (fun _ _ => Ok "s"%string) "t1" exporter
                       "user" "hello" two_lists))
               (import_conversation_at importer (export_conversation_at "t0" exporter))))
    = 1 /\
  message_count
    (value
       (snd (add_message_at 20 (fun _ _ => Ok "s"%string) "t1" exporter
               "user" "hello" two_lists))
       (import_conversation_at importer (export_conversation_at "t0" exporter)))
    = 0.
Proof.
  pose proof (import_shares_messages 20 (fun _ _ => Ok "s"%string) "t0" "t1"
                exporter importer "user" "hello" two_lists ltac:(simpl; lia)) as H.
  cbv zeta in H. destruct H as (_ & _ & _ & Hcount & Hlen & _).
  split; [|exact Hcount].
  rewrite (Hlen eq_refl), Hcount. reflexivity.
Defined.

End ConversationMemory.

(** ** The persistent index (chromadb), as far as the repository uses it

    One named collection lives in the persistence directory.  A Python
    [Collection] object is a handle on the collection's internal id: once the
    collection is deleted, and also after it is created again under the same
    name, calls through an old handle raise "does not exist". *)

Module Chroma.
Import Effects.

(** Metadata values the index accepts. *)
Inductive MetaVal : Type :=
| MStr (s : string)
| MInt (z : Z)
| MBool (b : bool).

#[global] Instance MetaVal_eq_dec : EqDecision MetaVal.
Proof. solve_decision. Defined.

(** Embedding vectors and distances are floats; nothing in the repository
    computes with them except the index's own ranking, which stays
    abstract, so they are carried as opaque lists / numbers. *)
Definition Embedding : Type := list Z.
Definition Distance : Type := Z.

Record Document : Type := {
  id : string;
  embedding : Embedding;
  document : string;
  metadata : gmap string MetaVal
}.

(** The [where] clauses the repository builds: one equality, or [$and]. *)
Inductive Where : Type :=
| WEq (key : string) (value : MetaVal)
| WAnd (conds : list Where).

Fixpoint matches (w : Where) (m : gmap string MetaVal) : bool :=
  match w with
  | WEq key value => bool_decide (m !! key = Some value)
  | WAnd conds => forallb (fun w' => matches w' m) conds
  end.

Definition matches_opt (w : option Where) (d : Document) : bool :=
  match w with
  | Some w => matches w (metadata d)
  | None => true
  end.

Record Collection : Type := {
  uuid : nat;
  docs : list Document
}.

Record Client : Type := {
  named : option Collection;
  next_uuid : nat
}.

Definition not_found : string := "Collection does not exist.".

(** The documents currently stored under the collection name. *)
Definition current_docs (c : Client) : list Document :=
  match named c with
  | Some col => docs col
  | None => []
  end.

Definition resolve (c : Client) (handle : nat) : result Collection :=
  match named c with
  | Some col => if (uuid col =? handle)%nat then Ok col else Raise not_found
  | None => Raise not_found
  end.

Definition get_or_create_collection (c : Client) : nat * Client :=
  match named c with
  | Some col => (uuid col, c)
  | None =>
      (next_uuid c,
       {| named := Some {| uuid := next_uuid c; docs := [] |};
          next_uuid := S (next_uuid c) |})
  end.

Definition delete_collection (c : Client) : result Client :=
  match named c with
  | Some _ => Ok {| named := None; next_uuid := next_uuid c |}
  | None => Raise not_found
  end.

Definition count (c : Client) (handle : nat) : result Z :=
  bind (resolve c handle) (fun col => Ok (Py.len (docs col))).

Definition add (c : Client) (handle : nat) (d : Document) : result Client :=
  bind (resolve c handle)
    (fun col => Ok {| named := Some {| uuid := uuid col; docs := docs col ++ [d] |};
                      next_uuid := next_uuid c |}).

(** [collection.get(where=..., limit=...)] *)
Definition get (c : Client) (handle : nat) (where_ : option Where)
    (limit : option nat) : result (list Document) :=
  bind (resolve c handle)
    (fun col =>
       let hits := List.filter (matches_opt where_) (docs col) in
       Ok (match limit with Some n => take n hits | None => hits end)).

(** The dictionary [collection.query] answers with, for one query vector. *)
Record QueryResult : Type := {
  ids : list (list string);
  documents : list (list string);
  metadatas : list (list (gmap string MetaVal));
  distances : list (list Distance)
}.

Definition pack (hits : list (Document * Distance)) : QueryResult :=
  {| ids := [List.map (fun h => id (fst h)) hits];
     documents := [List.map (fun h => document (fst h)) hits];
     metadatas := [List.map (fun h => metadata (fst h)) hits];
     distances := [List.map snd hits] |}.

(** How the index orders candidates by distance to the query vector. *)
Definition Ranking : Type := Embedding -> list Document -> list (Document * Distance).

(** [collection.query(query_embeddings=[e], n_results=n, where=...)] *)
Definition query (ranking : Ranking) (c : Client) (handle : nat)
    (e : Embedding) (n_results : Z) (where_ : option Where) : result QueryResult :=
  bind (resolve c handle)
    (fun col =>
       let candidates := List.filter (matches_opt where_) (docs col) in
       Ok (pack (take (Z.to_nat n_results) (ranking e candidates)))).

(** A ranking only reorders the candidates it is given. *)
Definition ranking_sound (ranking : Ranking) : Prop :=
  forall e ds hit, In hit (ranking e ds) -> In (fst hit) ds.

End Chroma.

(** ** Parsed mail and the process environment *)

Module Env.

(** An entry of [parsed['attachments']]; a key may be missing. *)
Record Attachment : Type := {
  filename : option string;
  mime_type : option string
}.

(** The dictionary [GmailClient.parse_message] returns, with the three keys
    [run_indexing] adds before it stores the mail. *)
Record ParsedEmail : Type := {
  id : string;
  thread_id : string;
  labels : list string;
  subject : string;
  from : string;
  to : string;
  cc : string;
  date : string;
  body_text : string;
  body_html : string;
  attachments : list Attachment;
  summary : string;
  category : string;
  stored_at : string
}.

(** An entry of Email Full-Body Storage. *)
Record EmailRecord : Type := {
  r_email_id : string;
  r_subject : string;
  r_sender : string;
  r_recipients : string;
  r_cc : string;
  r_date : string;
  r_body_text : string;
  r_body_html : string;
  r_attachments : list Attachment;
  r_labels : list string;
  r_thread_id : string;
  r_summary : string;
  r_category : string;
  r_stored_at : string
}.

(** What outlives a Python object: the index directory, the storage file,
    and the number of reads of the clock and of the random source made so
    far (the [n]-th read of either is a function of [n]).

    [email_storage_json] is what [json.load] reads from the storage file,
    [None] when there is no file or it does not hold a JSON document.
    [disk_writable]: a write of the file goes through.  When it does not,
    [failed_write_truncates] tells where it fails: before the file is
    opened (permissions), which leaves the file as it was, or after
    [open(..., 'w')] has emptied it (disk full, text that cannot be
    encoded), which leaves a file that is no JSON document. *)
Record World : Type := {
  chroma : Chroma.Client;
  email_storage_json : option (gmap string EmailRecord);
  disk_writable : bool;
  failed_write_truncates : bool;
  draws : nat
}.

Definition set_chroma (c : Chroma.Client) (w : World) : World :=
  {| chroma := c;
     email_storage_json := email_storage_json w;
     disk_writable := disk_writable w;
     failed_write_truncates := failed_write_truncates w;
     draws := draws w |}.

Definition set_email_storage_json (f : option (gmap string EmailRecord)) (w : World) : World :=
  {| chroma := chroma w;
     email_storage_json := f;
     disk_writable := disk_writable w;
     failed_write_truncates := failed_write_truncates w;
     draws := draws w |}.

Definition tick (w : World) : World :=
  {| chroma := chroma w;
     email_storage_json := email_storage_json w;
     disk_writable := disk_writable w;
     failed_write_truncates := failed_write_truncates w;
     draws := S (draws w) |}.

(** The services outside the process. *)
Record Services : Type := {
  (** [AzureOpenAIClient.generate_embedding] *)
  generate_embedding : string -> Effects.result Chroma.Embedding;
  (** [AzureOpenAIClient.generate_response] *)
  generate_response : list (string * string) -> Z -> Effects.result string;
  (** [uuid.uuid4().hex], by draw *)
  uuid4_hex : nat -> string;
  (** [datetime.now().isoformat()], by draw *)
  now_iso : nat -> string;
  (** the index's ordering of candidates *)
  ranking : Chroma.Ranking
}.

(** A concrete environment to run the definitions in: every call
    succeeds, the index keeps insertion order. *)
Definition demo_services : Services :=
  {| generate_embedding := fun _ => Effects.Ok [1; 2; 3];
     generate_response := fun _ _ => Effects.Ok "A short summary."%string;
     uuid4_hex := fun _ => "0123456789abcdef0123456789abcdef"%string;
     now_iso := fun _ => "2024-05-01T09:00:00"%string;
     ranking := fun _ ds => List.map (fun d => (d, 0)) ds |}.

(** A machine on which nothing was ever indexed or stored. *)
Definition fresh_world : World :=
  {| chroma := {| Chroma.named := None; Chroma.next_uuid := 0 |};
     email_storage_json := None;
     disk_writable := true;
     failed_write_truncates := false;
     draws := 0 |}.

End Env.

(** ** src/memory/email_storage.py *)

Module EmailStorage.
Import Effects Env.
Local Open Scope py_scope.

Record t : Type := {
  _storage : gmap string EmailRecord
}.

Record St : Type := {
  world : World;
  self : t
}.

(** [_load_storage]: a missing or unreadable file gives the empty map. *)
Definition _load_storage (w : World) : gmap string EmailRecord :=
  match email_storage_json w with
  | Some m => m
  | None => ∅
  end.

(** [__init__] *)
Definition init (w : World) : t := {| _storage := _load_storage w |}.

(** [_save_storage]: [open(self.storage_path, 'w')] empties the file,
    then [json.dump] writes it; whatever either raises is logged and
    dropped.  A write that fails at [open] leaves the file as it was; one
    that fails later leaves a file [_load_storage] cannot read. *)
Definition _save_storage : M St unit :=
  modify (fun st =>
    if disk_writable (world st)
    then {| world := set_email_storage_json (Some (_storage (self st))) (world st);
            self := self st |}
    else if failed_write_truncates (world st)
    then {| world := set_email_storage_json None (world st); self := self st |}
    else st).

Definition to_record (email_id : string) (email_data : ParsedEmail) : EmailRecord :=
  {| r_email_id := email_id;
     r_subject := subject email_data;
     r_sender := from email_data;
     r_recipients := to email_data;
     r_cc := cc email_data;
     r_date := date email_data;
     r_body_text := body_text email_data;
     r_body_html := body_html email_data;
     r_attachments := attachments email_data;
     r_labels := labels email_data;
     r_thread_id := thread_id email_data;
     r_summary := summary email_data;
     r_category := category email_data;
     r_stored_at := stored_at email_data |}.

(** [store_email] *)
Definition store_email (email_id : string) (email_data : ParsedEmail) : M St unit :=
  catch
    (modify (fun st =>
       {| world := world st;
          self := {| _storage := <[email_id := to_record email_id email_data]> (_storage (self st)) |} |}) ;;;
     _save_storage)
    (fun _ => ret tt).

(** [get_email] *)
Definition get_email (self : t) (email_id : string) : option EmailRecord :=
  _storage self !! email_id.

(** [has_email] *)
Definition has_email (self : t) (email_id : string) : bool :=
  bool_decide (is_Some (_storage self !! email_id)).

(** [delete_email] *)
Definition delete_email (email_id : string) : M St unit :=
  has <~ gets (fun st => has_email (self st) email_id) ;;;
  if has then
    modify (fun st =>
      {| world := world st;
         self := {| _storage := delete email_id (_storage (self st)) |} |}) ;;;
    _save_storage
  else ret tt.

(** [clear_all] *)
Definition clear_all : M St unit :=
  modify (fun st => {| world := world st; self := {| _storage := ∅ |} |}) ;;;
  _save_storage.

(** *** Round trips and persistence *)

(** What a new [EmailStorage] object would load is what this one holds. *)
Definition in_sync (st : St) : Prop := init (world st) = self st.

(** X5: [store_email] never raises; afterwards [get_email] of that id
    returns the record built from the mail, [has_email] holds, and every
    other id reads as before. *)
Theorem store_email_then_get (email_id : string) (email_data : ParsedEmail) (st : St) :
  let out := store_email email_id email_data st in
  fst out = Ok tt /\
  get_email (self (snd out)) email_id = Some (to_record email_id email_data) /\
  has_email (self (snd out)) email_id = true /\
  (forall other, other <> email_id ->
     get_email (self (snd out)) other = get_email (self st) other).
Proof.
  destruct st as [w s]. cbn.
  unfold store_email, catch, mbind, modify, _save_storage, get_email, has_email. cbn.
  destruct (disk_writable w), (failed_write_truncates w); cbn.
  all: rewrite ?lookup_insert_eq; repeat split; try done.
  all: try (intros other Hne; by rewrite lookup_insert_ne).
  all: try (apply bool_decide_eq_true; by rewrite lookup_insert_eq).
Qed.

(** X6: [delete_email] never raises, removes that id and no other, also
    when the id was not stored; after [clear_all] no id is stored. *)
Theorem delete_email_then_get (email_id : string) (st : St) :
  let out := delete_email email_id st in
  fst out = Ok tt /\
  get_email (self (snd out)) email_id = None /\
  has_email (self (snd out)) email_id = false /\
  (forall other, other <> email_id ->
     get_email (self (snd out)) other = get_email (self st) other) /\
  (forall other, get_email (self (snd (clear_all st))) other = None).
Proof.
  destruct st as [w s]. cbn.
  unfold delete_email, clear_all, mbind, gets, modify, _save_storage, ret,
    get_email, has_email. cbn.
  case_bool_decide as Hhas; cbn.
  - destruct (disk_writable w), (failed_write_truncates w); cbn.
    all: rewrite ?lookup_delete_eq; repeat split; try done.
    all: try (intros other Hne; by rewrite lookup_delete_ne).
    all: try (apply bool_decide_eq_false; rewrite lookup_delete_eq; by intros [? ?]).
    all: intros other; destruct (disk_writable w), (failed_write_truncates w); cbn;
      apply lookup_empty.
  - repeat split; try done.
    + destruct (_storage s !! email_id) eqn:E; [|done]. by destruct Hhas.
    + by apply bool_decide_eq_false.
    + intros other. destruct (disk_writable w), (failed_write_truncates w); cbn; apply lookup_empty.
Qed.

(** X7: on a writable disk, a new [EmailStorage] object built after
    [store_email] or [clear_all] holds what the writing object holds; so it
    does after [delete_email] when the id was stored or the two agreed
    before. *)
Theorem storage_survives_restart (st : St) :
  disk_writable (world st) = true ->
  (forall email_id email_data, in_sync (snd (store_email email_id email_data st))) /\
  in_sync (snd (clear_all st)) /\
  (forall email_id,
     has_email (self st) email_id = true \/ in_sync st ->
     in_sync (snd (delete_email email_id st))).
Proof.
  destruct st as [w [s]]. cbn. intros Hw. unfold in_sync.
  unfold store_email, delete_email, clear_all, catch, mbind, gets, modify,
    _save_storage, ret, has_email. cbn. rewrite Hw. cbn.
  split; [done|]. split; [done|].
  intros email_id H. case_bool_decide as Hhas; cbn.
  - by rewrite Hw.
  - destruct H as [H|H]; [discriminate|exact H].
Qed.

Definition one_mail : ParsedEmail :=
  {| id := "m1"; thread_id := "t1"; labels := ["INBOX"]; subject := "Hello";
     from := "a@example.com"; to := "b@example.com"; cc := EmptyString;
     date := "2024-05-01"; body_text := "Hi."; body_html := EmptyString;
     attachments := []; summary := "s"; category := "general";
     stored_at := "2024-05-01T09:00:00" |}.

Definition fresh_storage : St :=
  {| world := fresh_world; self := init fresh_world |}.

Lemma storage_survives_restart_witness :
  in_sync (snd (store_email "m1" one_mail fresh_storage)).
Proof.
  exact (proj1 (storage_survives_restart fresh_storage eq_refl) "m1"%string one_mail).
Defined.

(** X8: when the write of the file fails, [store_email] still returns
    normally and the object answers with the new record.  If the write
    failed before the file was opened, the file is as it was, and a new
    [EmailStorage] object reads what it would have read before the call.
    If it failed after [open(..., 'w')], the old content is gone as well: a
    new [EmailStorage] object holds no mail at all. *)
Theorem store_email_unwritable (email_id : string) (email_data : ParsedEmail) (st : St) :
  disk_writable (world st) = false ->
  let out := store_email email_id email_data st in
  fst out = Ok tt /\
  get_email (self (snd out)) email_id = Some (to_record email_id email_data) /\
  (failed_write_truncates (world st) = false -> world (snd out) = world st) /\
  (failed_write_truncates (world st) = true ->
   email_storage_json (world (snd out)) = None /\
   forall other, get_email (init (world (snd out))) other = None).
Proof.
  destruct st as [w [s]]. cbn. intros Hw.
  unfold store_email, catch, mbind, modify, _save_storage, get_email. cbn.
  rewrite Hw. destruct (failed_write_truncates w); cbn; rewrite lookup_insert_eq.
  - split; [done|]. split; [done|]. split; [done|].
    intros _. split; [done|]. intros other. apply lookup_empty.
  - done.
Qed.

(** A disk that fills up: the file holds one mail, and the next write
    fails after the file was opened. *)
Definition full_disk_storage : St :=
  {| world := {| chroma := chroma fresh_world;
                 email_storage_json := Some {[ "m0"%string := to_record "m0" one_mail ]};
                 disk_writable := false;
                 failed_write_truncates := true;
                 draws := 0 |};
     self := {| _storage := {[ "m0"%string := to_record "m0" one_mail ]} |} |}.

Lemma store_email_unwritable_witness :
  get_email (init (world full_disk_storage)) "m0" = Some (to_record "m0" one_mail) /\
  get_email (self (snd (store_email "m1" one_mail full_disk_storage))) "m1" =
    Some (to_record "m1" one_mail) /\
  get_email (init (world (snd (store_email "m1" one_mail full_disk_storage)))) "m0" = None /\
  get_email (init (world (snd (store_email "m1" one_mail full_disk_storage)))) "m1" = None.
Proof.
  destruct (store_email_unwritable "m1" one_mail full_disk_storage eq_refl)
    as (_ & Hget & _ & Hgone).
  destruct (Hgone eq_refl) as [_ Hnone].
  split; [reflexivity|]. split; [exact Hget|]. split; apply Hnone.
Defined.

End EmailStorage.

(** ** src/memory/vector_store.py *)

Module VectorStore.
Import Effects Env.
Local Open Scope py_scope.

(** A [VectorStore] object: its handle on the collection. *)
Record t : Type := {
  collection : nat
}.

Record St : Type := {
  world : World;
  self : t
}.

Definition with_world (f : World -> World) (st : St) : St :=
  {| world := f (world st); self := self st |}.

(** [self.collection = self.chroma_client.get_or_create_collection(...)] *)
Definition bind_collection : M St unit :=
  fun st =>
    let '(h, c) := Chroma.get_or_create_collection (chroma (world st)) in
    (Ok tt, {| world := set_chroma c (world st); self := {| collection := h |} |}).

(** A read through [self.collection]. *)
Definition through_collection {A} (f : Chroma.Client -> nat -> result A) : M St A :=
  fun st => (f (chroma (world st)) (collection (self st)), st).

(** [__init__] / [_setup_chroma] *)
Definition init (w : World) : t * World :=
  let '(h, c) := Chroma.get_or_create_collection (chroma w) in
  ({| collection := h |}, set_chroma c w).

(** [_ensure_collection_exists] *)
Definition _ensure_collection_exists : M St unit :=
  catch (through_collection Chroma.count ;;; ret tt)
    (fun e =>
       if Py.contains "does not exist" e then bind_collection
       else raise e).

Definition read_clock (svc : Services) : M St string :=
  fun st => (Ok (now_iso svc (draws (world st))), with_world tick st).

Definition draw_uuid (svc : Services) : M St string :=
  fun st => (Ok (uuid4_hex svc (draws (world st))), with_world tick st).

(** Values a caller may put in [additional_metadata]. *)
Inductive PyVal : Type :=
| VStr (s : string)
| VInt (z : Z)
| VBool (b : bool)
| VList (l : list string)
| VNone.

(** Lists become comma-joined strings, [None] the empty string. *)
Definition coerce (v : PyVal) : Chroma.MetaVal :=
  match v with
  | VList l => Chroma.MStr (Py.join "," l)
  | VNone => Chroma.MStr EmptyString
  | VStr s => Chroma.MStr s
  | VInt z => Chroma.MInt z
  | VBool b => Chroma.MBool b
  end.

(** [for key, value in additional_metadata.items(): metadata[key] = ...] *)
Definition merge_metadata (metadata : gmap string Chroma.MetaVal)
    (additional : list (string * PyVal)) : gmap string Chroma.MetaVal :=
  fold_left (fun m kv => <[fst kv := coerce (snd kv)]> m) additional metadata.

(** The metadata dictionary [add_email] starts from. *)
Definition email_metadata (email_id subject sender recipients date : string)
    (labels : list string) (attachments : list Attachment)
    (thread_id : option string) (indexed_at : string) : gmap string Chroma.MetaVal :=
  let metadata : gmap string Chroma.MetaVal :=
    <["content_type" := Chroma.MStr "email"]>
    (<["indexed_at" := Chroma.MStr indexed_at]>
    (<["thread_id" := Chroma.MStr (Py.or_empty thread_id)]>
    (<["attachment_count" := Chroma.MInt (Py.len attachments)]>
    (<["has_attachments" := Chroma.MBool (0 <? Py.len attachments)]>
    (<["labels" := Chroma.MStr (Py.join "," labels)]>
    (<["date" := Chroma.MStr date]>
    (<["recipients" := Chroma.MStr recipients]>
    (<["sender" := Chroma.MStr sender]>
    (<["subject" := Chroma.MStr subject]>
    (<["email_id" := Chroma.MStr email_id]> ∅)))))))))) in
  if Py.truthy attachments then
    <["attachment_names" :=
        Chroma.MStr (Py.join "," (List.map (fun att => Py.or_empty (filename att)) attachments))]>
      metadata
  else metadata.

(** [add_email]; an empty [additional_metadata] stands for [None] too. *)
Definition add_email (svc : Services)
    (email_id subject body sender recipients date : string)
    (labels : list string) (attachments : list Attachment)
    (thread_id : option string) (additional_metadata : list (string * PyVal))
    : M St string :=
  catch
    (_ensure_collection_exists ;;;
     let combined_text :=
       ("Subject: " ++ subject ++ nl ++ nl ++ "From: " ++ sender ++ nl ++ nl
        ++ "Body: " ++ body)%string in
     embedding <~ lift (generate_embedding svc combined_text) ;;;
     indexed_at <~ read_clock svc ;;;
     let metadata :=
       merge_metadata
         (email_metadata email_id subject sender recipients date labels
            attachments thread_id indexed_at)
         additional_metadata in
     hex <~ draw_uuid svc ;;;
     let doc_id := ("email_" ++ email_id ++ "_" ++ substring 0 8 hex)%string in
     c <~ through_collection (fun c h =>
            Chroma.add c h {| Chroma.id := doc_id;
                              Chroma.embedding := embedding;
                              Chroma.document := combined_text;
                              Chroma.metadata := metadata |}) ;;;
     modify (with_world (set_chroma c)) ;;;
     ret doc_id)
    (fun e => raise e).

(** [add_conversation] *)
Definition add_conversation (svc : Services)
    (conversation_text user_query assistant_response timestamp : string)
    (additional_metadata : list (string * Chroma.MetaVal)) : M St string :=
  catch
    (_ensure_collection_exists ;;;
     embedding <~ lift (generate_embedding svc conversation_text) ;;;
     indexed_at <~ read_clock svc ;;;
     let metadata : gmap string Chroma.MetaVal :=
       <["indexed_at" := Chroma.MStr indexed_at]>
       (<["content_type" := Chroma.MStr "conversation"]>
       (<["timestamp" := Chroma.MStr timestamp]>
       (<["assistant_response" := Chroma.MStr (substring 0 500 assistant_response)]>
       (<["user_query" := Chroma.MStr (substring 0 500 user_query)]> ∅)))) in
     let metadata :=
       fold_left (fun m kv => <[fst kv := snd kv]> m) additional_metadata metadata in
     hex <~ draw_uuid svc ;;;
     let doc_id := ("conv_" ++ hex)%string in
     c <~ through_collection (fun c h =>
            Chroma.add c h {| Chroma.id := doc_id;
                              Chroma.embedding := embedding;
                              Chroma.document := conversation_text;
                              Chroma.metadata := metadata |}) ;;;
     modify (with_world (set_chroma c)) ;;;
     ret doc_id)
    (fun e => raise e).

Definition empty_result : Chroma.QueryResult :=
  {| Chroma.ids := [[]];
     Chroma.documents := [[]];
     Chroma.metadatas := [[]];
     Chroma.distances := [[]] |}.

(** [max(1, min(n_results, collection_count))] *)
Definition actual_n_results (n_results collection_count : Z) : Z :=
  Z.max 1 (Z.min n_results collection_count).

(** [semantic_search] *)
Definition semantic_search (svc : Services) (query : string) (n_results : Z)
    (filter_metadata : option Chroma.Where) : M St Chroma.QueryResult :=
  catch
    (_ensure_collection_exists ;;;
     collection_count <~ through_collection Chroma.count ;;;
     if collection_count =? 0 then ret empty_result
     else
       query_embedding <~ lift (generate_embedding svc query) ;;;
       let actual_n_results := actual_n_results n_results collection_count in
       results <~ through_collection (fun c h =>
                    Chroma.query (ranking svc) c h query_embedding actual_n_results
                      filter_metadata) ;;;
       ret results)
    (fun _ => ret empty_result).

(** [clear_all_data] *)
Definition clear_all_data : M St unit :=
  catch
    (c <~ (fun st => (Chroma.delete_collection (chroma (world st)), st)) ;;;
     modify (with_world (set_chroma c)) ;;;
     bind_collection)
    (fun e => raise e).

(** [get_collection_stats]['total_documents'] *)
Definition total_documents : M St Z := through_collection Chroma.count.

(** *** After [_ensure_collection_exists] the handle is current *)

Lemma ensure_current st :
  exists h c,
    _ensure_collection_exists st =
      (Ok tt, {| world := set_chroma c (world st); self := {| collection := h |} |}) /\
    Chroma.resolve c h =
      Ok {| Chroma.uuid := h; Chroma.docs := Chroma.current_docs (chroma (world st)) |} /\
    Chroma.current_docs c = Chroma.current_docs (chroma (world st)).
Proof.
  destruct st as [[[named next] file writable truncates draws] [h]].
  unfold _ensure_collection_exists, catch, mbind, through_collection, Chroma.count,
    Chroma.resolve, bind_collection, Chroma.get_or_create_collection,
    Chroma.current_docs, set_chroma.
  simpl. destruct named as [[u ds]|]; simpl.
  - destruct (Nat.eqb_spec u h) as [->|Hne]; simpl.
    + exists h, {| Chroma.named := Some {| Chroma.uuid := h; Chroma.docs := ds |};
                   Chroma.next_uuid := next |}.
      simpl. rewrite Nat.eqb_refl. done.
    + exists u, {| Chroma.named := Some {| Chroma.uuid := u; Chroma.docs := ds |};
                   Chroma.next_uuid := next |}.
      simpl. rewrite Nat.eqb_refl. done.
  - exists next, {| Chroma.named := Some {| Chroma.uuid := next; Chroma.docs := [] |};
                    Chroma.next_uuid := S next |}.
    simpl. rewrite Nat.eqb_refl. done.
Qed.


(** What [semantic_search] answers, in terms of the stored documents. *)
Lemma semantic_search_answer (svc : Services) (st : St) (query : string)
    (n_results : Z) (filter_metadata : option Chroma.Where) :
  let stored := Chroma.current_docs (chroma (world st)) in
  fst (semantic_search svc query n_results filter_metadata st) =
  Ok (if Py.len stored =? 0 then empty_result
      else match generate_embedding svc query with
           | Ok e =>
               Chroma.pack
                 (take (Z.to_nat (actual_n_results n_results (Py.len stored)))
                    (ranking svc e
                       (List.filter (Chroma.matches_opt filter_metadata) stored)))
           | Raise _ => empty_result
           end).
Proof.
  cbv zeta.
  destruct (ensure_current st) as (h & c & Hens & Hres & Hdocs).
  set (stored := Chroma.current_docs (chroma (world st))) in *.
  unfold semantic_search, catch, mbind at 1. rewrite Hens.
  unfold mbind, through_collection, Chroma.count, Chroma.query, lift, ret. simpl.
  rewrite Hres. simpl.
  destruct (Py.len stored =? 0); [done|].
  destruct (generate_embedding svc query); simpl; [|done].
  rewrite Hres. done.
Qed.


(** A store on a fresh machine, and the same after one conversation was
    added through [add_conversation]. *)
Definition demo_store : St :=
  let '(vs, w) := init fresh_world in {| world := w; self := vs |}.

Definition demo_store_one : St :=
  snd (add_conversation demo_services "USER: hi" "hi" "hello" "2024-05-01" [] demo_store).


(** *** What [add_email] writes *)

(** The text [add_email] embeds and stores. *)
Definition combined_text (subject sender body : string) : string :=
  ("Subject: " ++ subject ++ nl ++ nl ++ "From: " ++ sender ++ nl ++ nl
   ++ "Body: " ++ body)%string.

(** One run of [add_email], by what the embedding service answers. *)
Lemma add_email_run (svc : Services) (st : St)
    (email_id subject body sender recipients date : string)
    (labels : list string) (attachments : list Attachment)
    (thread_id : option string) (additional_metadata : list (string * PyVal)) :
  let out := add_email svc email_id subject body sender recipients date labels
               attachments thread_id additional_metadata st in
  let before := Chroma.current_docs (chroma (world st)) in
  let after := Chroma.current_docs (chroma (world (snd out))) in
  match generate_embedding svc (combined_text subject sender body) with
  | Ok e =>
      let doc_id :=
        ("email_" ++ email_id ++ "_"
         ++ substring 0 8 (uuid4_hex svc (S (draws (world st)))))%string in
      fst out = Ok doc_id /\
      after = before ++
        [{| Chroma.id := doc_id;
            Chroma.embedding := e;
            Chroma.document := combined_text subject sender body;
            Chroma.metadata :=
              merge_metadata
                (email_metadata email_id subject sender recipients date labels
                   attachments thread_id (now_iso svc (draws (world st))))
                additional_metadata |}]
  | Raise err => fst out = Raise err /\ after = before
  end.
Proof.
  cbv zeta.
  destruct (ensure_current st) as (h & c & Hens & Hres & Hdocs).
  destruct (add_email _ _ _ _ _ _ _ _ _ _ _ st) as [r st'] eqn:E.
  unfold add_email, catch, mbind at 1 in E. rewrite Hens in E.
  unfold combined_text.
  unfold mbind, lift, read_clock, draw_uuid, through_collection, modify, ret,
    with_world, Chroma.add in E. cbn in E.
  destruct (generate_embedding svc _) as [e|err]; cbn in E.
  - rewrite Hres in E. cbn in E. injection E as <- <-. cbn.
    split; [done|]. unfold Chroma.current_docs at 1. cbn. done.
  - injection E as <- <-. cbn. split; [done|]. exact Hdocs.
Qed.

(** The value the loop of [merge_metadata] leaves under [k]: that of the
    last pair with this key. *)
Fixpoint last_binding (k : string) (l : list (string * PyVal)) : option PyVal :=
  match l with
  | [] => None
  | (k', v) :: l' =>
      match last_binding k l' with
      | Some v' => Some v'
      | None => if decide (k' = k) then Some v else None
      end
  end.

Lemma merge_metadata_last (metadata : gmap string Chroma.MetaVal)
    (additional : list (string * PyVal)) (k : string) :
  merge_metadata metadata additional !! k =
    match last_binding k additional with
    | Some v => Some (coerce v)
    | None => metadata !! k
    end.
Proof.
  unfold merge_metadata. revert metadata.
  induction additional as [|[k' v] l IH]; intros metadata; [done|].
  cbn [fold_left last_binding fst snd]. rewrite IH.
  destruct (last_binding k l); [done|].
  destruct (decide (k' = k)) as [->|Hne].
  - by rewrite lookup_insert_eq.
  - by rewrite lookup_insert_ne.
Qed.

(** X9: when the embedding service answers, [add_email] returns the new
    document id and the collection gains exactly one document, at the end,
    also when the object's handle was stale or the collection missing; a
    metadata key named in [additional_metadata] holds the caller's last
    value for it, coerced (a list comma-joined, [None] as the empty
    string), also when it is a built-in key such as [content_type] or
    [email_id]; every other key holds the built-in value.  When the
    embedding service raises, [add_email] raises the same error and the
    collection holds what it held. *)
Theorem add_email_writes (svc : Services) (st : St)
    (email_id subject body sender recipients date : string)
    (labels : list string) (attachments : list Attachment)
    (thread_id : option string) (additional_metadata : list (string * PyVal)) :
  let out := add_email svc email_id subject body sender recipients date labels
               attachments thread_id additional_metadata st in
  let before := Chroma.current_docs (chroma (world st)) in
  let after := Chroma.current_docs (chroma (world (snd out))) in
  (forall e, generate_embedding svc (combined_text subject sender body) = Ok e ->
     exists doc_id d,
       fst out = Ok doc_id /\ after = before ++ [d] /\
       Chroma.id d = doc_id /\
       Chroma.embedding d = e /\
       Chroma.document d = combined_text subject sender body /\
       forall k,
         Chroma.metadata d !! k =
           match last_binding k additional_metadata with
           | Some v => Some (coerce v)
           | None =>
               email_metadata email_id subject sender recipients date labels
                 attachments thread_id (now_iso svc (draws (world st))) !! k
           end) /\
  (forall err, generate_embedding svc (combined_text subject sender body) = Raise err ->
     fst out = Raise err /\ after = before).
Proof.
  cbv zeta.
  pose proof (add_email_run svc st email_id subject body sender recipients date
                labels attachments thread_id additional_metadata) as Hrun.
  cbv zeta in Hrun.
  destruct (generate_embedding svc (combined_text subject sender body)) as [e|err].
  - destruct Hrun as [Hfst Hdocs]. split; [|discriminate].
    intros e' [= <-]. eexists _, _. split; [exact Hfst|]. split; [exact Hdocs|].
    cbn. repeat split. intros k. apply merge_metadata_last.
  - split; [discriminate|]. by intros err' [= <-].
Qed.

Lemma add_email_writes_witness :
  exists doc_id d,
    fst (add_email demo_services "m1" "Hello" "Hi." "a@example.com" "b@example.com"
           "2024-05-01" [] [] None [("content_type", VStr "note")] demo_store)
      = Ok doc_id /\
    Chroma.current_docs
      (chroma (world (snd (add_email demo_services "m1" "Hello" "Hi." "a@example.com"
                             "b@example.com" "2024-05-01" [] [] None
                             [("content_type", VStr "note")] demo_store)))) = [d] /\
    Chroma.metadata d !! "content_type" = Some (Chroma.MStr "note").
Proof.
  destruct (proj1 (add_email_writes demo_services demo_store "m1" "Hello" "Hi."
                     "a@example.com" "b@example.com" "2024-05-01" [] [] None
                     [("content_type", VStr "note")]) [1; 2; 3] eq_refl)
    as (doc_id & d & Hfst & Hdocs & _ & _ & _ & Hmeta).
  exists doc_id, d. split; [exact Hfst|]. split; [exact Hdocs|].
  exact (Hmeta "content_type"%string).
Defined.

(** *** Clearing *)

(** X10: when the collection exists, [clear_all_data] returns normally
    and leaves an empty collection: the object that cleared counts 0
    documents, and [semantic_search] through any object answers with the
    empty shape; but the count read by [get_collection_stats] through an
    object that still holds the handle of the deleted collection raises. *)
Theorem clear_all_data_empties (svc : Services) (st : St) (col : Chroma.Collection) :
  Chroma.named (chroma (world st)) = Some col ->
  (Chroma.uuid col < Chroma.next_uuid (chroma (world st)))%nat ->
  let out := clear_all_data st in
  fst out = Ok tt /\
  Chroma.current_docs (chroma (world (snd out))) = [] /\
  fst (total_documents (snd out)) = Ok 0%Z /\
  (forall other query n_results filter_metadata,
     fst (semantic_search svc query n_results filter_metadata
            {| world := world (snd out); self := other |}) = Ok empty_result) /\
  fst (total_documents {| world := world (snd out);
                          self := {| collection := Chroma.uuid col |} |}) =
    Raise Chroma.not_found.
Proof.
  destruct st as [[[named next] file writable truncates draws] [h]]. cbn.
  intros -> Hlt.
  unfold clear_all_data, catch, mbind, modify, bind_collection, with_world,
    total_documents, through_collection, Chroma.count, Chroma.resolve. cbn.
  rewrite Nat.eqb_refl. cbn.
  split; [done|]. split; [done|]. split; [done|]. split.
  - intros other query n_results filter_metadata.
    rewrite semantic_search_answer. done.
  - destruct (Nat.eqb_spec next (Chroma.uuid col)); [lia|done].
Qed.

Lemma clear_all_data_empties_witness :
  fst (clear_all_data demo_store_one) = Ok tt /\
  fst (total_documents
         {| world := world (snd (clear_all_data demo_store_one));
            self := self demo_store_one |}) = Raise Chroma.not_found.
Proof.
  destruct (clear_all_data_empties demo_services demo_store_one
              {| Chroma.uuid := 0%nat;
                 Chroma.docs := Chroma.current_docs (chroma (world demo_store_one)) |}
              eq_refl ltac:(cbn; lia))
    as (Hok & _ & _ & _ & Hstale).
  split; [exact Hok|exact Hstale].
Defined.

End VectorStore.

(** ** src/services/email_indexer.py *)

Module EmailIndexer.
Import Effects Env.
Local Open Scope py_scope.

Record t : Type := {
  vector_store : VectorStore.t;
  email_storage : EmailStorage.t;
  last_index_time : option string
}.

Record St : Type := {
  world : World;
  self : t
}.

(** The state [self.vector_store]'s methods run on, and how it is put back. *)
Definition vs_get (st : St) : VectorStore.St :=
  {| VectorStore.world := world st; VectorStore.self := vector_store (self st) |}.

Definition vs_set (v : VectorStore.St) (st : St) : St :=
  {| world := VectorStore.world v;
     self := {| vector_store := VectorStore.self v;
                email_storage := email_storage (self st);
                last_index_time := last_index_time (self st) |} |}.

Definition es_get (st : St) : EmailStorage.St :=
  {| EmailStorage.world := world st; EmailStorage.self := email_storage (self st) |}.

Definition es_set (e : EmailStorage.St) (st : St) : St :=
  {| world := EmailStorage.world e;
     self := {| vector_store := vector_store (self st);
                email_storage := EmailStorage.self e;
                last_index_time := last_index_time (self st) |} |}.

(** [__init__] *)
Definition init (w : World) : St :=
  let '(vs, w') := VectorStore.init w in
  {| world := w';
     self := {| vector_store := vs;
                email_storage := EmailStorage.init w';
                last_index_time := None |} |}.

(** The mailbox: [get_message] followed by [parse_message] for a listed id.
    [None]: no message came back; [Raise]: parsing raised. *)
Definition Mailbox : Type := string -> option (result ParsedEmail).

Definition categories : list (string * list string) :=
  [("placement", ["placement"; "campus"; "recruitment"; "job"; "interview";
                  "company visit"; "hiring"]);
   ("academic", ["exam"; "assignment"; "class"; "lecture"; "course"; "semester"; "grade"]);
   ("meeting", ["meeting"; "schedule"; "calendar"; "conference"; "zoom"; "teams"]);
   ("notification", ["notification"; "alert"; "reminder"; "update"; "announcement"]);
   ("personal", ["personal"; "family"; "friend"]);
   ("work", ["project"; "deadline"; "task"; "report"; "work"; "office"])]%string.

(** [_categorize_email] *)
Definition _categorize_email (subject body : string) (labels : list string) : string :=
  let text := Py.lower (subject ++ " " ++ body)%string in
  match List.find (fun cat => existsb (fun keyword => Py.contains keyword text) (snd cat))
          categories with
  | Some cat => fst cat
  | None =>
      if bool_decide ("CATEGORY_PROMOTIONS"%string ∈ labels) then "promotional"
      else if bool_decide ("CATEGORY_SOCIAL"%string ∈ labels) then "social"
      else if bool_decide ("CATEGORY_UPDATES"%string ∈ labels) then "updates"
      else "general"
  end%string.

(** [_generate_email_summary] *)
Definition _generate_email_summary (svc : Services) (parsed_email : ParsedEmail) : string :=
  try_except
    (let subject := subject parsed_email in
     let body := substring 0 2000 (body_text parsed_email) in
     if negb (Py.nonempty body) then Ok ("Email about: " ++ subject)%string
     else
       let summary_prompt :=
         ("Summarize this email concisely (max 3 sentences):" ++ nl ++ nl
          ++ "Subject: " ++ subject ++ nl ++ nl
          ++ "Body:" ++ nl ++ body ++ nl ++ nl ++ "Summary:")%string in
       bind (generate_response svc
               [("system", "You are an email summarization assistant. Create brief, informative summaries.");
                ("user", summary_prompt)]%string 150)
         (fun summary => Ok (Py.strip_string summary)))
    (fun _ => ("Email about: " ++ subject parsed_email)%string).

(** The top-level MIME types of the attachments that name one; Python
    builds them through a [set], whose order is unspecified: first
    occurrences are kept here. *)
Definition attachment_types (attachments : list Attachment) : list string :=
  remove_dups
    (omap (fun att =>
             match mime_type att with
             | Some m => if Py.nonempty m then Some (Py.until_char "/" m) else None
             | None => None
             end) attachments).

Definition sender_domain (sender : string) : string :=
  match Py.after_char "@" sender with
  | Some rest => Py.until_char "@" rest
  | None => EmptyString
  end.

Definition word_count (s : string) : Z :=
  Py.count_words false (list_ascii_of_string s).

(** [enhanced_metadata] *)
Definition enhanced_metadata (parsed_email : ParsedEmail) (summary : string)
    : list (string * VectorStore.PyVal) :=
  let email_id := id parsed_email in
  let subject := subject parsed_email in
  let body := body_text parsed_email in
  let sender := from parsed_email in
  let labels := labels parsed_email in
  let attachments := attachments parsed_email in
  [("summary", VectorStore.VStr summary);
   ("has_attachment", VectorStore.VBool (0 <? Py.len attachments)%Z);
   ("attachment_count", VectorStore.VInt (Py.len attachments));
   ("attachment_types", VectorStore.VStr (Py.join "," (attachment_types attachments)));
   ("word_count", VectorStore.VInt (word_count body));
   ("char_count", VectorStore.VInt (Z.of_nat (String.length body)));
   ("is_reply", VectorStore.VBool (Py.contains "Re:" subject || Py.contains "RE:" subject));
   ("is_forward", VectorStore.VBool (Py.contains "Fwd:" subject || Py.contains "FWD:" subject));
   ("priority", VectorStore.VBool (bool_decide ("IMPORTANT"%string ∈ labels)
                                   || bool_decide ("STARRED"%string ∈ labels)));
   ("category", VectorStore.VStr (_categorize_email subject body labels));
   ("has_html", VectorStore.VBool (Py.nonempty (body_html parsed_email)));
   ("sender_domain", VectorStore.VStr (sender_domain sender));
   ("is_chunked", VectorStore.VBool false);
   ("original_email_id", VectorStore.VStr email_id)]%string.

(** [{**enhanced_metadata, 'is_chunked': True, ...}] *)
Definition chunk_metadata (enhanced : list (string * VectorStore.PyVal))
    (email_id : string) (i total_chunks : nat) (chunk : string)
    : list (string * VectorStore.PyVal) :=
  enhanced ++
  [("is_chunked", VectorStore.VBool true);
   ("chunk_index", VectorStore.VInt (Z.of_nat i));
   ("total_chunks", VectorStore.VInt (Z.of_nat total_chunks));
   ("original_email_id", VectorStore.VStr email_id);
   ("chunk_word_count", VectorStore.VInt (word_count chunk))].

(** [chunk_text(body, chunk_size=1200, overlap=150)]; the fuel is the
    length of the body, which is enough for these arguments. *)
Definition body_chunks (body : string) : option (list string) :=
  option_map (List.map string_of_list_ascii)
    (TextProcessing.chunk_text (String.length body) (list_ascii_of_string body) 1200 150).

(** [for i, chunk in enumerate(chunks): self.vector_store.add_email(...)] *)
Fixpoint index_chunks (svc : Services) (parsed_email : ParsedEmail)
    (enhanced : list (string * VectorStore.PyVal)) (total_chunks : nat)
    (i : nat) (chunks : list string) : M VectorStore.St unit :=
  match chunks with
  | [] => ret tt
  | chunk :: rest =>
      VectorStore.add_email svc
        (id parsed_email ++ "_chunk_" ++ pretty i)%string
        (subject parsed_email) chunk (from parsed_email) (to parsed_email)
        (date parsed_email) (labels parsed_email) (attachments parsed_email)
        (Some (thread_id parsed_email))
        (chunk_metadata enhanced (id parsed_email) i total_chunks chunk) ;;;
      index_chunks svc parsed_email enhanced total_chunks (S i) rest
  end.

(** [_index_email_with_metadata] *)
Definition _index_email_with_metadata (svc : Services) (parsed_email : ParsedEmail)
    (summary : string) : M VectorStore.St unit :=
  catch
    (let body := body_text parsed_email in
     let enhanced := enhanced_metadata parsed_email summary in
     if 1500 <? Z.of_nat (String.length body) then
       match body_chunks body with
       | Some chunks => index_chunks svc parsed_email enhanced (length chunks) 0 chunks
       | None => raise "chunk_text did not return"
       end
     else
       VectorStore.add_email svc (id parsed_email) (subject parsed_email) body
         (from parsed_email) (to parsed_email) (date parsed_email)
         (labels parsed_email) (attachments parsed_email)
         (Some (thread_id parsed_email)) enhanced ;;;
       ret tt)
    (fun e => raise e).

Inductive Outcome : Type := Indexed | Skipped.

(** The dedupe probe: [self.vector_store.collection.get(where={"email_id":
    parsed['id']}, limit=1)], and [existing and existing['ids']]. *)
Definition already_indexed (email_id : string) : M VectorStore.St bool :=
  existing <~ VectorStore.through_collection (fun c h =>
                Chroma.get c h (Some (Chroma.WEq "email_id" (Chroma.MStr email_id))) (Some 1%nat)) ;;;
  ret (Py.truthy existing).

Definition with_summary (parsed : ParsedEmail) (summary category stored_at : string)
    : ParsedEmail :=
  {| id := id parsed; thread_id := thread_id parsed; labels := labels parsed;
     subject := subject parsed; from := from parsed; to := to parsed; cc := cc parsed;
     date := date parsed; body_text := body_text parsed; body_html := body_html parsed;
     attachments := attachments parsed;
     summary := summary; category := category; stored_at := stored_at |}.

(** The body of the [for] loop, inside its [try]. *)
Definition process_message (svc : Services) (mailbox : Mailbox) (msg_id : string)
    : M St Outcome :=
  match mailbox msg_id with
  | None => ret Skipped
  | Some fetched =>
      parsed <~ lift fetched ;;;
      found <~ catch (zoom vs_get vs_set (already_indexed (id parsed)))
                 (fun _ => ret false) ;;;
      if found then ret Skipped
      else
        let summary := _generate_email_summary svc parsed in
        let category :=
          _categorize_email (subject parsed) (body_text parsed) (labels parsed) in
        stored_at <~ zoom vs_get vs_set (VectorStore.read_clock svc) ;;;
        let parsed := with_summary parsed summary category stored_at in
        zoom es_get es_set (EmailStorage.store_email (id parsed) parsed) ;;;
        zoom vs_get vs_set (_index_email_with_metadata svc parsed summary) ;;;
        ret Indexed
  end.

Record Stats : Type := {
  total_fetched : Z;
  indexed : Z;
  skipped : Z;
  errors : Z
}.

(** [for i, msg in enumerate(messages, 1): try: ... except Exception: error_count += 1] *)
Fixpoint index_messages (svc : Services) (mailbox : Mailbox) (messages : list string)
    (indexed_count skipped_count error_count : Z) : M St (Z * Z * Z) :=
  match messages with
  | [] => ret (indexed_count, skipped_count, error_count)
  | msg :: rest =>
      outcome <~ catch (o <~ process_message svc mailbox msg ;;; ret (Some o))
                   (fun _ => ret None) ;;;
      match outcome with
      | Some Indexed =>
          index_messages svc mailbox rest (indexed_count + 1) skipped_count error_count
      | Some Skipped =>
          index_messages svc mailbox rest indexed_count (skipped_count + 1) error_count
      | None =>
          index_messages svc mailbox rest indexed_count skipped_count (error_count + 1)
      end
  end.

(** [run_indexing], given what [list_messages] returned. *)
Definition run_indexing (svc : Services) (mailbox : Mailbox) (messages : list string)
    : M St Stats :=
  catch
    (counts <~ index_messages svc mailbox messages 0 0 0 ;;;
     now <~ zoom vs_get vs_set (VectorStore.read_clock svc) ;;;
     modify (fun st =>
       {| world := world st;
          self := {| vector_store := vector_store (self st);
                     email_storage := email_storage (self st);
                     last_index_time := Some now |} |}) ;;;
     ret {| total_fetched := Py.len messages;
            indexed := fst (fst counts);
            skipped := snd (fst counts);
            errors := snd counts |})
    (fun e => raise e).

(** *** Two passes over the same mailbox *)

Definition mail (email_id subject body : string) : ParsedEmail :=
  {| id := email_id; thread_id := "t1"; labels := ["INBOX"];
     subject := subject; from := "alice@example.com"; to := "bob@example.com";
     cc := EmptyString; date := "Wed, 01 May 2024 08:00:00 +0000";
     body_text := body; body_html := EmptyString; attachments := [];
     summary := EmptyString; category := EmptyString; stored_at := EmptyString |}.

(** A mail whose body has 1600 characters, and a short one. *)
Definition long_mail : ParsedEmail :=
  mail "m1" "Project Deadline" (string_of_list_ascii (repeat "a"%char 1600)).

Definition short_mail : ParsedEmail :=
  mail "m2" "Lunch" "Lunch at noon?".

Definition demo_mailbox : Mailbox :=
  fun msg_id =>
    if String.eqb msg_id "m1" then Some (Ok long_mail)
    else if String.eqb msg_id "m2" then Some (Ok short_mail)
    else None.

Definition first_pass : result Stats * St :=
  run_indexing demo_services demo_mailbox ["m1"; "m2"] (init fresh_world).

Definition second_pass : result Stats * St :=
  run_indexing demo_services demo_mailbox ["m1"; "m2"] (snd first_pass).

(** The [email_id] metadata of the documents in the index, in order. *)
Definition indexed_email_ids (st : St) : list (option Chroma.MetaVal) :=
  List.map (fun d => Chroma.metadata d !! "email_id")
    (Chroma.current_docs (chroma (world st))).

(** C2 (the code departs from it): a completed pass indexes a mail with a
    1600-character body as two chunks whose [email_id] metadata are
    [m1_chunk_0] and [m1_chunk_1]; the next pass's dedupe probe for
    [email_id = m1] finds nothing, so the mail is counted as indexed again
    and its chunks are stored a second time, while the short mail of the
    same mailbox is found and skipped. *)
Theorem chunked_mail_indexed_again :
  fst first_pass = Ok {| total_fetched := 2; indexed := 2; skipped := 0; errors := 0 |} /\
  indexed_email_ids (snd first_pass) =
    [Some (Chroma.MStr "m1_chunk_0"); Some (Chroma.MStr "m1_chunk_1");
     Some (Chroma.MStr "m2")] /\
  fst (already_indexed "m1" (vs_get (snd first_pass))) = Ok false /\
  fst (already_indexed "m2" (vs_get (snd first_pass))) = Ok true /\
  fst second_pass = Ok {| total_fetched := 2; indexed := 1; skipped := 1; errors := 0 |} /\
  indexed_email_ids (snd second_pass) =
    [Some (Chroma.MStr "m1_chunk_0"); Some (Chroma.MStr "m1_chunk_1");
     Some (Chroma.MStr "m2");
     Some (Chroma.MStr "m1_chunk_0"); Some (Chroma.MStr "m1_chunk_1")].
Proof. vm_compute. repeat split; reflexivity. Qed.

(** *** The counters of a pass *)

Lemma index_messages_counts svc mailbox messages :
  forall indexed_count skipped_count error_count st,
    exists i s e st',
      index_messages svc mailbox messages indexed_count skipped_count error_count st =
        (Ok (i, s, e), st') /\
      indexed_count <= i /\ skipped_count <= s /\ error_count <= e /\
      i + s + e = indexed_count + skipped_count + error_count + Py.len messages.
Proof.
  induction messages as [|msg rest IH]; intros ic sc ec st.
  - exists ic, sc, ec, st. cbn. unfold Py.len. cbn. repeat split; lia.
  - cbn [index_messages]. unfold mbind at 1, catch at 1.
    destruct (mbind (process_message svc mailbox msg) _ st) as [[o|err] st1] eqn:E.
    + assert (Hlen : Py.len (msg :: rest) = 1 + Py.len rest)
        by (unfold Py.len; cbn [length]; lia).
      destruct o as [[|]|].
      * destruct (IH (ic + 1) sc ec st1) as (i & s & e & st' & -> & ?).
        exists i, s, e, st'. split; [done|]. lia.
      * destruct (IH ic (sc + 1) ec st1) as (i & s & e & st' & -> & ?).
        exists i, s, e, st'. split; [done|]. lia.
      * destruct (IH ic sc (ec + 1) st1) as (i & s & e & st' & -> & ?).
        exists i, s, e, st'. split; [done|]. lia.
    + assert (Hlen : Py.len (msg :: rest) = 1 + Py.len rest)
        by (unfold Py.len; cbn [length]; lia).
      cbn [ret].
      destruct (IH ic sc (ec + 1) st1) as (i & s & e & st' & -> & ?).
      exists i, s, e, st'. split; [done|]. lia.
Qed.

(** X11: given the listed messages, [run_indexing] never raises, whatever
    the mailbox, the model and the index do on single messages; every
    listed message is counted exactly once, as indexed, skipped or error:
    the three counters are not negative and add up to [total_fetched],
    the number of listed messages. *)
Theorem run_indexing_accounts (svc : Services) (mailbox : Mailbox)
    (messages : list string) (st : St) :
  exists stats,
    fst (run_indexing svc mailbox messages st) = Ok stats /\
    total_fetched stats = Py.len messages /\
    0 <= indexed stats /\ 0 <= skipped stats /\ 0 <= errors stats /\
    indexed stats + skipped stats + errors stats = total_fetched stats.
Proof.
  destruct (index_messages_counts svc mailbox messages 0 0 0 st)
    as (i & s & e & st' & Hrun & Hi & Hs & He & Hsum).
  unfold run_indexing, catch, mbind at 1. rewrite Hrun.
  unfold mbind, zoom, VectorStore.read_clock, modify, ret. cbn.
  eexists. split; [reflexivity|]. cbn. lia.
Qed.

(** *** Categories *)

(** Some keyword of the category occurs in the text. *)
Definition keyword_hit (text : string) (cat : string * list string) : bool :=
  existsb (fun keyword => Py.contains keyword text) (snd cat).

(** X12: [_categorize_email] returns one of ten category names.  When a
    keyword of some category occurs in the lower-cased subject and body,
    the result is the first such category in the order placement,
    academic, meeting, notification, personal, work, and the Gmail labels
    are not looked at; the labels decide only when no keyword occurs. *)
Theorem categorize_email_keywords_first (subject body : string) (labels : list string) :
  let text := Py.lower (subject ++ " " ++ body)%string in
  let category := _categorize_email subject body labels in
  In category ["placement"; "academic"; "meeting"; "notification"; "personal";
               "work"; "promotional"; "social"; "updates"; "general"]%string /\
  (forall before cat after,
     categories = before ++ cat :: after ->
     forallb (fun c => negb (keyword_hit text c)) before = true ->
     keyword_hit text cat = true ->
     category = fst cat) /\
  (forallb (fun c => negb (keyword_hit text c)) categories = true ->
   category =
     (if bool_decide ("CATEGORY_PROMOTIONS"%string ∈ labels) then "promotional"
      else if bool_decide ("CATEGORY_SOCIAL"%string ∈ labels) then "social"
      else if bool_decide ("CATEGORY_UPDATES"%string ∈ labels) then "updates"
      else "general")%string).
Proof.
  cbv zeta. unfold _categorize_email.
  set (text := Py.lower (subject ++ " " ++ body)%string).
  change (fun cat : string * list string =>
            existsb (fun keyword => Py.contains keyword text) (snd cat))
    with (keyword_hit text).
  split; [|split].
  - destruct (List.find (keyword_hit text) categories) as [cat|] eqn:E.
    + apply find_some in E as [Hin _].
      unfold categories in Hin. cbn in Hin.
      destruct Hin as [<-|[<-|[<-|[<-|[<-|[<-|[]]]]]]]; cbn; tauto.
    + repeat case_bool_decide; cbn; tauto.
  - intros before cat after Hcats Hbefore Hhit. rewrite Hcats.
    clear Hcats. induction before as [|b before IH]; cbn.
    + by rewrite Hhit.
    + cbn in Hbefore. apply andb_true_iff in Hbefore as [Hb Hbefore].
      apply negb_true_iff in Hb. rewrite Hb. by apply IH.
  - intros Hnone.
    assert (List.find (keyword_hit text) categories = None) as ->; [|done].
    induction categories as [|c cs IH]; [done|]. cbn in *.
    apply andb_true_iff in Hnone as [Hc Hnone]. apply negb_true_iff in Hc.
    rewrite Hc. by apply IH.
Qed.

Lemma categorize_email_keywords_first_witness :
  _categorize_email "Zoom link" "see the report" ["CATEGORY_PROMOTIONS"] = "meeting"%string.
Proof.
  exact (proj1 (proj2 (categorize_email_keywords_first "Zoom link" "see the report"
                         ["CATEGORY_PROMOTIONS"%string]))
           (firstn 2 categories) (nth 2 categories (EmptyString, []))
           (skipn 3 categories) eq_refl eq_refl eq_refl).
Defined.

End EmailIndexer.

(** ** src/agents/base_agent.py *)

Module BaseAgent.

Definition Params : Type := list (string * string).

(** What [_get_agent_decision] returns: the parsed JSON of the model's
    answer.  [OtherAction] is a well-formed answer whose action is none of
    the three the loop looks for. *)
Inductive Decision : Type :=
| UseTool (tool_name : string) (parameters : Params) (thought : option string)
| FinalAnswer (content : string)
| Think (thought : string)
| OtherAction.

(** [self.max_iterations = 10] in [__init__] *)
Definition max_iterations : nat := 10.

End BaseAgent.

(** ** src/workflows/execution_planner.py *)

Module ExecutionPlanner.

Inductive TaskStatus : Type :=
| PENDING
| RUNNING
| COMPLETED
| FAILED
| BLOCKED.

#[global] Instance TaskStatus_eq_dec : EqDecision TaskStatus.
Proof. solve_decision. Defined.

(** The [ExecutionTask] dataclass. *)
Record ExecutionTask : Type := {
  task_id : string;
  operation : string;
  parameters : list (string * string);
  dependencies : list string;
  status : TaskStatus;
  result : option string;
  error : option string
}.

(** What invoking a task's operation on the tool executor comes to, in the
    wave with the given number: its result, or the message of what was
    raised (also when the executor has no such method). *)
Definition ToolExecutor : Type := nat -> ExecutionTask -> Effects.result string.

Definition with_status (s : TaskStatus) (r e : option string) (t : ExecutionTask)
    : ExecutionTask :=
  {| task_id := task_id t; operation := operation t; parameters := parameters t;
     dependencies := dependencies t; status := s; result := r; error := e |}.

(** [execute_single_task]: the task is [RUNNING] while its operation runs
    and ends [COMPLETED] or [FAILED]. *)
Definition execute_single_task (tool_executor : ToolExecutor) (wave : nat)
    (task : ExecutionTask) : ExecutionTask :=
  let task := with_status RUNNING (result task) (error task) task in
  match tool_executor wave task with
  | Effects.Ok r => with_status COMPLETED (Some r) (error task) task
  | Effects.Raise e => with_status FAILED (result task) (Some e) task
  end.

(** [task.status == TaskStatus.PENDING and all(dep in completed_tasks for
    dep in task.dependencies)] *)
Definition is_ready (completed_tasks : gset string) (task : ExecutionTask) : bool :=
  bool_decide (status task = PENDING)
  && forallb (fun dep => bool_decide (dep ∈ completed_tasks)) (dependencies task).

(** [_execute_parallel_tasks(ready_tasks, tool_executor)]: the ready tasks
    are objects of [tasks], updated in place. *)
Definition _execute_parallel_tasks (tool_executor : ToolExecutor) (wave : nat)
    (completed_tasks : gset string) (tasks : list ExecutionTask) : list ExecutionTask :=
  List.map (fun t => if is_ready completed_tasks t
                     then execute_single_task tool_executor wave t else t) tasks.

(** [for task in ready_tasks: if task.status == COMPLETED: ...] *)
Definition collect (ready_tasks : list ExecutionTask)
    (acc : gset string * gmap string string) : gset string * gmap string string :=
  fold_left
    (fun acc task =>
       if bool_decide (status task = COMPLETED)
       then ({[task_id task]} ∪ fst acc,
             match result task with
             | Some r => <[task_id task := r]> (snd acc)
             | None => snd acc
             end)
       else acc)
    ready_tasks acc.

(** [for task in pending_tasks: task.status = TaskStatus.BLOCKED] *)
Definition block_pending (tasks : list ExecutionTask) : list ExecutionTask :=
  List.map (fun t => if bool_decide (status t = PENDING)
                     then with_status BLOCKED (result t) (error t) t else t) tasks.

Record LoopState : Type := {
  ls_tasks : list ExecutionTask;
  ls_completed : gset string;
  ls_results : gmap string string;
  (** the waves run, each with its tasks as they came out of it *)
  ls_waves : list (list ExecutionTask)
}.

(** [while len(completed_tasks) < len(tasks): ...]; [wave] numbers the
    waves, [None] means the fuel ran out. *)
Fixpoint wave_loop (fuel : nat) (tool_executor : ToolExecutor) (wave : nat)
    (tasks : list ExecutionTask) (completed_tasks : gset string)
    (results : gmap string string) : option LoopState :=
  if (size completed_tasks <? length tasks)%nat then
    let ready_tasks := List.filter (is_ready completed_tasks) tasks in
    if negb (Py.truthy ready_tasks) then
      Some {| ls_tasks := block_pending tasks; ls_completed := completed_tasks;
              ls_results := results; ls_waves := [] |}
    else
      match fuel with
      | O => None
      | S fuel' =>
          let tasks' := _execute_parallel_tasks tool_executor wave completed_tasks tasks in
          let executed := List.map (execute_single_task tool_executor wave) ready_tasks in
          let '(completed_tasks', results') := collect executed (completed_tasks, results) in
          match wave_loop fuel' tool_executor (S wave) tasks' completed_tasks' results' with
          | Some st =>
              Some {| ls_tasks := ls_tasks st; ls_completed := ls_completed st;
                      ls_results := ls_results st; ls_waves := executed :: ls_waves st |}
          | None => None
          end
      end
  else
    Some {| ls_tasks := tasks; ls_completed := completed_tasks;
            ls_results := results; ls_waves := [] |}.

(** The dictionary [execute_plan] returns; [final_tasks] are the task
    objects as the run left them, of which the dictionary lists id,
    operation, status and error. *)
Record PlanResult : Type := {
  success : bool;
  n_completed : nat;
  total_tasks : nat;
  task_results : gmap string string;
  final_tasks : list ExecutionTask;
  wave_log : list (list ExecutionTask)
}.

(** [execute_plan] *)
Definition execute_plan (fuel : nat) (tool_executor : ToolExecutor)
    (tasks : list ExecutionTask) : option PlanResult :=
  match wave_loop fuel tool_executor 1 tasks ∅ ∅ with
  | Some st =>
      Some {| success := bool_decide (size (ls_completed st) = length tasks);
              n_completed := size (ls_completed st);
              total_tasks := length tasks;
              task_results := ls_results st;
              final_tasks := ls_tasks st;
              wave_log := ls_waves st |}
  | None => None
  end.

(** The ids of the tasks a wave left [COMPLETED]. *)
Definition completed_in (wave : list ExecutionTask) : gset string :=
  list_to_set (List.map task_id (List.filter (fun t => bool_decide (status t = COMPLETED)) wave)).

(** Every task of every wave has all its dependencies among the ids
    completed before that wave. *)
Fixpoint waves_respect_dependencies (done_before : gset string)
    (waves : list (list ExecutionTask)) : Prop :=
  match waves with
  | [] => True
  | wave :: rest =>
      (forall t d, In t wave -> In d (dependencies t) -> d ∈ done_before) /\
      waves_respect_dependencies (done_before ∪ completed_in wave) rest
  end.

(** [t] depends, directly or through other tasks, on a task that failed. *)
Inductive depends_on_failed (final : list ExecutionTask) : ExecutionTask -> Prop :=
| dof_direct t f :
    In t final -> In f final -> In (task_id f) (dependencies t) ->
    status f = FAILED -> depends_on_failed final t
| dof_through t u :
    In t final -> In u final -> In (task_id u) (dependencies t) ->
    depends_on_failed final u -> depends_on_failed final t.

Definition pending_count (tasks : list ExecutionTask) : nat :=
  length (List.filter (fun t => bool_decide (status t = PENDING)) tasks).

(** What holds of the task list and the set of completed ids between two
    waves. *)
Definition Inv (tasks : list ExecutionTask) (completed : gset string) : Prop :=
  List.NoDup (List.map task_id tasks) /\
  (forall t, In t tasks ->
     status t = PENDING \/ status t = COMPLETED \/ status t = FAILED) /\
  (forall i, i ∈ completed <->
     exists t, In t tasks /\ task_id t = i /\ status t = COMPLETED) /\
  (forall t d, In t tasks -> status t <> PENDING ->
     In d (dependencies t) -> d ∈ completed).

(** What the loop leaves behind, started from [tasks] and [completed]. *)
Definition Post (exec : ToolExecutor) (wave : nat) (tasks : list ExecutionTask)
    (completed : gset string) (st : LoopState) : Prop :=
  List.map task_id (ls_tasks st) = List.map task_id tasks /\
  List.map dependencies (ls_tasks st) = List.map dependencies tasks /\
  (forall t, In t tasks -> status t <> PENDING -> In t (ls_tasks st)) /\
  (forall t, In t (ls_tasks st) ->
     status t = COMPLETED \/ status t = FAILED \/ status t = BLOCKED) /\
  (forall i, i ∈ ls_completed st <->
     exists t, In t (ls_tasks st) /\ task_id t = i /\ status t = COMPLETED) /\
  (forall t d, In t (ls_tasks st) -> status t = COMPLETED \/ status t = FAILED ->
     In d (dependencies t) -> d ∈ ls_completed st) /\
  waves_respect_dependencies completed (ls_waves st) /\
  (forall w t, In w (ls_waves st) -> In t w ->
     In t (ls_tasks st) /\ (status t = COMPLETED \/ status t = FAILED)) /\
  ((size completed < length tasks)%nat ->
   List.filter (is_ready completed) tasks <> [] ->
   exists rest,
     ls_waves st =
       List.map (execute_single_task exec wave) (List.filter (is_ready completed) tasks)
       :: rest).

(** A plan of three tasks: C waits for A and B. *)
Definition task (i op : string) (deps : list string) : ExecutionTask :=
  {| task_id := i; operation := op; parameters := []; dependencies := deps;
     status := PENDING; result := None; error := None |}.

Definition abc_plan : list ExecutionTask :=
  [task "A" "search_emails" []; task "B" "search_calendar" [];
   task "C" "extract_information" ["A"; "B"]].

(** An executor on which A's operation raises. *)
Definition a_fails : ToolExecutor :=
  fun _ t => if String.eqb (task_id t) "A" then Effects.Raise "boom"
             else Effects.Ok "done".

(** *** Waves *)

Lemma execute_single_task_id exec w t :
  task_id (execute_single_task exec w t) = task_id t /\
  dependencies (execute_single_task exec w t) = dependencies t /\
  (status (execute_single_task exec w t) = COMPLETED \/
   status (execute_single_task exec w t) = FAILED).
Proof.
  unfold execute_single_task. destruct (exec w _); simpl; auto.
Qed.

Lemma collect_completed executed acc :
  fst (collect executed acc) = fst acc ∪ completed_in executed.
Proof.
  unfold collect, completed_in. revert acc.
  induction executed as [|t l IH]; intros acc; simpl.
  - set_solver.
  - rewrite IH. destruct (bool_decide (status t = COMPLETED)); simpl; set_solver.
Qed.

Lemma elem_of_completed_in i wave :
  i ∈ completed_in wave <-> exists t, In t wave /\ task_id t = i /\ status t = COMPLETED.
Proof.
  unfold completed_in. rewrite elem_of_list_to_set, list_elem_of_In, in_map_iff.
  split.
  - intros (t & Hid & Hin). apply filter_In in Hin as [Hin Hs].
    apply bool_decide_eq_true in Hs. eauto.
  - intros (t & Hin & Hid & Hs). exists t. split; [done|].
    apply filter_In. split; [done|]. by apply bool_decide_eq_true.
Qed.

Lemma NoDup_task_id_inj (l : list ExecutionTask) t u :
  List.NoDup (List.map task_id l) -> In t l -> In u l -> task_id t = task_id u -> t = u.
Proof.
  induction l as [|x l IH]; simpl; [done|].
  intros Hnd [->|Ht] [->|Hu] Hid; inversion Hnd as [|? ? Hnotin Hnd']; subst.
  - done.
  - exfalso. apply Hnotin. rewrite Hid. by apply in_map.
  - exfalso. apply Hnotin. rewrite <- Hid. by apply in_map.
  - by apply IH.
Qed.

Lemma is_ready_true completed t :
  is_ready completed t = true <->
  status t = PENDING /\ forall d, In d (dependencies t) -> d ∈ completed.
Proof.
  unfold is_ready. rewrite andb_true_iff, bool_decide_eq_true, forallb_forall.
  split; intros [Hs Hd]; (split; [done|]); intros d Hin; specialize (Hd d Hin).
  - by apply bool_decide_eq_true in Hd.
  - by apply bool_decide_eq_true.
Qed.

Lemma wave_ids exec w completed tasks :
  List.map task_id (_execute_parallel_tasks exec w completed tasks) = List.map task_id tasks /\
  List.map dependencies (_execute_parallel_tasks exec w completed tasks) =
    List.map dependencies tasks.
Proof.
  unfold _execute_parallel_tasks. rewrite !List.map_map.
  split; apply map_ext; intros t; destruct (is_ready completed t); try done;
    apply execute_single_task_id.
Qed.

Lemma in_wave exec w completed tasks t' :
  In t' (_execute_parallel_tasks exec w completed tasks) <->
  (exists t, In t tasks /\ is_ready completed t = true /\
             t' = execute_single_task exec w t) \/
  (In t' tasks /\ is_ready completed t' = false).
Proof.
  unfold _execute_parallel_tasks. rewrite in_map_iff. split.
  - intros (t & Heq & Hin). destruct (is_ready completed t) eqn:Hr; subst; eauto.
  - intros [(t & Hin & Hr & ->)|[Hin Hr]].
    + exists t. by rewrite Hr.
    + exists t'. by rewrite Hr.
Qed.

Lemma in_executed exec w completed tasks t' :
  In t' (List.map (execute_single_task exec w) (List.filter (is_ready completed) tasks)) <->
  exists t, In t tasks /\ is_ready completed t = true /\ t' = execute_single_task exec w t.
Proof.
  rewrite in_map_iff. split.
  - intros (t & <- & Hin). apply filter_In in Hin as [Hin Hr]. eauto.
  - intros (t & Hin & Hr & ->). exists t. split; [done|]. by apply filter_In.
Qed.

Lemma wave_preserves_inv exec w tasks completed :
  Inv tasks completed ->
  Inv (_execute_parallel_tasks exec w completed tasks)
      (completed ∪ completed_in
         (List.map (execute_single_task exec w) (List.filter (is_ready completed) tasks))).
Proof.
  intros (Hnd & Hst & Hcomp & Hdeps).
  split; [by rewrite (proj1 (wave_ids exec w completed tasks))|].
  split; [|split].
  - intros t' Hin. apply in_wave in Hin as [(t & Hin & Hr & ->)|[Hin Hr]].
    + destruct (execute_single_task_id exec w t) as (_ & _ & [H|H]); auto.
    + auto.
  - intros i. rewrite elem_of_union, elem_of_completed_in, Hcomp. split.
    + intros [(t & Hin & Hid & Hs)|(t' & Hin & Hid & Hs)].
      * exists t. split; [|done]. apply in_wave. right. split; [done|].
        destruct (is_ready completed t) eqn:Hr; [|done].
        apply is_ready_true in Hr as [Hp _]. congruence.
      * exists t'. split; [|done]. apply in_wave. left. by apply in_executed.
    + intros (t' & Hin & Hid & Hs).
      apply in_wave in Hin as [Hex|[Hin Hr]].
      * right. exists t'. split; [|done]. by apply in_executed.
      * left. eauto.
  - intros t' d Hin Hs Hd. apply elem_of_union.
    apply in_wave in Hin as [(t & Hin & Hr & ->)|[Hin Hr]].
    + left. apply is_ready_true in Hr as [_ Hall]. apply Hall.
      by rewrite (proj1 (proj2 (execute_single_task_id exec w t))) in Hd.
    + left. eauto.
Qed.

Lemma pending_decreases exec w tasks completed :
  List.filter (is_ready completed) tasks <> [] ->
  (pending_count (_execute_parallel_tasks exec w completed tasks) < pending_count tasks)%nat.
Proof.
  unfold pending_count, _execute_parallel_tasks.
  induction tasks as [|t tasks IH]; simpl; [done|].
  assert (Hle : (length (List.filter (fun t => bool_decide (status t = PENDING))
                   (List.map (fun t => if is_ready completed t
                                       then execute_single_task exec w t else t) tasks))
                 <= length (List.filter (fun t => bool_decide (status t = PENDING)) tasks))%nat).
  { clear. induction tasks as [|t tasks IH]; simpl; [lia|].
    destruct (is_ready completed t) eqn:Hr.
    - destruct (execute_single_task_id exec w t) as (_ & _ & [H|H]);
        rewrite (bool_decide_eq_false_2 _) by congruence;
        destruct (bool_decide (status t = PENDING)); simpl; lia.
    - destruct (bool_decide (status t = PENDING)); simpl; lia. }
  destruct (is_ready completed t) eqn:Hr.
  - intros _. apply is_ready_true in Hr as [Hp _].
    rewrite (bool_decide_eq_true_2 _ Hp). simpl.
    destruct (execute_single_task_id exec w t) as (_ & _ & [H|H]);
      rewrite (bool_decide_eq_false_2 _) by congruence; lia.
  - intros Hne. specialize (IH Hne).
    destruct (bool_decide (status t = PENDING)); simpl; lia.
Qed.

Lemma NoDup_map_filter {A B} (f : A -> B) (P : A -> bool) (l : list A) :
  List.NoDup (List.map f l) -> List.NoDup (List.map f (List.filter P l)).
Proof.
  induction l as [|x l IH]; simpl; [done|].
  intros Hnd. inversion Hnd as [|? ? Hnotin Hnd']; subst.
  destruct (P x); simpl; [|by apply IH].
  constructor; [|by apply IH].
  intros Hin. apply Hnotin. apply in_map_iff in Hin as (y & Hy & Hin).
  apply filter_In in Hin as [Hin _]. rewrite <- Hy. by apply in_map.
Qed.

Lemma size_completed tasks (completed : gset string) :
  List.NoDup (List.map task_id tasks) ->
  (forall i, i ∈ completed <->
     exists t, In t tasks /\ task_id t = i /\ status t = COMPLETED) ->
  size completed =
  length (List.filter (fun t => bool_decide (status t = COMPLETED)) tasks).
Proof.
  intros Hnd Hcomp.
  assert (Heq : completed = completed_in tasks).
  { apply set_eq. intros i. by rewrite Hcomp, elem_of_completed_in. }
  rewrite Heq. unfold completed_in.
  rewrite size_list_to_set; [by rewrite length_map|].
  apply NoDup_ListNoDup. by apply NoDup_map_filter.
Qed.

Lemma filter_length_all {A} (P : A -> bool) (l : list A) :
  length (List.filter P l) = length l <-> forall x, In x l -> P x = true.
Proof.
  induction l as [|x l IH]; simpl; [split; [intros _ ? []|done]|].
  pose proof (filter_length_le P l) as Hle.
  destruct (P x) eqn:Hx; simpl.
  - split.
    + intros [= H] y [<-|Hy]; [done|]. by apply IH.
    + intros H. f_equal. apply IH. auto.
  - split; [lia|]. intros H. specialize (H x (or_introl eq_refl)). congruence.
Qed.

Lemma in_block_pending tasks t' :
  In t' (block_pending tasks) <->
  (exists t, In t tasks /\ status t = PENDING /\
             t' = with_status BLOCKED (result t) (error t) t) \/
  (In t' tasks /\ status t' <> PENDING).
Proof.
  unfold block_pending. rewrite in_map_iff. split.
  - intros (t & Heq & Hin). destruct (bool_decide (status t = PENDING)) eqn:Hp; subst.
    + apply bool_decide_eq_true in Hp. eauto.
    + apply bool_decide_eq_false in Hp. eauto.
  - intros [(t & Hin & Hp & ->)|[Hin Hp]].
    + exists t. by rewrite bool_decide_eq_true_2.
    + exists t'. by rewrite bool_decide_eq_false_2.
Qed.

Lemma post_blocked exec wave tasks completed results :
  Inv tasks completed ->
  List.filter (is_ready completed) tasks = [] ->
  Post exec wave tasks completed
    {| ls_tasks := block_pending tasks; ls_completed := completed;
       ls_results := results; ls_waves := [] |}.
Proof.
  intros (Hnd & Hst & Hcomp & Hdeps) Hready. unfold Post; simpl.
  assert (Hids : List.map task_id (block_pending tasks) = List.map task_id tasks /\
                 List.map dependencies (block_pending tasks) =
                   List.map dependencies tasks).
  { unfold block_pending. rewrite !List.map_map.
    split; apply map_ext; intros t; by destruct (bool_decide _). }
  split; [apply Hids|]. split; [apply Hids|].
  split; [intros t Hin Hp; apply in_block_pending; auto|].
  split.
  { intros t' Hin. apply in_block_pending in Hin as [(t & Hin & Hp & ->)|[Hin Hp]].
    - simpl. auto.
    - destruct (Hst t' Hin) as [?|[?|?]]; auto. done. }
  split.
  { intros i. rewrite Hcomp. split.
    - intros (t & Hin & Hid & Hs). exists t. split; [|done].
      apply in_block_pending. right. split; [done|congruence].
    - intros (t' & Hin & Hid & Hs).
      apply in_block_pending in Hin as [(t & Hin & Hp & ->)|[Hin Hp]].
      + simpl in Hs. discriminate.
      + eauto. }
  split.
  { intros t' d Hin Hs Hd.
    apply in_block_pending in Hin as [(t & Hin & Hp & ->)|[Hin Hp]].
    - simpl in Hs. destruct Hs; discriminate.
    - eauto. }
  split; [done|]. split; [intros ? ? []|]. intros _ Hne. done.
Qed.

Lemma post_all_completed exec wave tasks completed results :
  Inv tasks completed ->
  (length tasks <= size completed)%nat ->
  Post exec wave tasks completed
    {| ls_tasks := tasks; ls_completed := completed;
       ls_results := results; ls_waves := [] |}.
Proof.
  intros (Hnd & Hst & Hcomp & Hdeps) Hsize.
  rewrite (size_completed tasks completed Hnd Hcomp) in Hsize.
  pose proof (filter_length_le (fun t => bool_decide (status t = COMPLETED)) tasks).
  assert (Hall : forall t, In t tasks -> status t = COMPLETED).
  { intros t Hin.
    apply (proj1 (filter_length_all (fun t => bool_decide (status t = COMPLETED)) tasks)
             ltac:(lia)) in Hin.
    by apply bool_decide_eq_true in Hin. }
  unfold Post; simpl.
  split; [done|]. split; [done|]. split; [done|].
  split; [intros t Hin; left; auto|].
  split; [apply Hcomp|].
  split; [intros t d Hin _ Hd; apply (Hdeps t d Hin); [by rewrite (Hall t Hin)|done]|].
  split; [done|]. split; [intros ? ? []|].
  intros Hlt. rewrite (size_completed tasks completed Hnd Hcomp) in Hlt. lia.
Qed.

Lemma ready_is_pending completed tasks :
  List.filter (is_ready completed) tasks <> [] -> (0 < pending_count tasks)%nat.
Proof.
  unfold pending_count. induction tasks as [|t tasks IH]; simpl; [done|].
  destruct (is_ready completed t) eqn:Hr.
  - intros _. apply is_ready_true in Hr as [Hp _].
    rewrite (bool_decide_eq_true_2 _ Hp). simpl. lia.
  - intros Hne. specialize (IH Hne). destruct (bool_decide _); simpl; lia.
Qed.

Lemma wave_loop_post exec :
  forall fuel wave tasks completed results,
    Inv tasks completed ->
    (pending_count tasks <= fuel)%nat ->
    exists st,
      wave_loop fuel exec wave tasks completed results = Some st /\
      Post exec wave tasks completed st.
Proof.
  induction fuel as [|fuel IH]; intros wave tasks completed results HInv Hfuel; simpl;
    (destruct (Nat.ltb_spec (size completed) (length tasks)) as [Hsize|Hsize];
     [|eexists; split; [reflexivity|by apply post_all_completed]]);
    (destruct (List.filter (is_ready completed) tasks) as [|r ready] eqn:Hready;
     cbn [Py.truthy negb];
     [eexists; split; [reflexivity|by apply post_blocked]|]).
  - pose proof (ready_is_pending completed tasks ltac:(by rewrite Hready)). lia.
  - rewrite <- Hready.
    pose proof (wave_preserves_inv exec wave tasks completed HInv) as HInv'.
    pose proof (pending_decreases exec wave tasks completed
                  ltac:(by rewrite Hready)) as Hdec.
    set (tasks' := _execute_parallel_tasks exec wave completed tasks) in *.
    set (executed := List.map (execute_single_task exec wave)
                       (List.filter (is_ready completed) tasks)) in *.
    pose proof (collect_completed executed (completed, results)) as Hcol.
    destruct (collect executed (completed, results)) as [completed' results'].
    simpl in Hcol. subst completed'.
    destruct (IH (S wave) tasks' (completed ∪ completed_in executed) results' HInv'
                ltac:(lia)) as (st & Hrun & Hpost).
    rewrite Hrun. eexists; split; [reflexivity|].
    destruct Hpost as (Hid & Hdp & Hkeep & Hfinal & Hcomp' & Hdeps' & Hresp & Hlog & _).
    destruct HInv as (Hnd & Hst & Hcomp & Hdeps).
    unfold Post; simpl.
    split; [rewrite Hid; apply wave_ids|].
    split; [rewrite Hdp; apply wave_ids|].
    split.
    { intros t Hin Hp. apply Hkeep; [|done]. apply in_wave. right. split; [done|].
      destruct (is_ready completed t) eqn:Hr; [|done].
      apply is_ready_true in Hr as [? _]. done. }
    split; [done|]. split; [done|]. split; [done|].
    split.
    { split; [|done]. intros t' d Hin Hd.
      apply in_executed in Hin as (t & Hin & Hr & ->).
      apply is_ready_true in Hr as [_ Hall]. apply Hall.
      by rewrite (proj1 (proj2 (execute_single_task_id exec wave t))) in Hd. }
    split.
    { intros w t' [<-|Hw] Hin; [|by apply (Hlog w)].
      apply in_executed in Hin as (t & Hin & Hr & ->).
      split; [|apply execute_single_task_id].
      apply Hkeep.
      - apply in_wave. left. eauto.
      - destruct (execute_single_task_id exec wave t) as (_ & _ & [H|H]); congruence. }
    intros _ _. eauto.
Qed.

Lemma wave_loop_fuel_mono exec :
  forall fuel fuel' wave tasks completed results st,
    (fuel <= fuel')%nat ->
    wave_loop fuel exec wave tasks completed results = Some st ->
    wave_loop fuel' exec wave tasks completed results = Some st.
Proof.
  induction fuel as [|fuel IH]; intros fuel' wave tasks completed results st Hle;
    destruct fuel' as [|fuel']; try lia; simpl;
    destruct (size completed <? length tasks)%nat; try done;
    destruct (negb (Py.truthy (List.filter (is_ready completed) tasks))); try done.
  destruct (collect _ _) as [completed' results'].
  destruct (wave_loop fuel exec (S wave) _ completed' results') as [st'|] eqn:E; [|done].
  rewrite (IH fuel' _ _ _ _ st' ltac:(lia) E). done.
Qed.

(** C5: for a plan whose task ids are distinct and whose tasks all start
    [PENDING], [execute_plan] returns (whatever fuel covers the number of
    tasks).  Every task of every wave has all its dependencies among the ids
    completed in earlier waves, and the tasks without dependencies all run in
    the first wave.  No task is dropped: each ends completed, failed or
    blocked; a task that depends, directly or through other tasks, on a
    failed one ends [BLOCKED] and was part of no wave.  [success] is true
    exactly when every task ended [COMPLETED]. *)
Theorem execute_plan_schedules (tool_executor : ToolExecutor)
    (tasks : list ExecutionTask) :
  List.NoDup (List.map task_id tasks) ->
  (forall t, In t tasks -> status t = PENDING) ->
  exists r,
    (forall fuel, (length tasks <= fuel)%nat ->
       execute_plan fuel tool_executor tasks = Some r) /\
    List.map task_id (final_tasks r) = List.map task_id tasks /\
    List.map dependencies (final_tasks r) = List.map dependencies tasks /\
    waves_respect_dependencies ∅ (wave_log r) /\
    (forall t, In t tasks -> dependencies t = [] ->
       exists wave rest,
         wave_log r = wave :: rest /\ In (task_id t) (List.map task_id wave)) /\
    (forall t, In t (final_tasks r) ->
       status t = COMPLETED \/ status t = FAILED \/ status t = BLOCKED) /\
    (forall t, depends_on_failed (final_tasks r) t ->
       status t = BLOCKED /\
       forall wave u, In wave (wave_log r) -> In u wave -> task_id u <> task_id t) /\
    (success r = true <-> forall t, In t (final_tasks r) -> status t = COMPLETED).
Proof.
  intros Hnd Hpending.
  assert (HInv : Inv tasks ∅).
  { split; [done|]. split; [intros t Hin; left; auto|]. split.
    - intros i. split; [set_solver|]. intros (t & Hin & _ & Hs).
      rewrite (Hpending t Hin) in Hs. discriminate.
    - intros t d Hin Hs. by apply Hpending in Hin. }
  destruct (wave_loop_post tool_executor (pending_count tasks) 1 tasks ∅ ∅ HInv
              ltac:(lia)) as (st & Hrun & Hpost).
  destruct Hpost as (Hid & Hdp & Hkeep & Hfinal & Hcomp & Hdeps & Hresp & Hlog & Hfirst).
  assert (Hnd' : List.NoDup (List.map task_id (ls_tasks st))) by (by rewrite Hid).
  exists {| success := bool_decide (size (ls_completed st) = length tasks);
            n_completed := size (ls_completed st);
            total_tasks := length tasks;
            task_results := ls_results st;
            final_tasks := ls_tasks st;
            wave_log := ls_waves st |}.
  simpl. split.
  { intros fuel Hfuel. unfold execute_plan.
    rewrite (wave_loop_fuel_mono tool_executor (pending_count tasks) fuel _ _ _ _ st); [done| |done].
    unfold pending_count.
    pose proof (filter_length_le (fun t => bool_decide (status t = PENDING)) tasks). lia. }
  split; [done|]. split; [done|]. split; [done|]. split.
  { intros t Hin Hnodeps.
    assert (Hr : is_ready ∅ t = true).
    { apply is_ready_true. split; [auto|]. rewrite Hnodeps. intros d []. }
    destruct Hfirst as [rest Hrest].
    - rewrite size_empty. destruct tasks; [done|simpl; lia].
    - intros Hempty.
      assert (Hin' : In t (List.filter (is_ready ∅) tasks)) by (by apply filter_In).
      rewrite Hempty in Hin'. done.
    - eexists _, rest. split; [exact Hrest|].
      apply in_map_iff. exists (execute_single_task tool_executor 1 t).
      split; [apply execute_single_task_id|]. apply in_map. by apply filter_In. }
  split; [done|]. split.
  { assert (Hblocked : forall t, depends_on_failed (ls_tasks st) t -> status t = BLOCKED).
    { induction 1 as [t f Hin Hf Hdep Hfailed|t u Hin Hu Hdep _ IHu].
      - destruct (Hfinal t Hin) as [Hs|[Hs|Hs]]; [| |done];
          (assert (Hd : task_id f ∈ ls_completed st) by (apply (Hdeps t); auto);
           apply Hcomp in Hd as (t' & Hin' & Hid' & Hs');
           rewrite (NoDup_task_id_inj _ t' f Hnd' Hin' Hf Hid') in Hs'; congruence).
      - destruct (Hfinal t Hin) as [Hs|[Hs|Hs]]; [| |done];
          (assert (Hd : task_id u ∈ ls_completed st) by (apply (Hdeps t); auto);
           apply Hcomp in Hd as (t' & Hin' & Hid' & Hs');
           rewrite (NoDup_task_id_inj _ t' u Hnd' Hin' Hu Hid') in Hs'; congruence). }
    intros t Hdof. split; [by apply Hblocked|].
    intros wave u Hw Hu Hid'.
    destruct (Hlog wave u Hw Hu) as [Hin Hs].
    assert (Hint : In t (ls_tasks st)) by (by destruct Hdof).
    rewrite (NoDup_task_id_inj _ u t Hnd' Hin Hint Hid') in Hs.
    rewrite (Hblocked t Hdof) in Hs. destruct Hs; discriminate. }
  rewrite bool_decide_eq_true.
  rewrite (size_completed (ls_tasks st) (ls_completed st) Hnd' Hcomp).
  replace (length tasks) with (length (ls_tasks st))
    by (by rewrite <- (length_map task_id), Hid, length_map).
  rewrite filter_length_all. split; intros H t Hin; specialize (H t Hin).
  - by apply bool_decide_eq_true in H.
  - by apply bool_decide_eq_true.
Qed.

Lemma execute_plan_schedules_witness :
  exists r,
    execute_plan 3 a_fails abc_plan = Some r /\
    List.map status (final_tasks r) = [FAILED; COMPLETED; BLOCKED] /\
    List.map (List.map task_id) (wave_log r) = [["A"; "B"]] /\
    success r = false.
Proof.
  destruct (execute_plan_schedules a_fails abc_plan) as (r & Hrun & _).
  - apply NoDup_ListNoDup. simpl. compute_done.
  - intros t Hin. simpl in Hin. destruct Hin as [<-|[<-|[<-|[]]]]; reflexivity.
  - exists r. split; [apply Hrun; simpl; lia|].
    specialize (Hrun 3%nat ltac:(simpl; lia)). vm_compute in Hrun.
    injection Hrun as <-. repeat split.
Defined.

(** *** The results and the counters of a run *)

(** [results] holds, under its id, the result of each completed task and
    nothing else. *)
Definition results_of (tasks : list ExecutionTask) (results : gmap string string) : Prop :=
  forall i v,
    results !! i = Some v <->
    exists t, In t tasks /\ task_id t = i /\ status t = COMPLETED /\ result t = Some v.

Lemma collect_results executed :
  List.NoDup (List.map task_id executed) ->
  forall acc i v,
    snd (collect executed acc) !! i = Some v <->
    (exists t, In t executed /\ task_id t = i /\ status t = COMPLETED /\
               result t = Some v) \/
    (snd acc !! i = Some v /\
     ~ exists t, In t executed /\ task_id t = i /\ status t = COMPLETED /\
                 is_Some (result t)).
Proof.
  unfold collect. induction executed as [|t l IH]; intros Hnd acc i v.
  - cbn. split; [intros H; right; split; [done|]; by intros (? & [] & _)|].
    intros [(? & [] & _)|[H _]]; done.
  - inversion Hnd as [|? ? Hnotin Hnd']; subst. cbn [fold_left].
    rewrite (IH Hnd'). clear IH.
    assert (Hfresh : forall u, In u l -> task_id u <> task_id t).
    { intros u Hu Heq. apply Hnotin. rewrite <- Heq. by apply in_map. }
    split.
    + intros [(u & Hu & Hid & Hs & Hr)|[Hacc Hno]].
      * left. exists u. split; [by right|done].
      * destruct (bool_decide (status t = COMPLETED)) eqn:Hc; cbn [snd] in Hacc.
        -- apply bool_decide_eq_true in Hc.
           destruct (result t) as [r|] eqn:Hres.
           ++ destruct (decide (task_id t = i)) as [Heq|Hne].
              ** rewrite Heq, lookup_insert_eq in Hacc. injection Hacc as ->.
                 left. exists t. split; [by left|done].
              ** rewrite lookup_insert_ne in Hacc by done. right. split; [done|].
                 intros (u & [<-|Hu] & Hid & Hrest); [done|]. apply Hno. eauto.
           ++ right. split; [done|].
              intros (u & [<-|Hu] & Hid & Hs & Hr).
              ** rewrite Hres in Hr. by destruct Hr.
              ** apply Hno. eauto.
        -- apply bool_decide_eq_false in Hc. right. split; [done|].
           intros (u & [<-|Hu] & Hid & Hs & Hr); [done|]. apply Hno. eauto.
    + intros [(u & [<-|Hu] & Hid & Hs & Hr)|[Hacc Hno]].
      * right. rewrite (bool_decide_eq_true_2 _ Hs), Hr. cbn [snd].
        rewrite Hid, lookup_insert_eq. split; [done|].
        intros (u' & Hu' & Hid' & _). apply (Hfresh u' Hu'). congruence.
      * left. eauto.
      * right. split.
        -- destruct (bool_decide (status t = COMPLETED)) eqn:Hc; cbn [snd]; [|done].
           apply bool_decide_eq_true in Hc.
           destruct (result t) as [r|] eqn:Hres; [|done].
           rewrite lookup_insert_ne; [done|]. intros Heq. apply Hno.
           exists t. split; [by left|]. rewrite Hres. eauto.
        -- intros (u & Hu & Hrest). apply Hno. exists u. split; [by right|done].
Qed.

Lemma block_pending_results tasks results :
  results_of tasks results -> results_of (block_pending tasks) results.
Proof.
  intros HR i v. rewrite (HR i v). split.
  - intros (t & Hin & Hid & Hs & Hr). exists t. split; [|done].
    apply in_block_pending. right. split; [done|congruence].
  - intros (t' & Hin & Hid & Hs & Hr).
    apply in_block_pending in Hin as [(t & Hin & Hp & ->)|[Hin Hp]]; [done|eauto].
Qed.

Lemma wave_results exec w tasks completed results :
  Inv tasks completed ->
  results_of tasks results ->
  results_of (_execute_parallel_tasks exec w completed tasks)
    (snd (collect (List.map (execute_single_task exec w)
                     (List.filter (is_ready completed) tasks))
            (completed, results))).
Proof.
  intros (Hnd & Hst & Hcomp & Hdeps) HR i v.
  rewrite collect_results.
  2:{ rewrite List.map_map.
      rewrite (map_ext _ task_id) by (intros; apply execute_single_task_id).
      by apply NoDup_map_filter. }
  cbn [snd]. split.
  - intros [(t' & Hin & Hrest)|[Hres Hno]].
    + exists t'. split; [|done]. apply in_wave.
      apply in_executed in Hin as (t & Hin & Hr & ->). left. eauto.
    + apply HR in Hres as (t & Hin & Hid & Hs & Hr). exists t. split; [|done].
      apply in_wave. right. split; [done|].
      destruct (is_ready completed t) eqn:Hready; [|done].
      apply is_ready_true in Hready as [Hp _]. congruence.
  - intros (t' & Hin & Hid & Hs & Hr).
    apply in_wave in Hin as [(t & Hin & Hready & ->)|[Hin Hready]].
    + left. exists (execute_single_task exec w t). split; [|done].
      apply in_executed. eauto.
    + right. split; [apply HR; eauto|].
      intros (u' & Hu' & Hid' & _).
      apply in_executed in Hu' as (u & Hu & Hur & ->).
      rewrite (proj1 (execute_single_task_id exec w u)) in Hid'.
      assert (u = t') by (apply (NoDup_task_id_inj tasks); congruence). subst u.
      congruence.
Qed.

Lemma wave_loop_results exec :
  forall fuel wave tasks completed results st,
    Inv tasks completed ->
    results_of tasks results ->
    wave_loop fuel exec wave tasks completed results = Some st ->
    results_of (ls_tasks st) (ls_results st).
Proof.
  induction fuel as [|fuel IH]; intros wave tasks completed results st HInv HR; simpl;
    (destruct (size completed <? length tasks)%nat; [|by intros [= <-]]);
    (destruct (List.filter (is_ready completed) tasks) as [|r ready] eqn:Hready;
     cbn [Py.truthy negb];
     [intros [= <-]; by apply block_pending_results|]); [done|].
  rewrite <- Hready.
  pose proof (wave_preserves_inv exec wave tasks completed HInv) as HInv'.
  pose proof (wave_results exec wave tasks completed results HInv HR) as HR'.
  pose proof (collect_completed
                (List.map (execute_single_task exec wave)
                   (List.filter (is_ready completed) tasks)) (completed, results)) as Hcol.
  destruct (collect _ (completed, results)) as [completed' results'].
  cbn [fst snd] in *. subst completed'.
  destruct (wave_loop fuel exec (S wave) _ _ results') as [st'|] eqn:Hrun; [|done].
  intros [= <-]. cbn. by apply (IH _ _ _ _ _ HInv' HR' Hrun).
Qed.

(** A finished task was part of a wave, unless it was finished before the
    loop started. *)
Lemma wave_loop_ran exec :
  forall fuel wave tasks completed results st,
    wave_loop fuel exec wave tasks completed results = Some st ->
    forall t, In t (ls_tasks st) ->
      status t = COMPLETED \/ status t = FAILED ->
      In t tasks \/ exists w, In w (ls_waves st) /\ In t w.
Proof.
  induction fuel as [|fuel IH]; intros wave tasks completed results st; simpl;
    (destruct (size completed <? length tasks)%nat; [|intros [= <-]; cbn; by left]);
    (destruct (List.filter (is_ready completed) tasks) as [|r ready] eqn:Hready;
     cbn [Py.truthy negb];
     [intros [= <-] t Hin Hs; cbn in *; left;
      apply in_block_pending in Hin as [(u & _ & _ & ->)|[? _]];
      [by destruct Hs|done]|]); [done|].
  rewrite <- Hready.
  destruct (collect _ (completed, results)) as [completed' results'].
  destruct (wave_loop fuel exec (S wave) _ _ results') as [st'|] eqn:Hrun; [|done].
  intros [= <-] t Hin Hs. cbn in *.
  destruct (IH _ _ _ _ _ Hrun t Hin Hs) as [Hin'|(w & Hw & Htw)].
  - apply in_wave in Hin' as [(u & Hu & Hur & ->)|[Hin' _]]; [|by left].
    right. eexists. split; [by left|]. apply in_executed. eauto.
  - right. eauto.
Qed.

(** The number of tasks with the given status. *)
Definition count_status (s : TaskStatus) (tasks : list ExecutionTask) : nat :=
  length (List.filter (fun t => bool_decide (status t = s)) tasks).

Lemma count_three tasks :
  (forall t, In t tasks ->
     status t = COMPLETED \/ status t = FAILED \/ status t = BLOCKED) ->
  (count_status COMPLETED tasks + count_status FAILED tasks
   + count_status BLOCKED tasks = length tasks)%nat.
Proof.
  unfold count_status. induction tasks as [|t l IH]; intros H; [done|].
  specialize (IH (fun u Hu => H u (or_intror Hu))).
  cbn [List.filter].
  destruct (H t (or_introl eq_refl)) as [Hs|[Hs|Hs]];
    repeat case_bool_decide; try congruence; cbn [length]; lia.
Qed.

(** The run of a plan with distinct ids whose tasks all start [PENDING]. *)
Lemma execute_plan_run exec tasks :
  List.NoDup (List.map task_id tasks) ->
  (forall t, In t tasks -> status t = PENDING) ->
  exists st,
    (forall fuel, (length tasks <= fuel)%nat ->
       wave_loop fuel exec 1 tasks ∅ ∅ = Some st) /\
    Post exec 1 tasks ∅ st /\
    results_of (ls_tasks st) (ls_results st) /\
    (forall t, In t (ls_tasks st) ->
       status t = COMPLETED \/ status t = FAILED ->
       exists w, In w (ls_waves st) /\ In t w).
Proof.
  intros Hnd Hpending.
  assert (HInv : Inv tasks ∅).
  { split; [done|]. split; [intros t Hin; left; auto|]. split.
    - intros i. split; [set_solver|]. intros (t & Hin & _ & Hs).
      rewrite (Hpending t Hin) in Hs. discriminate.
    - intros t d Hin Hs. by apply Hpending in Hin. }
  assert (HR : results_of tasks ∅).
  { intros i v. rewrite lookup_empty. split; [done|].
    intros (t & Hin & _ & Hs & _). rewrite (Hpending t Hin) in Hs. discriminate. }
  destruct (wave_loop_post exec (pending_count tasks) 1 tasks ∅ ∅ HInv ltac:(lia))
    as (st & Hrun & Hpost).
  exists st. split; [|split; [done|split]].
  - intros fuel Hfuel.
    apply (wave_loop_fuel_mono exec (pending_count tasks)); [|done].
    unfold pending_count.
    pose proof (filter_length_le (fun t => bool_decide (status t = PENDING)) tasks). lia.
  - by apply (wave_loop_results exec _ _ _ _ _ st HInv HR Hrun).
  - intros t Hin Hs.
    destruct (wave_loop_ran exec _ _ _ _ _ st Hrun t Hin Hs) as [Hin'|H]; [|done].
    rewrite (Hpending t Hin') in Hs. by destruct Hs.
Qed.

(** X13: for a plan whose task ids are distinct and whose tasks all start
    [PENDING], the dictionary [execute_plan] returns is consistent with
    the tasks it leaves: [results] holds, under its id, the result of each
    completed task and nothing else; [completed_tasks] is the number of
    tasks that ended [COMPLETED], [total_tasks] the number of tasks; the
    completed, failed and blocked tasks add up to all of them; and every
    task that ended completed or failed was run in a wave. *)
Theorem execute_plan_results (tool_executor : ToolExecutor)
    (tasks : list ExecutionTask) :
  List.NoDup (List.map task_id tasks) ->
  (forall t, In t tasks -> status t = PENDING) ->
  exists r,
    (forall fuel, (length tasks <= fuel)%nat ->
       execute_plan fuel tool_executor tasks = Some r) /\
    (forall i v,
       task_results r !! i = Some v <->
       exists t, In t (final_tasks r) /\ task_id t = i /\ status t = COMPLETED /\
                 result t = Some v) /\
    n_completed r = count_status COMPLETED (final_tasks r) /\
    total_tasks r = length (final_tasks r) /\
    (count_status COMPLETED (final_tasks r) + count_status FAILED (final_tasks r)
     + count_status BLOCKED (final_tasks r) = total_tasks r)%nat /\
    (forall t, In t (final_tasks r) ->
       status t = COMPLETED \/ status t = FAILED ->
       exists wave, In wave (wave_log r) /\ In t wave).
Proof.
  intros Hnd Hpending.
  destruct (execute_plan_run tool_executor tasks Hnd Hpending)
    as (st & Hrun & Hpost & HR & Hran).
  destruct Hpost as (Hid & _ & _ & Hfinal & Hcomp & _).
  assert (Hlen : length (ls_tasks st) = length tasks).
  { by rewrite <- (length_map task_id), Hid, length_map. }
  eexists. split.
  { intros fuel Hfuel. unfold execute_plan. rewrite (Hrun fuel Hfuel). reflexivity. }
  cbn. split; [exact HR|]. split.
  { apply size_completed; [by rewrite Hid|exact Hcomp]. }
  split; [done|]. split; [|exact Hran].
  rewrite <- Hlen. by apply count_three.
Qed.

Lemma execute_plan_results_witness :
  exists r,
    execute_plan 3 a_fails abc_plan = Some r /\
    task_results r !! "B"%string = Some "done"%string /\
    n_completed r = 1%nat.
Proof.
  destruct (execute_plan_results a_fails abc_plan
              ltac:(apply NoDup_ListNoDup; cbn; compute_done)
              ltac:(intros t [<-|[<-|[<-|[]]]]; reflexivity))
    as (r & Hrun & Hres & Hn & _).
  exists r. specialize (Hrun 3%nat ltac:(cbn; lia)).
  split; [exact Hrun|].
  revert Hrun. vm_compute. intros [= <-]. split; reflexivity.
Defined.

(** *** Dependencies that cannot be met *)

(** [t] waits for [u]: through one dependency, or a chain of them. *)
Inductive waits_for (final : list ExecutionTask) : ExecutionTask -> ExecutionTask -> Prop :=
| wf_edge t u :
    In t final -> In u final -> In (task_id u) (dependencies t) -> waits_for final t u
| wf_step t u v :
    In t final -> In u final -> In (task_id u) (dependencies t) ->
    waits_for final u v -> waits_for final t v.

Lemma waits_for_snoc final a b c :
  waits_for final a b -> In c final -> In (task_id c) (dependencies b) ->
  waits_for final a c.
Proof.
  induction 1 as [t u Ht Hu Hd|t u v Ht Hu Hd _ IH]; intros Hc Hdc.
  - eapply wf_step; [done|exact Hu|done|]. by apply wf_edge.
  - eapply wf_step; [done|exact Hu|done|]. by apply IH.
Qed.

(** On a cycle, the next task is on the cycle too. *)
Lemma cycle_next final t :
  waits_for final t t ->
  exists u, In u final /\ In (task_id u) (dependencies t) /\ waits_for final u u.
Proof.
  intros H. inversion H as [? u Ht Hu Hd|? u ? Ht Hu Hd Hrest]; subst.
  - exists t. done.
  - exists u. split; [done|]. split; [done|]. by eapply waits_for_snoc.
Qed.

Lemma no_cycle_in_waves final :
  List.NoDup (List.map task_id final) ->
  forall waves done_before,
    waves_respect_dependencies done_before waves ->
    (forall w t, In w waves -> In t w -> In t final) ->
    (forall u, In u final -> waits_for final u u -> task_id u ∉ done_before) ->
    forall w t, In w waves -> In t w -> ~ waits_for final t t.
Proof.
  intros Hnd. induction waves as [|wave rest IH]; intros D Hresp Hin HD w t Hw Ht;
    [done|].
  destruct Hresp as [Hfirst Hrest].
  assert (Hwave : forall t, In t wave -> ~ waits_for final t t).
  { intros t' Ht' Hcycle.
    destruct (cycle_next final t' Hcycle) as (u & Hu & Hd & Hucycle).
    apply (HD u Hu Hucycle). by apply (Hfirst t'). }
  destruct Hw as [<-|Hw]; [by apply Hwave|].
  refine (IH (D ∪ completed_in wave) Hrest _ _ w t Hw Ht).
  - intros w' t' Hw' Ht'. apply (Hin w' t'); [by right|done].
  - intros u Hu Hcycle. rewrite elem_of_union. intros [HuD|Hucomp].
    + by apply (HD u Hu Hcycle).
    + apply elem_of_completed_in in Hucomp as (t' & Ht' & Hid & _).
      assert (t' = u).
      { apply (NoDup_task_id_inj final); [done| |done|done].
        apply (Hin wave t'); [by left|done]. }
      subst t'. by apply (Hwave u).
Qed.

(** X14: for a plan whose task ids are distinct and whose tasks all start
    [PENDING], a task that waits for itself through a cycle of
    dependencies, and a task that names a dependency no task of the plan
    has as its id, is never run: it is part of no wave and ends
    [BLOCKED], while [execute_plan] still returns. *)
Theorem unmet_dependencies_block (tool_executor : ToolExecutor)
    (tasks : list ExecutionTask) :
  List.NoDup (List.map task_id tasks) ->
  (forall t, In t tasks -> status t = PENDING) ->
  exists r,
    (forall fuel, (length tasks <= fuel)%nat ->
       execute_plan fuel tool_executor tasks = Some r) /\
    (forall t, In t (final_tasks r) ->
       waits_for (final_tasks r) t t \/
       (exists d, In d (dependencies t) /\ ~ In d (List.map task_id tasks)) ->
       status t = BLOCKED /\
       forall wave, In wave (wave_log r) -> ~ In t wave).
Proof.
  intros Hnd Hpending.
  destruct (execute_plan_run tool_executor tasks Hnd Hpending)
    as (st & Hrun & Hpost & _ & Hran).
  destruct Hpost as (Hid & _ & _ & Hfinal & Hcomp & Hdeps & Hresp & Hlog & _).
  eexists. split.
  { intros fuel Hfuel. unfold execute_plan. rewrite (Hrun fuel Hfuel). reflexivity. }
  cbn. intros t Hin Hunmet.
  assert (Hnowave : forall wave, In wave (ls_waves st) -> ~ In t wave).
  { destruct Hunmet as [Hcycle|(d & Hd & Hunknown)].
    - intros wave Hw Ht.
      apply (no_cycle_in_waves (ls_tasks st) ltac:(by rewrite Hid) (ls_waves st) ∅
               Hresp (fun w u Hw' Hu => proj1 (Hlog w u Hw' Hu))
               ltac:(intros; set_solver) wave t Hw Ht Hcycle).
    - intros wave Hw Ht. destruct (Hlog wave t Hw Ht) as [_ Hs].
      apply Hunknown. rewrite <- Hid.
      apply (Hdeps t d Hin Hs) in Hd. apply Hcomp in Hd as (u & Hu & <- & _).
      by apply in_map. }
  split; [|exact Hnowave].
  destruct (Hfinal t Hin) as [Hs|[Hs|Hs]]; [| |done];
    destruct (Hran t Hin ltac:(auto)) as (w & Hw & Htw); by destruct (Hnowave w Hw).
Qed.

(** A plan in which A and B wait for each other, C names a task that is
    not there, and D is free. *)
Definition knotted_plan : list ExecutionTask :=
  [task "A" "search_emails" ["B"]; task "B" "search_calendar" ["A"];
   task "C" "extract_information" ["Z"]; task "D" "list_tasks" []].

Lemma unmet_dependencies_block_witness :
  exists r,
    execute_plan 4 (fun _ _ => Effects.Ok "done"%string) knotted_plan = Some r /\
    List.map status (final_tasks r) = [BLOCKED; BLOCKED; BLOCKED; COMPLETED] /\
    forall t, In t (final_tasks r) ->
      (exists d, In d (dependencies t) /\ ~ In d (List.map task_id knotted_plan)) ->
      status t = BLOCKED.
Proof.
  destruct (unmet_dependencies_block (fun _ _ => Effects.Ok "done"%string) knotted_plan
              ltac:(apply NoDup_ListNoDup; cbn; compute_done)
              ltac:(intros t [<-|[<-|[<-|[<-|[]]]]]; reflexivity))
    as (r & Hrun & Hblocked).
  exists r. pose proof (Hrun 4%nat ltac:(cbn; lia)) as H4.
  split; [exact H4|]. split.
  - revert H4. vm_compute. by intros [= <-].
  - intros t Hin Hd. apply (Hblocked t Hin). by right.
Defined.

(** *** Making and "optimizing" a plan *)






(** [for dep in task.dependencies: necessary_deps.append(dep)] *)
Definition necessary_deps (deps : list string) : list string :=
  fold_left (fun acc dep => acc ++ [dep]) deps [].

(** [optimize_plan] *)
Definition optimize_plan (tasks : list ExecutionTask) : list ExecutionTask :=
  List.map (fun t =>
              {| task_id := task_id t; operation := operation t;
                 parameters := parameters t;
                 dependencies := necessary_deps (dependencies t);
                 status := status t; result := result t; error := error t |}) tasks.

Lemma necessary_deps_all (deps : list string) : necessary_deps deps = deps.
Proof.
  unfold necessary_deps.
  assert (H : forall acc, fold_left (fun acc dep => acc ++ [dep]) deps acc = acc ++ deps).
  { induction deps as [|d l IH]; intros acc; cbn; [by rewrite app_nil_r|].
    by rewrite IH, <- app_assoc. }
  apply (H []).
Qed.

(** X15: [optimize_plan] removes no dependency and changes nothing else:
    it returns the plan it was given. *)
Theorem optimize_plan_changes_nothing (tasks : list ExecutionTask) :
  optimize_plan tasks = tasks.
Proof.
  unfold optimize_plan. induction tasks as [|t l IH]; [done|].
  cbn. rewrite IH, necessary_deps_all. by destruct t.
Qed.





End ExecutionPlanner.

(** ** src/workflows/decision_engine.py *)

Module DecisionEngine.
Import Effects.

(** A parsed JSON value, as [json.loads] returns it. *)
Inductive Json : Type :=
| JNull
| JBool (b : bool)
| JNum (z : Z)
| JStr (s : string)
| JList (items : list Json)
| JObj (fields : list (string * Json)).

(** [bool(v)] *)
Definition truthy (v : Json) : bool :=
  match v with
  | JNull => false
  | JBool b => b
  | JNum z => negb (z =? 0)
  | JStr s => Py.nonempty s
  | JList items => Py.truthy items
  | JObj fields => Py.truthy fields
  end.

Fixpoint assoc (key : string) (fields : list (string * Json)) : option Json :=
  match fields with
  | [] => None
  | (k, v) :: rest => if String.eqb k key then Some v else assoc key rest
  end.

(** [v.get(key, default)]; only a dictionary has [get]. *)
Definition get (v : Json) (key : string) (default : Json) : result Json :=
  match v with
  | JObj fields =>
      Ok (match assoc key fields with Some x => x | None => default end)
  | _ => Raise "AttributeError: object has no attribute 'get'"
  end.

(** [a or b] for a Boolean [a] *)
Definition py_or (a : bool) (b : Json) : Json := if a then JBool true else b.

(** The time window [_extract_time_constraint] returns. *)
Record TimeConstraint : Type := {
  after : string;
  before : option string;
  description : string
}.

(** What the engine takes from outside the repository or from the clock:
    the regular-expression engine, the JSON parser, the model, and the three
    extractors built on regular expressions and [datetime.now()]. *)
Record Deps : Type := {
  re_search : string -> string -> bool;
  json_loads : string -> result Json;
  generate_response : list (string * string) -> Z -> result string;
  _extract_time_constraint : string -> option TimeConstraint;
  _extract_sender : string -> option string;
  _extract_keywords : string -> list string
}.

Definition email_search_patterns : list string :=
  ["\b(email|mail|message)s?\b";
   "\b(find|search|show|list|get|retrieve)\b";
   "\bfrom\s+[\w\s@\.]+";
   "\bto\s+[\w\s@\.]+";
   "\bsubject\b";
   "\battachment";
   "\b(inbox|sent|draft|unread)\b";
   "\b(today|yesterday|last\s+\w+|recent)\b";
   "\b(\d+\s+days?\s+ago)\b";
   "\bplacement\s+drive";
   "\bcompany\s+visit";
   "\binterview";
   "\bmeeting"].

Definition time_patterns : list string :=
  ["\b(today|yesterday)\b";
   "\blast\s+(\d+)\s+(day|week|month)s?\b";
   "\b(\d+)\s+(day|week|month)s?\s+ago\b";
   "\bin\s+the\s+last\s+\d+\s+(day|week|month)s?\b";
   "\brecent\b"].

(** [_check_email_search_patterns] *)
Definition _check_email_search_patterns (deps : Deps) (query_lower : string) : bool :=
  existsb (fun pattern => re_search deps pattern query_lower) email_search_patterns.

(** [_check_time_patterns] *)
Definition _check_time_patterns (deps : Deps) (query_lower : string) : bool :=
  existsb (fun pattern => re_search deps pattern query_lower) time_patterns.

(** [s] between double quotes *)
Definition quoted (s : string) : string :=
  (String "034"%char s ++ String "034"%char EmptyString)%string.

Definition analysis_prompt (query : string) : string :=
  ("Analyze this user query and determine:" ++ nl
   ++ "1. Does it require searching through emails? (yes/no)" ++ nl
   ++ "2. What is the user's intent? (search_emails, calendar_query, task_management, general_question)" ++ nl
   ++ "3. What specific information are they looking for?" ++ nl ++ nl
   ++ "Query: " ++ query ++ nl ++ nl
   ++ "Respond in JSON format:" ++ nl
   ++ "{" ++ nl
   ++ "    " ++ quoted "requires_email_data" ++ ": true/false," ++ nl
   ++ "    " ++ quoted "intent" ++ ": " ++ quoted "search_emails" ++ " or "
   ++ quoted "calendar_query" ++ " or " ++ quoted "task_management" ++ " or "
   ++ quoted "general_question" ++ "," ++ nl
   ++ "    " ++ quoted "specific_info" ++ ": " ++ quoted "brief description" ++ nl
   ++ "}")%string.

Definition analysis_messages (query : string) : list (string * string) :=
  [("system", "You are a query analysis expert. Always respond with valid JSON.");
   ("user", analysis_prompt query)].

(** [_semantic_analysis] *)
Definition _semantic_analysis (deps : Deps) (query : string) : Json :=
  try_except
    (bind (generate_response deps (analysis_messages query) 200)
       (fun response => json_loads deps response))
    (fun _ => JObj [("requires_email_data", JBool true); ("intent", JStr "search_emails")]).

(** [_determine_search_scope] *)
Definition _determine_search_scope (has_time_constraint : bool)
    (extracted_time : option TimeConstraint) (query_lower : string) : string :=
  match extracted_time with
  | Some _ => "time_constrained"
  | None =>
      if has_time_constraint then "recent"
      else if existsb (fun word => Py.contains word query_lower) ["all"; "every"; "entire"]
      then "broad"
      else "normal"
  end.

(** [_calculate_confidence], in tenths: 0.5, plus 0.3, plus 0.2, capped at 1.0. *)
Definition _calculate_confidence (pattern_match : bool) (semantic_analysis : Json)
    : result Z :=
  bind (get semantic_analysis "requires_email_data" JNull)
    (fun requires =>
       let confidence := 5 in
       let confidence := if pattern_match then confidence + 3 else confidence in
       let confidence := if truthy requires then confidence + 2 else confidence in
       Ok (Z.min confidence 10)).

(** [str(v)] of the intent shown in the reasoning; the text of a list or
    a dictionary is not spelled out. *)
Definition show (v : Json) : string :=
  match v with
  | JStr s => s
  | JNull => "None"
  | JBool true => "True"
  | JBool false => "False"
  | JNum z => pretty z
  | JList _ => "[...]"
  | JObj _ => "{...}"
  end.

(** [_build_reasoning] *)
Definition _build_reasoning (needs_email_search has_time_constraint : bool)
    (semantic_analysis : Json) : result string :=
  bind (get semantic_analysis "requires_email_data" JNull)
    (fun requires =>
       bind (get semantic_analysis "intent" (JStr "unknown"))
         (fun intent =>
            let reasons :=
              (if needs_email_search then ["Query matches email search patterns"] else [])
              ++ (if has_time_constraint then ["Query has time constraints"] else [])
              ++ (if truthy requires
                  then ["Semantic analysis indicates email data needed"] else [])
              ++ [("Intent classified as: " ++ show intent)%string] in
            Ok (Py.join "; " reasons))).

(** The dictionary [analyze_query] returns; the fallback leaves five keys
    out. *)
Record Analysis : Type := {
  needs_rag : Json;
  needs_search : Json;
  confidence : Z;
  time_constraint : option (option TimeConstraint);
  sender_filter : option (option string);
  keywords : option (list string);
  search_scope : option string;
  semantic_intent : option Json;
  reasoning : string
}.

(** The body of [analyze_query] inside its [try]. *)
Definition analyze_body (deps : Deps) (query : string) : result Analysis :=
  let query_lower := Py.lower query in
  let needs_email_search := _check_email_search_patterns deps query_lower in
  let has_time_constraint := _check_time_patterns deps query_lower in
  let extracted_time := _extract_time_constraint deps query in
  let extracted_sender := _extract_sender deps query in
  let extracted_keywords := _extract_keywords deps query in
  let semantic_analysis := _semantic_analysis deps query in
  bind (get semantic_analysis "requires_email_data" (JBool false))
    (fun requires =>
       let needs_rag := py_or needs_email_search requires in
       let needs_search := needs_rag in
       let search_scope :=
         _determine_search_scope has_time_constraint extracted_time query_lower in
       bind (_calculate_confidence needs_email_search semantic_analysis)
         (fun confidence =>
            bind (get semantic_analysis "intent" (JStr "unknown"))
              (fun intent =>
                 bind (_build_reasoning needs_email_search has_time_constraint
                         semantic_analysis)
                   (fun reasoning =>
                      Ok {| needs_rag := needs_rag;
                            needs_search := needs_search;
                            confidence := confidence;
                            time_constraint := Some extracted_time;
                            sender_filter := Some extracted_sender;
                            keywords := Some extracted_keywords;
                            search_scope := Some search_scope;
                            semantic_intent := Some intent;
                            reasoning := reasoning |})))).

Definition fallback : Analysis :=
  {| needs_rag := JBool true;
     needs_search := JBool true;
     confidence := 5;
     time_constraint := None;
     sender_filter := None;
     keywords := None;
     search_scope := None;
     semantic_intent := None;
     reasoning := "Fallback to safe defaults due to analysis error" |}.

(** [analyze_query]: whatever is raised inside is caught. *)
Definition analyze_query (deps : Deps) (query : string) : Analysis :=
  try_except (analyze_body deps query) (fun _ => fallback).

(** An engine whose model is unreachable. *)
Definition offline : Deps :=
  {| re_search := fun _ _ => false;
     json_loads := fun _ => Raise "JSONDecodeError";
     generate_response := fun _ _ => Raise "APIConnectionError";
     _extract_time_constraint := fun _ => None;
     _extract_sender := fun _ => None;
     _extract_keywords := fun _ => [] |}.

(** C7: when the semantic-analysis call to the model raises,
    [analyze_query] still returns its dictionary, with [needs_rag] and
    [needs_search] both [True]. *)
Theorem analyze_query_fails_open (deps : Deps) (query e : string) :
  generate_response deps (analysis_messages query) 200 = Raise e ->
  needs_rag (analyze_query deps query) = JBool true /\
  needs_search (analyze_query deps query) = JBool true.
Proof.
  intros Hraise. unfold analyze_query, analyze_body, _semantic_analysis.
  rewrite Hraise. simpl.
  destruct (_check_email_search_patterns deps (Py.lower query));
    destruct (_check_time_patterns deps (Py.lower query)); simpl; done.
Qed.

Lemma analyze_query_fails_open_witness :
  needs_rag (analyze_query offline "what is new?") = JBool true /\
  needs_search (analyze_query offline "what is new?") = JBool true.
Proof.
  apply (analyze_query_fails_open offline "what is new?" "APIConnectionError").
  reflexivity.
Defined.

(** *** When the analysis lets a query go without search *)

(** What [_semantic_analysis] returns is the model's parsed answer, or the
    default that asks for email data. *)
Lemma semantic_analysis_cases (deps : Deps) (query : string) :
  (exists response,
     generate_response deps (analysis_messages query) 200 = Ok response /\
     json_loads deps response = Ok (_semantic_analysis deps query)) \/
  _semantic_analysis deps query =
    JObj [("requires_email_data", JBool true); ("intent", JStr "search_emails")]%string.
Proof.
  unfold _semantic_analysis, try_except, bind.
  destruct (generate_response deps _ 200) as [response|e]; [|by right].
  destruct (json_loads deps response) as [v|e] eqn:E; [|by right].
  left. by exists response.
Qed.

(** X17: [analyze_query] always sets [needs_search] to the value of
    [needs_rag], and its confidence lies between 0.5 and 1.0.  [needs_rag]
    is [True] whenever a search pattern matches the lower-cased query,
    whatever the model answers; it is falsy only when no pattern matched
    and the model's answer parsed to a JSON object whose
    [requires_email_data] is missing or falsy. *)
Theorem analysis_skips_search_only_on_model_say (deps : Deps) (query : string) :
  let analysis := analyze_query deps query in
  needs_search analysis = needs_rag analysis /\
  5 <= confidence analysis <= 10 /\
  (_check_email_search_patterns deps (Py.lower query) = true ->
   needs_rag analysis = JBool true) /\
  (truthy (needs_rag analysis) = false ->
   _check_email_search_patterns deps (Py.lower query) = false /\
   exists response fields,
     generate_response deps (analysis_messages query) 200 = Ok response /\
     json_loads deps response = Ok (JObj fields) /\
     truthy (default (JBool false) (assoc "requires_email_data" fields)) = false).
Proof.
  cbv zeta. unfold analyze_query, analyze_body, try_except.
  destruct (semantic_analysis_cases deps query) as [(response & Hresp & Hjson)|Hdefault].
  - destruct (_semantic_analysis deps query) as [| | | | |fields] eqn:Hsem;
      try (cbn; repeat split; (lia || done)).
    unfold _calculate_confidence, _build_reasoning, get, bind.
    destruct (_check_email_search_patterns deps (Py.lower query)) eqn:Hp;
      cbn [needs_search needs_rag confidence py_or].
    + split; [done|]. split; [destruct (truthy _); cbn; lia|].
      split; [done|]. intros H. cbn in H. discriminate.
    + split; [done|]. split; [destruct (truthy _); cbn; lia|].
      split; [done|]. intros Hfalsy. split; [done|].
      exists response, fields. split; [done|]. split; [done|].
      by destruct (assoc "requires_email_data" fields).
  - rewrite Hdefault.
    destruct (_check_email_search_patterns deps (Py.lower query)) eqn:Hp;
      destruct (_check_time_patterns deps (Py.lower query)); cbn;
      (split; [done|]); (split; [lia|]); (split; [done|]); intros [=].
Qed.

(** A model that answers that no email data is needed, with a query no
    pattern matches. *)
Definition says_no : Deps :=
  {| re_search := fun _ _ => false;
     json_loads := fun _ =>
       Ok (JObj [("requires_email_data", JBool false);
                 ("intent", JStr "general_question")]%string);
     generate_response := fun _ _ => Ok "{...}"%string;
     _extract_time_constraint := fun _ => None;
     _extract_sender := fun _ => None;
     _extract_keywords := fun _ => [] |}.

Lemma analysis_skips_search_only_on_model_say_witness :
  _check_email_search_patterns says_no (Py.lower "what is 2+2?") = false.
Proof.
  exact (proj1 (proj2 (proj2 (proj2
           (analysis_skips_search_only_on_model_say says_no "what is 2+2?"))) eq_refl)).
Defined.

End DecisionEngine.

(** ** src/memory/memory_manager.py *)

Module MemoryManager.
Import Effects Env.
Local Open Scope py_scope.

Record t : Type := {
  vector_store : VectorStore.t;
  conversation_memory : ConversationMemory.t;
  user_patterns : gmap string (gmap string Z)
}.

Record St : Type := {
  world : World;
  self : t
}.

Definition vs_get (st : St) : VectorStore.St :=
  {| VectorStore.world := world st; VectorStore.self := vector_store (self st) |}.

Definition vs_set (v : VectorStore.St) (st : St) : St :=
  {| world := VectorStore.world v;
     self := {| vector_store := VectorStore.self v;
                conversation_memory := conversation_memory (self st);
                user_patterns := user_patterns (self st) |} |}.

(** [if key not in self.user_patterns: self.user_patterns[key] = {}] *)
Definition ensure_key (key : string) (patterns : gmap string (gmap string Z))
    : gmap string (gmap string Z) :=
  match patterns !! key with
  | Some _ => patterns
  | None => <[key := ∅]> patterns
  end.

(** [d[key][k] = d[key].get(k, 0) + 1] *)
Definition bump (key k : string) (patterns : gmap string (gmap string Z))
    : gmap string (gmap string Z) :=
  let inner := default ∅ (patterns !! key) in
  <[key := <[k := default 0 (inner !! k) + 1]> inner]> patterns.

Definition digit (c : ascii) : nat := (nat_of_ascii c - 48)%nat.

(** [now.hour], read off the ISO text of the clock. *)
Definition hour_of (iso : string) : nat :=
  match substring 11 2 iso with
  | String a (String b _) => (digit a * 10 + digit b)%nat
  | _ => 0%nat
  end.

Definition keywords : list string :=
  ["find"; "search"; "show"; "list"; "get"; "check"; "schedule"].

(** [_extract_patterns]; the profile file it then writes is read by no
    other component and is left out. *)
Definition _extract_patterns (svc : Services) (user_query : string)
    (sender : option string) : M St unit :=
  catch
    (now <~ zoom vs_get vs_set (VectorStore.read_clock svc) ;;;
     modify (fun st =>
       let query_lower := Py.lower user_query in
       let p := ensure_key "query_patterns" (user_patterns (self st)) in
       let p := fold_left (fun p keyword =>
                  if Py.contains keyword query_lower
                  then bump "query_patterns" keyword p else p) keywords p in
       let p := ensure_key "usage_hours" p in
       let p := bump "usage_hours" (pretty (hour_of now)) p in
       let p := match sender with
                | Some s => bump "frequent_contacts" s (ensure_key "frequent_contacts" p)
                | None => p
                end in
       {| world := world st;
          self := {| vector_store := vector_store (self st);
                     conversation_memory := conversation_memory (self st);
                     user_patterns := p |} |}))
    (fun _ => ret tt).

Definition add_message (svc : Services) (threshold : Z) (role content : string)
    : M St unit :=
  now <~ zoom vs_get vs_set (VectorStore.read_clock svc) ;;;
  modify (fun st =>
    {| world := world st;
       self := {| vector_store := vector_store (self st);
                  conversation_memory :=
                    ConversationMemory.add_message threshold (generate_response svc) now
                      (conversation_memory (self st)) role content;
                  user_patterns := user_patterns (self st) |} |}).

(** [learn_from_interaction]: the two turns go to the conversation memory
    only. *)
Definition learn_from_interaction (svc : Services) (threshold : Z)
    (user_query assistant_response : string) (sender : option string) : M St unit :=
  catch
    (add_message svc threshold "user" user_query ;;;
     add_message svc threshold "assistant" assistant_response ;;;
     _extract_patterns svc user_query sender)
    (fun _ => ret tt).

(** [get_relevant_memory] *)
Definition get_relevant_memory (svc : Services) (query : string) (n_results : Z)
    : M St Chroma.QueryResult :=
  zoom vs_get vs_set (VectorStore.semantic_search svc query n_results None).

(** *** What one interaction teaches *)

(** [user_patterns[key].get(k, 0)], 0 also when [key] is missing. *)
Definition tally (key k : string) (patterns : gmap string (gmap string Z)) : Z :=
  default 0 (default ∅ (patterns !! key) !! k).

Lemma tally_ensure_key key' key k p : tally key k (ensure_key key' p) = tally key k p.
Proof.
  unfold tally, ensure_key. destruct (p !! key') eqn:E; [done|].
  destruct (decide (key' = key)) as [<-|Hne].
  - by rewrite lookup_insert_eq, E.
  - by rewrite lookup_insert_ne.
Qed.

Lemma tally_bump key' k' key k p :
  tally key k (bump key' k' p) =
  tally key k p + (if decide (key' = key /\ k' = k) then 1 else 0).
Proof.
  unfold tally, bump.
  destruct (decide (key' = key)) as [<-|Hkey].
  - rewrite lookup_insert_eq. cbn.
    destruct (decide (k' = k)) as [<-|Hk].
    + rewrite lookup_insert_eq. cbn. rewrite decide_True by done. done.
    + rewrite lookup_insert_ne by done. rewrite decide_False by tauto. lia.
  - rewrite lookup_insert_ne by done. rewrite decide_False by tauto. lia.
Qed.

Lemma tally_keywords query_lower key k :
  forall (l : list string) p,
    List.NoDup l ->
    tally key k
      (fold_left (fun p keyword =>
                    if Py.contains keyword query_lower
                    then bump "query_patterns" keyword p else p) l p) =
    tally key k p +
    (if decide (key = "query_patterns"%string /\ k ∈ l)
     then (if Py.contains k query_lower then 1 else 0) else 0).
Proof.
  induction l as [|x l IH]; intros p Hnd.
  - cbn. rewrite decide_False; [lia|]. intros [_ H]. by apply elem_of_nil in H.
  - inversion Hnd as [|? ? Hnotin Hnd']; subst. cbn [fold_left]. rewrite (IH _ Hnd').
    assert (Hx : tally key k (if Py.contains x query_lower
                              then bump "query_patterns" x p else p) =
                 tally key k p +
                 (if decide (key = "query_patterns"%string /\ x = k)
                  then (if Py.contains k query_lower then 1 else 0) else 0)).
    { destruct (decide (key = "query_patterns"%string /\ x = k)) as [[-> ->]|Hne].
      - destruct (Py.contains k query_lower); [|lia].
        rewrite tally_bump, decide_True by done. done.
      - destruct (Py.contains x query_lower); [|lia].
        rewrite tally_bump, decide_False; [lia|]. intros [<- <-]. tauto. }
    rewrite Hx. clear Hx IH.
    destruct (decide (key = "query_patterns"%string /\ x = k)) as [[-> ->]|Hne].
    + rewrite decide_False.
      2:{ intros [_ Hin]. by apply list_elem_of_In in Hin. }
      rewrite decide_True by (split; [done|by left]). lia.
    + destruct (decide (key = "query_patterns"%string /\ k ∈ l)) as [[-> Hin]|Hno].
      * rewrite decide_True by (split; [done|by right]). lia.
      * rewrite decide_False; [lia|]. intros [-> Hin].
        apply elem_of_cons in Hin as [->|Hin]; tauto.
Qed.

(** X18: [learn_from_interaction] never raises.  It appends the user's
    query and the assistant's response, in this order, to the live
    conversation and leaves the summary as it was; for each of the seven
    tracked keywords the counter under [query_patterns] goes up by one
    exactly when the keyword occurs as a substring of the lower-cased
    query, and stays otherwise. *)
Theorem learn_appends_and_counts (svc : Services) (threshold : Z)
    (user_query assistant_response : string) (sender : option string) (st : St) :
  let out := learn_from_interaction svc threshold user_query assistant_response sender st in
  let before := conversation_memory (self st) in
  let after := conversation_memory (self (snd out)) in
  fst out = Ok tt /\
  ConversationMemory.messages after =
    ConversationMemory.messages before ++
    [{| ConversationMemory.role := "user";
        ConversationMemory.content := user_query;
        ConversationMemory.timestamp := now_iso svc (draws (world st)) |};
     {| ConversationMemory.role := "assistant";
        ConversationMemory.content := assistant_response;
        ConversationMemory.timestamp := now_iso svc (S (draws (world st))) |}] /\
  ConversationMemory.summary after = ConversationMemory.summary before /\
  (forall k, In k keywords ->
     tally "query_patterns" k (user_patterns (self (snd out))) =
     tally "query_patterns" k (user_patterns (self st)) +
     (if Py.contains k (Py.lower user_query) then 1 else 0)).
Proof.
  destruct st as [w [vs cm p]]. cbv zeta.
  unfold learn_from_interaction, _extract_patterns, add_message, catch, mbind, zoom,
    VectorStore.read_clock, modify, ret. cbn [fst snd world self conversation_memory
    user_patterns vector_store vs_get vs_set VectorStore.world VectorStore.self
    VectorStore.with_world tick draws].
  split; [done|].
  destruct (ConversationMemory.add_message_appends threshold (generate_response svc)
              (now_iso svc (draws w)) cm "user" user_query) as (Hm1 & Hs1 & _).
  destruct (ConversationMemory.add_message_appends threshold (generate_response svc)
              (now_iso svc (S (draws w)))
              (ConversationMemory.add_message threshold (generate_response svc)
                 (now_iso svc (draws w)) cm "user" user_query)
              "assistant" assistant_response) as (Hm2 & Hs2 & _).
  split; [by rewrite Hm2, Hm1, <- app_assoc|].
  split; [by rewrite Hs2, Hs1|].
  intros k Hk.
  assert (Hrest : forall q,
            tally "query_patterns" k
              match sender with
              | Some s => bump "frequent_contacts" s (ensure_key "frequent_contacts" q)
              | None => q
              end = tally "query_patterns" k q).
  { intros q. destruct sender as [s|]; [|done].
    rewrite tally_bump, tally_ensure_key, decide_False; [lia|]. by intros [? _]. }
  rewrite Hrest, tally_bump, tally_ensure_key, decide_False by (by intros [? _]).
  rewrite tally_keywords by (apply NoDup_ListNoDup; unfold keywords; compute_done).
  rewrite tally_ensure_key, decide_True by (split; [done|by apply list_elem_of_In]). lia.
Qed.

Definition fresh_manager : St :=
  {| world := fresh_world;
     self := {| vector_store := fst (VectorStore.init fresh_world);
                conversation_memory := ConversationMemory.init;
                user_patterns := ∅ |} |}.

Lemma learn_appends_and_counts_witness :
  tally "query_patterns" "get"
    (user_patterns
       (self (snd (learn_from_interaction demo_services 20 "Put it all together"
                     "Done." None fresh_manager)))) = 1.
Proof.
  exact (proj2 (proj2 (proj2 (learn_appends_and_counts demo_services 20
                                "Put it all together" "Done." None fresh_manager)))
           "get"%string ltac:(cbn; tauto)).
Defined.

End MemoryManager.

(** ** src/workflows/autonomous_agent.py and email_assistant.py: the stores *)

Module Assistant.
Import Effects Env.
Local Open Scope py_scope.

(** The components of [AutonomousEmailAgent] that hold data. *)
Record Agent : Type := {
  memory_manager : MemoryManager.t;
  vector_store : VectorStore.t;
  email_storage : EmailStorage.t
}.

Record AgentSt : Type := {
  world : World;
  self : Agent
}.

Definition mm_get (st : AgentSt) : MemoryManager.St :=
  {| MemoryManager.world := world st; MemoryManager.self := memory_manager (self st) |}.

Definition mm_set (m : MemoryManager.St) (st : AgentSt) : AgentSt :=
  {| world := MemoryManager.world m;
     self := {| memory_manager := MemoryManager.self m;
                vector_store := vector_store (self st);
                email_storage := email_storage (self st) |} |}.

Definition es_get (st : AgentSt) : EmailStorage.St :=
  {| EmailStorage.world := world st; EmailStorage.self := email_storage (self st) |}.

Definition es_set (e : EmailStorage.St) (st : AgentSt) : AgentSt :=
  {| world := EmailStorage.world e;
     self := {| memory_manager := memory_manager (self st);
                vector_store := vector_store (self st);
                email_storage := EmailStorage.self e |} |}.

Definition nothing_found : string := "No relevant previous conversation found.".

(** [f"Previous discussion {i+1}: {doc[:200]}..."] *)
Definition recalled_line (i : nat) (doc : string) : string :=
  ("Previous discussion " ++ pretty (i + 1)%nat ++ ": " ++ substring 0 200 doc ++ "...")%string.

(** What the tool renders from [results['documents'][0][:3]]. *)
Definition render_recalled (docs : list string) : string :=
  Py.join nl (imap recalled_line (take 3 docs)).

(** [_recall_conversation] *)
Definition _recall_conversation (svc : Services) (query : string) : M AgentSt string :=
  catch
    (results <~ zoom mm_get mm_set (MemoryManager.get_relevant_memory svc query 3) ;;;
     match Chroma.documents results with
     | first :: _ =>
         if Py.truthy first then ret (render_recalled first) else ret nothing_found
     | [] => ret nothing_found
     end)
    (fun _ => ret "Could not recall previous conversation.").

(** [AutonomousEmailAgent.clear_email_storage] *)
Definition clear_email_storage : M AgentSt unit :=
  zoom es_get es_set EmailStorage.clear_all.

(** The components of [EmailAssistant] that hold data. *)
Record EmailAssistant : Type := {
  ea_memory_manager : MemoryManager.t;
  indexer_service : EmailIndexer.t
}.

Record AssistantSt : Type := {
  ea_world : World;
  ea_self : EmailAssistant
}.

(** [self.memory_manager.vector_store] *)
Definition mmvs_get (st : AssistantSt) : VectorStore.St :=
  {| VectorStore.world := ea_world st;
     VectorStore.self := MemoryManager.vector_store (ea_memory_manager (ea_self st)) |}.

Definition mmvs_set (v : VectorStore.St) (st : AssistantSt) : AssistantSt :=
  {| ea_world := VectorStore.world v;
     ea_self :=
       {| ea_memory_manager :=
            {| MemoryManager.vector_store := VectorStore.self v;
               MemoryManager.conversation_memory :=
                 MemoryManager.conversation_memory (ea_memory_manager (ea_self st));
               MemoryManager.user_patterns :=
                 MemoryManager.user_patterns (ea_memory_manager (ea_self st)) |};
          indexer_service := indexer_service (ea_self st) |} |}.

(** [EmailAssistant.clear_vector_db] *)
Definition clear_vector_db : M AssistantSt unit :=
  zoom mmvs_get mmvs_set VectorStore.clear_all_data.

(** The document was stored as mail. *)
Definition is_email (d : Chroma.Document) : Prop :=
  Chroma.metadata d !! "content_type" = Some (Chroma.MStr "email").

(** The document is not filed under [email_id]: the dedupe probe for that
    id does not match it. *)
Definition not_under (email_id : string) (d : Chroma.Document) : Prop :=
  Chroma.metadata d !! "email_id" <> Some (Chroma.MStr email_id).

(** Every stored document satisfies [P]. *)
Definition all_docs (P : Chroma.Document -> Prop) (w : World) : Prop :=
  Forall P (Chroma.current_docs (chroma w)).

Definition only_emails (w : World) : Prop := all_docs is_email w.

(** [m] keeps [P] true of every stored document, whatever it answers. *)
Definition preserves {S A} (P : Chroma.Document -> Prop) (world_of : S -> World)
    (m : M S A) : Prop :=
  forall s, all_docs P (world_of s) -> all_docs P (world_of (snd (m s))).

(** One operation of normal use or maintenance, seen from the machine:
    an indexing pass, a search through any store object, learning from an
    interaction, the recall tool, clearing the index, clearing the storage. *)
Inductive world_step (svc : Services) (threshold : Z) : World -> World -> Prop :=
| ws_index (ix : EmailIndexer.t) (mailbox : EmailIndexer.Mailbox) messages w :
    world_step svc threshold w
      (EmailIndexer.world
         (snd (EmailIndexer.run_indexing svc mailbox messages
                 {| EmailIndexer.world := w; EmailIndexer.self := ix |})))
| ws_search (vs : VectorStore.t) query n filter w :
    world_step svc threshold w
      (VectorStore.world
         (snd (VectorStore.semantic_search svc query n filter
                 {| VectorStore.world := w; VectorStore.self := vs |})))
| ws_learn (mm : MemoryManager.t) user_query assistant_response sender w :
    world_step svc threshold w
      (MemoryManager.world
         (snd (MemoryManager.learn_from_interaction svc threshold user_query
                 assistant_response sender
                 {| MemoryManager.world := w; MemoryManager.self := mm |})))
| ws_recall (ag : Agent) query w :
    world_step svc threshold w
      (world (snd (_recall_conversation svc query {| world := w; self := ag |})))
| ws_clear_vector (vs : VectorStore.t) w :
    world_step svc threshold w
      (VectorStore.world
         (snd (VectorStore.clear_all_data
                 {| VectorStore.world := w; VectorStore.self := vs |})))
| ws_clear_storage (es : EmailStorage.t) w :
    world_step svc threshold w
      (EmailStorage.world
         (snd (EmailStorage.clear_all
                 {| EmailStorage.world := w; EmailStorage.self := es |}))).

(** The machines reached from one whose index holds nothing but mail. *)
Inductive reachable (svc : Services) (threshold : Z) : World -> Prop :=
| reach_start w : only_emails w -> reachable svc threshold w
| reach_step w w' :
    reachable svc threshold w -> world_step svc threshold w w' ->
    reachable svc threshold w'.

(** An agent on the machine the first indexing pass of [EmailIndexer]
    leaves behind. *)
Definition demo_agent : AgentSt :=
  let w := EmailIndexer.world (snd EmailIndexer.first_pass) in
  let vs := EmailIndexer.vector_store (EmailIndexer.self (snd EmailIndexer.first_pass)) in
  {| world := w;
     self := {| memory_manager :=
                  {| MemoryManager.vector_store := vs;
                     MemoryManager.conversation_memory := ConversationMemory.init;
                     MemoryManager.user_patterns := ∅ |};
                vector_store := vs;
                email_storage := EmailStorage.init w |} |}.

(** C8: [clear_vector_db] changes the index and the handle of the store it
    goes through, nothing else: the indexer's Email Full-Body Storage
    answers every [get_email] as before and the storage file is the same.
    Clearing Email Full-Body Storage, directly or through the agent, leaves
    the index and every document in it as they were. *)
Theorem clearing_is_independent :
  (forall st : AssistantSt,
     let st' := snd (clear_vector_db st) in
     (forall email_id,
        EmailStorage.get_email (EmailIndexer.email_storage (indexer_service (ea_self st')))
          email_id =
        EmailStorage.get_email (EmailIndexer.email_storage (indexer_service (ea_self st)))
          email_id) /\
     email_storage_json (ea_world st') = email_storage_json (ea_world st) /\
     indexer_service (ea_self st') = indexer_service (ea_self st) /\
     MemoryManager.conversation_memory (ea_memory_manager (ea_self st')) =
       MemoryManager.conversation_memory (ea_memory_manager (ea_self st))) /\
  (forall st : EmailStorage.St,
     chroma (EmailStorage.world (snd (EmailStorage.clear_all st))) =
       chroma (EmailStorage.world st)) /\
  (forall st : AgentSt,
     let st' := snd (clear_email_storage st) in
     chroma (world st') = chroma (world st) /\
     vector_store (self st') = vector_store (self st) /\
     memory_manager (self st') = memory_manager (self st)).
Proof.
  split; [|split].
  - intros [[client file writable truncates n] [mm ix]]. cbv zeta.
    unfold clear_vector_db, zoom, VectorStore.clear_all_data, catch, mbind, modify,
      VectorStore.bind_collection, raise, Chroma.get_or_create_collection. simpl.
    destruct (Chroma.delete_collection client) as [c|e]; simpl; [|done].
    destruct (Chroma.named c); simpl; done.
  - intros [w es]. unfold EmailStorage.clear_all, EmailStorage._save_storage, mbind, modify.
    simpl. destruct (disk_writable w), (failed_write_truncates w); done.
  - intros [w ag]. cbv zeta.
    unfold clear_email_storage, zoom, EmailStorage.clear_all, EmailStorage._save_storage,
      mbind, modify. simpl.
    destruct (disk_writable w), (failed_write_truncates w); done.
Qed.

(** *** The index holds only mail *)

Section Preserves.
Context {S : Type} (P : Chroma.Document -> Prop) (world_of : S -> World).

Lemma preserves_ret {A} (a : A) : preserves P world_of (ret a).
Proof. intros s H. exact H. Qed.

Lemma preserves_raise {A} e : preserves P world_of (@raise S A e).
Proof. intros s H. exact H. Qed.

Lemma preserves_lift {A} (r : result A) : preserves P world_of (lift r).
Proof. intros s H. exact H. Qed.

Lemma preserves_gets {A} (f : S -> A) : preserves P world_of (gets f).
Proof. intros s H. exact H. Qed.

Lemma preserves_mbind {A B} (m : M S A) (k : A -> M S B) :
  preserves P world_of m -> (forall a, preserves P world_of (k a)) ->
  preserves P world_of (mbind m k).
Proof.
  intros Hm Hk s H. unfold mbind. specialize (Hm s H).
  destruct (m s) as [[a|e] s']; simpl in *; [by apply Hk|done].
Qed.

Lemma preserves_catch {A} (m : M S A) (h : string -> M S A) :
  preserves P world_of m -> (forall e, preserves P world_of (h e)) ->
  preserves P world_of (catch m h).
Proof.
  intros Hm Hh s H. unfold catch. specialize (Hm s H).
  destruct (m s) as [[a|e] s']; simpl in *; [done|by apply Hh].
Qed.

Lemma preserves_zoom {T A} (world_of' : T -> World) (get : S -> T) (set : T -> S -> S)
    (m : M T A) :
  (forall s, world_of' (get s) = world_of s) ->
  (forall t s, world_of (set t s) = world_of' t) ->
  preserves P world_of' m -> preserves P world_of (zoom get set m).
Proof.
  intros Hget Hset Hm s H. unfold zoom.
  specialize (Hm (get s)). rewrite Hget in Hm. specialize (Hm H).
  destruct (m (get s)) as [r t']. simpl in *. by rewrite Hset.
Qed.

End Preserves.

Lemma merge_metadata_other key (m : gmap string Chroma.MetaVal) additional :
  forallb (fun kv => negb (String.eqb (fst kv) key)) additional = true ->
  VectorStore.merge_metadata m additional !! key = m !! key.
Proof.
  unfold VectorStore.merge_metadata. revert m.
  induction additional as [|[k v] l IH]; intros m; simpl; [done|].
  intros H. apply andb_true_iff in H as [Hk Hl].
  rewrite IH by done. apply lookup_insert_ne.
  apply negb_true_iff in Hk. by apply String.eqb_neq in Hk.
Qed.

Lemma email_metadata_content_type email_id subject sender recipients date labels
    attachments thread_id indexed_at :
  VectorStore.email_metadata email_id subject sender recipients date labels
    attachments thread_id indexed_at !! "content_type" = Some (Chroma.MStr "email").
Proof.
  unfold VectorStore.email_metadata.
  destruct (Py.truthy attachments).
  - rewrite lookup_insert_ne by done. by rewrite lookup_insert_eq.
  - by rewrite lookup_insert_eq.
Qed.

Lemma through_collection_state {A} (f : Chroma.Client -> nat -> result A) st :
  snd (VectorStore.through_collection f st) = st.
Proof. done. Qed.

Lemma ensure_preserves P :
  preserves P VectorStore.world VectorStore._ensure_collection_exists.
Proof.
  intros st H. destruct (VectorStore.ensure_current st) as (h & c & -> & _ & Hdocs).
  unfold all_docs in *. simpl. by rewrite Hdocs.
Qed.

(** [add_email] keeps [P] when the document it builds satisfies [P]. *)
Lemma add_email_preserves P svc email_id subject body sender recipients date labels
    attachments thread_id additional :
  (forall d indexed_at,
     Chroma.metadata d =
       VectorStore.merge_metadata
         (VectorStore.email_metadata email_id subject sender recipients date labels
            attachments thread_id indexed_at) additional ->
     P d) ->
  preserves P VectorStore.world
    (VectorStore.add_email svc email_id subject body sender recipients date labels
       attachments thread_id additional).
Proof.
  intros Hnew. unfold VectorStore.add_email.
  apply preserves_catch; [|intros; apply preserves_raise].
  apply preserves_mbind; [apply ensure_preserves|intros _].
  apply preserves_mbind; [apply preserves_lift|intros embedding].
  apply preserves_mbind; [intros st H; exact H|intros indexed_at].
  apply preserves_mbind; [intros st H; exact H|intros hex].
  intros st H. unfold mbind, VectorStore.through_collection, Chroma.add, bind,
    Chroma.resolve, modify, ret.
  unfold all_docs, Chroma.current_docs in *.
  destruct (Chroma.named (chroma (VectorStore.world st))) as [col|] eqn:Hnamed; simpl;
    [|by rewrite Hnamed].
  destruct (Chroma.uuid col =? VectorStore.collection (VectorStore.self st))%nat; simpl;
    [|by rewrite Hnamed].
  apply Forall_app. split; [done|]. constructor; [|constructor].
  by apply (Hnew _ indexed_at).
Qed.

Lemma email_metadata_email_id email_id subject sender recipients date labels
    attachments thread_id indexed_at :
  VectorStore.email_metadata email_id subject sender recipients date labels
    attachments thread_id indexed_at !! "email_id" = Some (Chroma.MStr email_id).
Proof.
  unfold VectorStore.email_metadata.
  destruct (Py.truthy attachments); repeat (rewrite lookup_insert_ne by done);
    by rewrite lookup_insert_eq.
Qed.

(** A document built by [add_email] without a [content_type] of the
    caller's is mail. *)
Lemma built_is_email d email_id subject sender recipients date labels attachments
    thread_id indexed_at additional :
  forallb (fun kv => negb (String.eqb (fst kv) "content_type")) additional = true ->
  Chroma.metadata d =
    VectorStore.merge_metadata
      (VectorStore.email_metadata email_id subject sender recipients date labels
         attachments thread_id indexed_at) additional ->
  is_email d.
Proof.
  intros Hkeys Hd. unfold is_email. rewrite Hd, merge_metadata_other by done.
  apply email_metadata_content_type.
Qed.

(** A document built by [add_email] is filed under the [email_id] argument
    unless the caller's metadata override it. *)
Lemma built_not_under d other email_id subject sender recipients date labels attachments
    thread_id indexed_at additional :
  forallb (fun kv => negb (String.eqb (fst kv) "email_id")) additional = true ->
  email_id <> other ->
  Chroma.metadata d =
    VectorStore.merge_metadata
      (VectorStore.email_metadata email_id subject sender recipients date labels
         attachments thread_id indexed_at) additional ->
  not_under other d.
Proof.
  intros Hkeys Hne Hd. unfold not_under.
  rewrite Hd, merge_metadata_other, email_metadata_email_id by done. congruence.
Qed.

(** A chunk id is never the id of the mail it was cut from. *)
Lemma chunk_id_differs (email_id : string) (i : nat) :
  (email_id ++ "_chunk_" ++ pretty i)%string <> email_id.
Proof.
  intros H. apply (f_equal String.length) in H.
  rewrite !Py.length_append in H. simpl in H. lia.
Qed.

Lemma index_chunks_preserves svc parsed summary total :
  forall chunks i,
    preserves is_email VectorStore.world
      (EmailIndexer.index_chunks svc parsed (EmailIndexer.enhanced_metadata parsed summary)
         total i chunks).
Proof.
  induction chunks as [|chunk rest IH]; intros i; simpl.
  - apply preserves_ret.
  - apply preserves_mbind; [|intros _; apply IH].
    apply add_email_preserves. intros d indexed_at. by apply built_is_email.
Qed.

(** Indexing the chunks of a mail files nothing under the mail's own id. *)
Lemma index_chunks_not_under svc parsed summary total :
  forall chunks i,
    preserves (not_under (id parsed)) VectorStore.world
      (EmailIndexer.index_chunks svc parsed (EmailIndexer.enhanced_metadata parsed summary)
         total i chunks).
Proof.
  induction chunks as [|chunk rest IH]; intros i; simpl.
  - apply preserves_ret.
  - apply preserves_mbind; [|intros _; apply IH].
    apply add_email_preserves. intros d indexed_at.
    apply built_not_under; [reflexivity|apply chunk_id_differs].
Qed.

(** For a body of more than 1500 characters, [_index_email_with_metadata]
    leaves the index without any document filed under the mail's id if
    there was none before: the next dedupe probe for that id cannot match. *)
Lemma chunked_mail_not_under svc parsed summary st :
  1500 < Z.of_nat (String.length (body_text parsed)) ->
  all_docs (not_under (id parsed)) (VectorStore.world st) ->
  all_docs (not_under (id parsed))
    (VectorStore.world (snd (EmailIndexer._index_email_with_metadata svc parsed summary st))).
Proof.
  intros Hlong. revert st.
  change (preserves (not_under (id parsed)) VectorStore.world
            (EmailIndexer._index_email_with_metadata svc parsed summary)).
  unfold EmailIndexer._index_email_with_metadata.
  apply preserves_catch; [|intros; apply preserves_raise].
  destruct (Z.ltb_spec 1500 (Z.of_nat (String.length (body_text parsed)))); [|lia].
  destruct (EmailIndexer.body_chunks (body_text parsed)).
  - apply index_chunks_not_under.
  - apply preserves_raise.
Qed.

(** The probe answers by whether some stored document is filed under the
    id. *)
Lemma already_indexed_none email_id st :
  all_docs (not_under email_id) (VectorStore.world st) ->
  fst (EmailIndexer.already_indexed email_id st) <> Ok true.
Proof.
  intros Hall. unfold EmailIndexer.already_indexed, mbind, VectorStore.through_collection,
    Chroma.get, bind, Chroma.resolve, ret.
  unfold all_docs, Chroma.current_docs in Hall.
  destruct (Chroma.named (chroma (VectorStore.world st))) as [col|]; simpl; [|done].
  destruct (Chroma.uuid col =? VectorStore.collection (VectorStore.self st))%nat; simpl;
    [|done].
  assert (Hnone : List.filter
                    (Chroma.matches_opt (Some (Chroma.WEq "email_id" (Chroma.MStr email_id))))
                    (Chroma.docs col) = []).
  { induction (Chroma.docs col) as [|d l IH]; simpl; [done|].
    inversion Hall as [|? ? Hd Hl]; subst.
    rewrite (bool_decide_eq_false_2 _ Hd). by apply IH. }
  rewrite Hnone. simpl. discriminate.
Qed.

Lemma index_email_preserves svc parsed summary :
  preserves is_email VectorStore.world (EmailIndexer._index_email_with_metadata svc parsed summary).
Proof.
  unfold EmailIndexer._index_email_with_metadata.
  apply preserves_catch; [|intros; apply preserves_raise].
  destruct (1500 <? Z.of_nat (String.length (body_text parsed))).
  - destruct (EmailIndexer.body_chunks (body_text parsed)).
    + apply index_chunks_preserves.
    + apply preserves_raise.
  - apply preserves_mbind; [|intros; apply preserves_ret].
    apply add_email_preserves. intros d indexed_at. by apply built_is_email.
Qed.

Lemma store_email_preserves P email_id data :
  preserves P EmailStorage.world (EmailStorage.store_email email_id data).
Proof.
  intros [w es] H. unfold EmailStorage.store_email, catch, mbind, modify,
    EmailStorage._save_storage. simpl.
  destruct (disk_writable w), (failed_write_truncates w); simpl; exact H.
Qed.

Lemma mbind_never {S A B} (m : M S A) (k : A -> M S B) (b : B) s :
  (forall a s', fst (k a s') <> Ok b) -> fst (mbind m k s) <> Ok b.
Proof.
  intros Hk. unfold mbind. destruct (m s) as [[a|e] s']; simpl; [apply Hk|done].
Qed.

(** A mail with a body of more than 1500 characters is never skipped: if
    no stored document is filed under its id, processing it leaves the
    index so, and processing it again does not answer [Skipped]. *)
Lemma chunked_mail_never_skipped svc (mailbox : EmailIndexer.Mailbox) msg parsed st :
  mailbox msg = Some (Ok parsed) ->
  1500 < Z.of_nat (String.length (body_text parsed)) ->
  all_docs (not_under (id parsed)) (EmailIndexer.world st) ->
  let st' := snd (EmailIndexer.process_message svc mailbox msg st) in
  all_docs (not_under (id parsed)) (EmailIndexer.world st') /\
  fst (EmailIndexer.process_message svc mailbox msg st') <> Ok EmailIndexer.Skipped.
Proof.
  intros Hmsg Hlong Hnone. cbv zeta.
  assert (Hkeeps : preserves (not_under (id parsed)) EmailIndexer.world
                     (EmailIndexer.process_message svc mailbox msg)).
  { unfold EmailIndexer.process_message. rewrite Hmsg.
    change (mbind (lift (Ok parsed)) ?k) with (k parsed). cbv beta.
    apply preserves_mbind.
    { apply preserves_catch; [|intros; apply preserves_ret].
      apply (preserves_zoom _ _ VectorStore.world); [done|done|].
      unfold EmailIndexer.already_indexed.
      apply preserves_mbind; [intros s H; exact H|intros; apply preserves_ret]. }
    intros found. destruct found; [apply preserves_ret|].
    apply preserves_mbind.
    { apply (preserves_zoom _ _ VectorStore.world); [done|done|]. intros s H. exact H. }
    intros stored_at.
    apply preserves_mbind.
    { apply (preserves_zoom _ _ EmailStorage.world); [done|done|].
      apply store_email_preserves. }
    intros _.
    apply preserves_mbind; [|intros; apply preserves_ret].
    apply (preserves_zoom _ _ VectorStore.world); [done|done|].
    intros s.
    apply (chunked_mail_not_under svc
             (EmailIndexer.with_summary parsed
                (EmailIndexer._generate_email_summary svc parsed)
                (EmailIndexer._categorize_email (subject parsed) (body_text parsed)
                   (labels parsed))
                stored_at)).
    exact Hlong. }
  split; [by apply Hkeeps|].
  specialize (Hkeeps st Hnone).
  set (st' := snd (EmailIndexer.process_message svc mailbox msg st)) in *.
  unfold EmailIndexer.process_message. rewrite Hmsg.
  change (mbind (lift (Ok parsed)) ?k) with (k parsed). cbv beta.
  pose proof (already_indexed_none (id parsed) (EmailIndexer.vs_get st') Hkeeps) as Hprobe.
  unfold mbind at 1, catch, zoom.
  destruct (EmailIndexer.already_indexed (id parsed) (EmailIndexer.vs_get st'))
    as [[[|]|e] vst]; simpl in *; [done| |];
    repeat (apply mbind_never; intros); simpl; discriminate.
Qed.

Lemma process_message_preserves svc mailbox msg :
  preserves is_email EmailIndexer.world (EmailIndexer.process_message svc mailbox msg).
Proof.
  unfold EmailIndexer.process_message.
  destruct (mailbox msg) as [fetched|]; [|apply preserves_ret].
  apply preserves_mbind; [apply preserves_lift|intros parsed].
  apply preserves_mbind.
  { apply preserves_catch; [|intros; apply preserves_ret].
    apply (preserves_zoom _ _ VectorStore.world); [done|done|].
    unfold EmailIndexer.already_indexed.
    apply preserves_mbind; [intros st H; exact H|intros; apply preserves_ret]. }
  intros found. destruct found; [apply preserves_ret|].
  apply preserves_mbind.
  { apply (preserves_zoom _ _ VectorStore.world); [done|done|]. intros st H. exact H. }
  intros stored_at.
  apply preserves_mbind.
  { apply (preserves_zoom _ _ EmailStorage.world); [done|done|]. apply store_email_preserves. }
  intros _.
  apply preserves_mbind; [|intros; apply preserves_ret].
  apply (preserves_zoom _ _ VectorStore.world); [done|done|]. apply index_email_preserves.
Qed.

Lemma index_messages_preserves svc mailbox :
  forall messages a b c,
    preserves is_email EmailIndexer.world (EmailIndexer.index_messages svc mailbox messages a b c).
Proof.
  induction messages as [|msg rest IH]; intros a b c; simpl.
  - apply preserves_ret.
  - apply preserves_mbind.
    + apply preserves_catch; [|intros; apply preserves_ret].
      apply preserves_mbind; [apply process_message_preserves|intros; apply preserves_ret].
    + intros [[]|]; apply IH.
Qed.

Lemma run_indexing_preserves svc mailbox messages :
  preserves is_email EmailIndexer.world (EmailIndexer.run_indexing svc mailbox messages).
Proof.
  unfold EmailIndexer.run_indexing.
  apply preserves_catch; [|intros; apply preserves_raise].
  apply preserves_mbind; [apply index_messages_preserves|intros counts].
  apply preserves_mbind.
  { apply (preserves_zoom _ _ VectorStore.world); [done|done|]. intros st H. exact H. }
  intros now. apply preserves_mbind; [|intros; apply preserves_ret].
  intros st H. exact H.
Qed.

(** A search leaves the stored documents as they are. *)
Lemma semantic_search_docs svc query n filter st :
  Chroma.current_docs
    (chroma (VectorStore.world (snd (VectorStore.semantic_search svc query n filter st)))) =
  Chroma.current_docs (chroma (VectorStore.world st)).
Proof.
  destruct (VectorStore.ensure_current st) as (h & c & Hens & Hres & Hdocs).
  unfold VectorStore.semantic_search, catch, mbind at 1. rewrite Hens.
  unfold mbind, VectorStore.through_collection, Chroma.count, Chroma.query, lift, ret.
  simpl. rewrite Hres. simpl.
  destruct (_ =? 0); simpl; [by rewrite Hdocs|].
  destruct (generate_embedding svc query); simpl; [|by rewrite Hdocs].
  rewrite Hres. simpl. by rewrite Hdocs.
Qed.

Lemma semantic_search_preserves svc query n filter :
  preserves is_email VectorStore.world (VectorStore.semantic_search svc query n filter).
Proof. intros st H. unfold all_docs in *. by rewrite semantic_search_docs. Qed.

Lemma clear_all_data_preserves : preserves is_email VectorStore.world VectorStore.clear_all_data.
Proof.
  intros [[client file writable truncates n] vs] H.
  unfold VectorStore.clear_all_data, catch, mbind, modify, VectorStore.bind_collection,
    raise, Chroma.get_or_create_collection, Chroma.delete_collection. simpl.
  destruct (Chroma.named client) eqn:Hn; simpl; [|exact H].
  unfold all_docs. simpl. constructor.
Qed.

Lemma clear_all_preserves : preserves is_email EmailStorage.world EmailStorage.clear_all.
Proof.
  intros [w es] H. unfold EmailStorage.clear_all, mbind, modify,
    EmailStorage._save_storage. simpl.
  destruct (disk_writable w), (failed_write_truncates w); simpl; exact H.
Qed.

(** Learning from an interaction does not touch the index at all. *)
Lemma learn_keeps_index svc threshold user_query assistant_response sender st :
  chroma (MemoryManager.world
            (snd (MemoryManager.learn_from_interaction svc threshold user_query
                    assistant_response sender st))) =
  chroma (MemoryManager.world st).
Proof. by destruct st as [[client file writable truncates n] mm]. Qed.

Lemma recall_preserves svc query :
  preserves is_email world (_recall_conversation svc query).
Proof.
  unfold _recall_conversation.
  apply preserves_catch; [|intros; apply preserves_ret].
  apply preserves_mbind.
  - unfold MemoryManager.get_relevant_memory.
    apply (preserves_zoom _ _ MemoryManager.world); [done|done|].
    apply (preserves_zoom _ _ VectorStore.world); [done|done|].
    apply semantic_search_preserves.
  - intros results. destruct (Chroma.documents results) as [|first ?];
      [apply preserves_ret|]. destruct (Py.truthy first); apply preserves_ret.
Qed.

Lemma world_step_only_emails svc threshold w w' :
  world_step svc threshold w w' -> only_emails w -> only_emails w'.
Proof.
  intros Hstep H. destruct Hstep.
  - by apply (run_indexing_preserves svc mailbox messages
                {| EmailIndexer.world := w; EmailIndexer.self := ix |}).
  - by apply (semantic_search_preserves svc query n filter
                {| VectorStore.world := w; VectorStore.self := vs |}).
  - unfold only_emails, all_docs. by rewrite learn_keeps_index.
  - by apply (recall_preserves svc query {| world := w; self := ag |}).
  - by apply (clear_all_data_preserves {| VectorStore.world := w; VectorStore.self := vs |}).
  - by apply (clear_all_preserves {| EmailStorage.world := w; EmailStorage.self := es |}).
Qed.

Lemma reachable_only_emails svc threshold w :
  reachable svc threshold w -> only_emails w.
Proof. induction 1; [done|]. by eapply world_step_only_emails. Qed.

Lemma recall_answer svc query (st : AgentSt) :
  Chroma.ranking_sound (ranking svc) ->
  fst (_recall_conversation svc query st) = Ok nothing_found \/
  exists hits,
    hits <> [] /\
    (forall d, In d hits -> In d (Chroma.current_docs (chroma (world st)))) /\
    fst (_recall_conversation svc query st) =
      Ok (render_recalled (List.map Chroma.document hits)).
Proof.
  intros Hsound.
  set (vst := MemoryManager.vs_get (mm_get st)).
  pose proof (VectorStore.semantic_search_answer svc vst query 3 None) as Hrun.
  cbv zeta in Hrun.
  assert (Hw : Chroma.current_docs (chroma (VectorStore.world vst)) =
               Chroma.current_docs (chroma (world st))) by done.
  rewrite Hw in Hrun.
  unfold _recall_conversation, catch, mbind, MemoryManager.get_relevant_memory, zoom.
  fold vst.
  destruct (VectorStore.semantic_search svc query 3 None vst) as [r vst'].
  simpl in Hrun. subst r. simpl.
  assert (Hsub : forall e hit,
            In hit (ranking svc e
                      (List.filter (Chroma.matches_opt None)
                         (Chroma.current_docs (chroma (world st))))) ->
            In (fst hit) (Chroma.current_docs (chroma (world st)))).
  { intros e hit Hin. apply Hsound in Hin. by apply filter_In in Hin as [Hin _]. }
  destruct (Py.len (Chroma.current_docs (chroma (world st))) =? 0); simpl; [by left|].
  destruct (generate_embedding svc query) as [e|]; simpl; [|by left].
  set (hits := take _ _).
  destruct hits as [|h hits'] eqn:Hhits; simpl; [by left|].
  right. exists (List.map fst (h :: hits')). split; [done|]. split.
  - intros d Hin. apply in_map_iff in Hin as (hit & <- & Hin).
    assert (Hin' : In hit hits) by (by rewrite Hhits).
    unfold hits in Hin'. apply list_elem_of_In, elem_of_take in Hin' as (i & Hi & _).
    apply list_elem_of_lookup_2, list_elem_of_In in Hi.
    by apply (Hsub e).
  - simpl. by rewrite List.map_map.
Qed.

(** C10: [get_relevant_memory] is a semantic search without any filter, and
    [learn_from_interaction] leaves the index untouched.  On a machine
    reached by normal use and maintenance from one whose index holds only
    mail, and with an index that answers with stored documents, the recall
    tool answers either with the nothing-found message or with lines
    rendered from stored documents whose [content_type] is [email]: never
    from a conversation turn. *)
Theorem recall_returns_only_emails (svc : Services) (threshold : Z) (w : World) :
  Chroma.ranking_sound (ranking svc) ->
  reachable svc threshold w ->
  (forall query n,
     MemoryManager.get_relevant_memory svc query n =
     zoom MemoryManager.vs_get MemoryManager.vs_set
       (VectorStore.semantic_search svc query n None)) /\
  (forall mm user_query assistant_response sender,
     chroma (MemoryManager.world
               (snd (MemoryManager.learn_from_interaction svc threshold user_query
                       assistant_response sender
                       {| MemoryManager.world := w; MemoryManager.self := mm |}))) =
     chroma w) /\
  (forall (ag : Agent) (query : string),
     let answer := fst (_recall_conversation svc query {| world := w; self := ag |}) in
     answer = Ok nothing_found \/
     exists hits,
       hits <> [] /\
       (forall d, In d hits ->
          In d (Chroma.current_docs (chroma w)) /\
          Chroma.metadata d !! "content_type" = Some (Chroma.MStr "email")) /\
       answer = Ok (render_recalled (List.map Chroma.document hits))).
Proof.
  intros Hsound Hreach. split; [done|]. split.
  - intros mm user_query assistant_response sender.
    apply (learn_keeps_index svc threshold user_query assistant_response sender
             {| MemoryManager.world := w; MemoryManager.self := mm |}).
  - intros ag query. cbv zeta.
    destruct (recall_answer svc query {| world := w; self := ag |} Hsound)
      as [Hnone|(hits & Hne & Hin & Hans)]; [by left|].
    right. exists hits. split; [done|]. split; [|done].
    intros d Hd. split; [by apply Hin|].
    pose proof (reachable_only_emails svc threshold w Hreach) as Honly.
    unfold only_emails, all_docs in Honly. rewrite List.Forall_forall in Honly.
    apply Honly. by apply Hin.
Qed.

Lemma demo_ranking_sound : Chroma.ranking_sound (ranking demo_services).
Proof.
  intros e ds hit Hin. simpl in Hin. apply in_map_iff in Hin as (d & <- & Hd). exact Hd.
Qed.

(** The machine of [demo_agent] is reached by one indexing pass from a
    machine on which nothing was indexed. *)
Lemma demo_reachable : reachable demo_services 20 (world demo_agent).
Proof.
  apply (reach_step _ _ (EmailIndexer.world (EmailIndexer.init fresh_world))).
  - apply reach_start. constructor.
  - exact (ws_index demo_services 20
             (EmailIndexer.self (EmailIndexer.init fresh_world))
             EmailIndexer.demo_mailbox ["m1"; "m2"]
             (EmailIndexer.world (EmailIndexer.init fresh_world))).
Qed.

Lemma recall_returns_only_emails_witness :
  fst (_recall_conversation demo_services "deadline" demo_agent) = Ok nothing_found \/
  exists hits,
    hits <> [] /\
    (forall d, In d hits ->
       In d (Chroma.current_docs (chroma (world demo_agent))) /\
       Chroma.metadata d !! "content_type" = Some (Chroma.MStr "email")) /\
    fst (_recall_conversation demo_services "deadline" demo_agent) =
      Ok (render_recalled (List.map Chroma.document hits)).
Proof.
  vm_cast_no_check
    (proj2 (proj2 (recall_returns_only_emails demo_services 20 (world demo_agent)
                     demo_ranking_sound demo_reachable))
       (self demo_agent) "deadline"%string).
Defined.

End Assistant.

(** ** The indexer and its two stores together *)

Module Indexing.
Import Effects Env.
Local Open Scope py_scope.

(** The documents stored under the collection name. *)
Definition stored (w : World) : list Chroma.Document :=
  Chroma.current_docs (chroma w).

(** [m] removes and changes no stored document, and every document it adds
    satisfies [Q]. *)
Definition appends {S A} (Q : Chroma.Document -> Prop) (world_of : S -> World)
    (m : M S A) : Prop :=
  forall s, exists new,
    stored (world_of (snd (m s))) = stored (world_of s) ++ new /\ Forall Q new.

Section Appends.
Context {S : Type} (Q : Chroma.Document -> Prop) (world_of : S -> World).

Lemma appends_keep {A} (m : M S A) :
  (forall s, stored (world_of (snd (m s))) = stored (world_of s)) ->
  appends Q world_of m.
Proof. intros H s. exists []. rewrite app_nil_r. split; [apply H|constructor]. Qed.

Lemma appends_ret {A} (a : A) : appends Q world_of (ret a).
Proof. by apply appends_keep. Qed.

Lemma appends_raise {A} e : appends Q world_of (@raise S A e).
Proof. by apply appends_keep. Qed.

Lemma appends_lift {A} (r : result A) : appends Q world_of (lift r).
Proof. by apply appends_keep. Qed.

Lemma appends_mbind {A B} (m : M S A) (k : A -> M S B) :
  appends Q world_of m -> (forall a, appends Q world_of (k a)) ->
  appends Q world_of (mbind m k).
Proof.
  intros Hm Hk s. unfold mbind. destruct (Hm s) as (new1 & H1 & HQ1).
  destruct (m s) as [[a|e] s']; cbn in *.
  - destruct (Hk a s') as (new2 & H2 & HQ2).
    exists (new1 ++ new2). rewrite H2, H1, app_assoc. split; [done|].
    by apply Forall_app.
  - by exists new1.
Qed.

Lemma appends_catch {A} (m : M S A) (h : string -> M S A) :
  appends Q world_of m -> (forall e, appends Q world_of (h e)) ->
  appends Q world_of (catch m h).
Proof.
  intros Hm Hh s. unfold catch. destruct (Hm s) as (new1 & H1 & HQ1).
  destruct (m s) as [[a|e] s']; cbn in *.
  - by exists new1.
  - destruct (Hh e s') as (new2 & H2 & HQ2).
    exists (new1 ++ new2). rewrite H2, H1, app_assoc. split; [done|].
    by apply Forall_app.
Qed.

Lemma appends_zoom {T A} (world_of' : T -> World) (get : S -> T) (set : T -> S -> S)
    (m : M T A) :
  (forall s, world_of' (get s) = world_of s) ->
  (forall t s, world_of (set t s) = world_of' t) ->
  appends Q world_of' m -> appends Q world_of (zoom get set m).
Proof.
  intros Hget Hset Hm s. unfold zoom.
  destruct (Hm (get s)) as (new & H & HQ). rewrite Hget in H.
  destruct (m (get s)) as [r t']. cbn in *. exists new. by rewrite Hset.
Qed.

End Appends.

Lemma appends_weaken {S A} (Q Q' : Chroma.Document -> Prop) (world_of : S -> World)
    (m : M S A) :
  (forall d, Q d -> Q' d) -> appends Q world_of m -> appends Q' world_of m.
Proof.
  intros HQ Hm s. destruct (Hm s) as (new & H & Hnew).
  exists new. split; [done|]. eapply Forall_impl; eauto.
Qed.

(** What [add_email] appends is the document it builds. *)
Lemma add_email_appends Q svc email_id subject body sender recipients date labels
    attachments thread_id additional :
  (forall d indexed_at,
     Chroma.metadata d =
       VectorStore.merge_metadata
         (VectorStore.email_metadata email_id subject sender recipients date labels
            attachments thread_id indexed_at) additional ->
     Chroma.document d = VectorStore.combined_text subject sender body ->
     Q d) ->
  appends Q VectorStore.world
    (VectorStore.add_email svc email_id subject body sender recipients date labels
       attachments thread_id additional).
Proof.
  intros Hnew st.
  pose proof (VectorStore.add_email_run svc st email_id subject body sender recipients
                date labels attachments thread_id additional) as Hrun.
  cbv zeta in Hrun. unfold stored.
  destruct (generate_embedding svc _) as [e|err].
  - destruct Hrun as [_ ->]. eexists. split; [reflexivity|].
    constructor; [|constructor]. by eapply Hnew.
  - destruct Hrun as [_ ->]. exists []. by rewrite app_nil_r.
Qed.

(** *** What one mail leaves in the index *)

(** The document belongs to the mail: it is mail content, names the mail
    in [original_email_id], and says whether it is a chunk. *)
Definition linked (parsed : ParsedEmail) (d : Chroma.Document) : Prop :=
  Chroma.metadata d !! "content_type" = Some (Chroma.MStr "email") /\
  Chroma.metadata d !! "original_email_id" = Some (Chroma.MStr (id parsed)) /\
  Chroma.metadata d !! "is_chunked" =
    Some (Chroma.MBool (1500 <? Z.of_nat (String.length (body_text parsed)))).

(** The texts [_index_email_with_metadata] hands to [add_email]: the
    chunks of a long body, a short body whole. *)
Definition texts_of (parsed : ParsedEmail) : option (list string) :=
  if 1500 <? Z.of_nat (String.length (body_text parsed))
  then EmailIndexer.body_chunks (body_text parsed)
  else Some [body_text parsed].

Lemma length_list_ascii_of_string (s : string) :
  length (list_ascii_of_string s) = String.length s.
Proof. induction s as [|c s IH]; cbn; [done|]. by rewrite IH. Qed.

(** Chunking a body with window 1200 and overlap 150 returns. *)
Lemma body_chunks_returns (body : string) :
  exists chunks, EmailIndexer.body_chunks body = Some chunks.
Proof.
  unfold EmailIndexer.body_chunks, TextProcessing.chunk_text.
  destruct (negb _ || _); [by eexists|].
  destruct (TextProcessing.chunk_loop_terminates (list_ascii_of_string body) 1200 150
              ltac:(lia) (String.length body) 0 []) as (out & -> & _).
  - unfold Py.len. rewrite length_list_ascii_of_string. lia.
  - by eexists.
Qed.

Lemma chunk_linked parsed summary i total chunk d indexed_at :
  1500 < Z.of_nat (String.length (body_text parsed)) ->
  Chroma.metadata d =
    VectorStore.merge_metadata
      (VectorStore.email_metadata (id parsed ++ "_chunk_" ++ pretty i)
         (subject parsed) (from parsed) (to parsed) (date parsed) (labels parsed)
         (attachments parsed) (Some (thread_id parsed)) indexed_at)
      (EmailIndexer.chunk_metadata (EmailIndexer.enhanced_metadata parsed summary)
         (id parsed) i total chunk) ->
  linked parsed d.
Proof.
  intros Hlong Hd. unfold linked. rewrite Hd, !VectorStore.merge_metadata_last.
  destruct (Z.ltb_spec 1500 (Z.of_nat (String.length (body_text parsed)))); [|lia].
  cbn. split; [|done]. apply Assistant.email_metadata_content_type.
Qed.

Lemma whole_linked parsed summary d indexed_at :
  Z.of_nat (String.length (body_text parsed)) <= 1500 ->
  Chroma.metadata d =
    VectorStore.merge_metadata
      (VectorStore.email_metadata (id parsed)
         (subject parsed) (from parsed) (to parsed) (date parsed) (labels parsed)
         (attachments parsed) (Some (thread_id parsed)) indexed_at)
      (EmailIndexer.enhanced_metadata parsed summary) ->
  linked parsed d.
Proof.
  intros Hshort Hd. unfold linked. rewrite Hd, !VectorStore.merge_metadata_last.
  destruct (Z.ltb_spec 1500 (Z.of_nat (String.length (body_text parsed)))); [lia|].
  cbn. split; [|done]. apply Assistant.email_metadata_content_type.
Qed.

(** One [add_email] after another: what is stored, when the loop returns,
    and that it returns when every embedding call does. *)
Lemma index_chunks_run svc parsed summary total :
  1500 < Z.of_nat (String.length (body_text parsed)) ->
  forall chunks i st,
    let out := EmailIndexer.index_chunks svc parsed
                 (EmailIndexer.enhanced_metadata parsed summary) total i chunks st in
    exists new,
      stored (VectorStore.world (snd out)) = stored (VectorStore.world st) ++ new /\
      Forall (linked parsed) new /\
      (fst out = Ok tt ->
       List.map Chroma.document new =
         List.map (VectorStore.combined_text (subject parsed) (from parsed)) chunks) /\
      ((forall text, exists e, generate_embedding svc text = Ok e) -> fst out = Ok tt).
Proof.
  intros Hlong. induction chunks as [|chunk rest IH]; intros i st; cbn zeta.
  - exists []. cbn. rewrite app_nil_r. repeat split; done.
  - cbn [EmailIndexer.index_chunks]. unfold mbind.
    pose proof (VectorStore.add_email_run svc st
                  (id parsed ++ "_chunk_" ++ pretty i)%string
                  (subject parsed) chunk (from parsed) (to parsed) (date parsed)
                  (labels parsed) (attachments parsed) (Some (thread_id parsed))
                  (EmailIndexer.chunk_metadata
                     (EmailIndexer.enhanced_metadata parsed summary)
                     (id parsed) i total chunk)) as Hrun.
    cbv zeta in Hrun.
    destruct (VectorStore.add_email _ _ _ _ _ _ _ _ _ _ _ st) as [r st1].
    cbn [fst snd] in Hrun.
    destruct (generate_embedding svc
                (VectorStore.combined_text (subject parsed) (from parsed) chunk))
      as [e|err] eqn:He.
    + destruct Hrun as [-> Hdocs].
      destruct (IH (Datatypes.S i) st1) as (new & Hnew & Hlinked & Hok & Hall).
      eexists (_ :: new). unfold stored in *. rewrite Hnew, Hdocs, <- app_assoc.
      split; [reflexivity|]. split.
      { constructor; [|done]. by eapply chunk_linked. }
      split.
      { intros Hfst. cbn. f_equal. by apply Hok. }
      exact Hall.
    + destruct Hrun as [-> Hdocs]. exists []. unfold stored. rewrite app_nil_r.
      split; [done|]. split; [constructor|]. split; [discriminate|].
      intros Hall. destruct (Hall (VectorStore.combined_text (subject parsed)
                                     (from parsed) chunk)) as [e He'].
      congruence.
Qed.

(** X19: [_index_email_with_metadata] removes and changes no stored
    document; every document it adds is mail content that names the mail
    in [original_email_id] and says in [is_chunked] whether the body was
    longer than 1500 characters.  When it returns, it has added one
    document per chunk of a long body, in order, and exactly one for a
    short body; it returns whenever every embedding call does (the
    chunking of the body always ends).  When an embedding call raises,
    the documents added before it stay. *)
Theorem index_email_stores_chunks (svc : Services) (parsed : ParsedEmail)
    (summary : string) (st : VectorStore.St) :
  let out := EmailIndexer._index_email_with_metadata svc parsed summary st in
  exists new,
    stored (VectorStore.world (snd out)) = stored (VectorStore.world st) ++ new /\
    Forall (linked parsed) new /\
    (fst out = Ok tt ->
     exists texts,
       texts_of parsed = Some texts /\
       List.map Chroma.document new =
         List.map (VectorStore.combined_text (subject parsed) (from parsed)) texts) /\
    ((forall text, exists e, generate_embedding svc text = Ok e) -> fst out = Ok tt).
Proof.
  cbv zeta. unfold EmailIndexer._index_email_with_metadata, texts_of, catch.
  destruct (Z.ltb_spec 1500 (Z.of_nat (String.length (body_text parsed)))) as [Hlong|Hshort].
  - destruct (body_chunks_returns (body_text parsed)) as [chunks ->].
    destruct (index_chunks_run svc parsed summary (length chunks) Hlong chunks 0%nat st)
      as (new & Hnew & Hlinked & Hok & Hall).
    destruct (EmailIndexer.index_chunks _ _ _ _ _ _ st) as [[[]|err] st1]; cbn in *.
    + exists new. repeat split; try done. intros _. exists chunks. split; [done|].
      by apply Hok.
    + exists new. repeat split; try done.
  - unfold mbind.
    pose proof (VectorStore.add_email_run svc st (id parsed)
                  (subject parsed) (body_text parsed) (from parsed) (to parsed)
                  (date parsed) (labels parsed) (attachments parsed)
                  (Some (thread_id parsed))
                  (EmailIndexer.enhanced_metadata parsed summary)) as Hrun.
    cbv zeta in Hrun.
    destruct (VectorStore.add_email _ _ _ _ _ _ _ _ _ _ _ st) as [r st1].
    cbn [fst snd] in Hrun.
    destruct (generate_embedding svc
                (VectorStore.combined_text (subject parsed) (from parsed)
                   (body_text parsed))) as [e|err] eqn:He.
    + destruct Hrun as [-> Hdocs]. cbn. eexists [_]. unfold stored.
      split; [exact Hdocs|]. split.
      { constructor; [|constructor]. by eapply whole_linked. }
      split; [|done]. intros _. by eexists.
    + destruct Hrun as [-> Hdocs]. cbn. exists []. unfold stored. rewrite app_nil_r.
      split; [done|]. split; [constructor|]. split; [discriminate|].
      intros Hall. destruct (Hall (VectorStore.combined_text (subject parsed)
                                     (from parsed) (body_text parsed))) as [e He'].
      congruence.
Qed.

Lemma index_email_stores_chunks_witness :
  fst (EmailIndexer._index_email_with_metadata demo_services EmailIndexer.long_mail
         "A short summary." VectorStore.demo_store) = Ok tt.
Proof.
  destruct (index_email_stores_chunks demo_services EmailIndexer.long_mail
              "A short summary." VectorStore.demo_store) as (new & _ & _ & _ & Hall).
  apply Hall. intros text. by exists [1; 2; 3].
Defined.

(** *** A pass only appends *)

Lemma ensure_appends Q :
  appends Q VectorStore.world VectorStore._ensure_collection_exists.
Proof.
  apply appends_keep. intros st.
  destruct (VectorStore.ensure_current st) as (h & c & -> & _ & Hdocs). exact Hdocs.
Qed.

Lemma index_chunks_appends svc parsed summary total :
  1500 < Z.of_nat (String.length (body_text parsed)) ->
  forall chunks i,
    appends (linked parsed) VectorStore.world
      (EmailIndexer.index_chunks svc parsed
         (EmailIndexer.enhanced_metadata parsed summary) total i chunks).
Proof.
  intros Hlong. induction chunks as [|chunk rest IH]; intros i;
    cbn [EmailIndexer.index_chunks].
  - apply appends_ret.
  - apply appends_mbind; [|intros _; apply IH].
    apply add_email_appends. intros d indexed_at Hd _. by eapply chunk_linked.
Qed.

Lemma index_email_appends svc parsed summary :
  appends (linked parsed) VectorStore.world
    (EmailIndexer._index_email_with_metadata svc parsed summary).
Proof.
  unfold EmailIndexer._index_email_with_metadata.
  apply appends_catch; [|intros; apply appends_raise].
  destruct (Z.ltb_spec 1500 (Z.of_nat (String.length (body_text parsed)))).
  - destruct (EmailIndexer.body_chunks (body_text parsed)).
    + by apply index_chunks_appends.
    + apply appends_raise.
  - apply appends_mbind; [|intros; apply appends_ret].
    apply add_email_appends. intros d indexed_at Hd _. by eapply whole_linked.
Qed.

Lemma store_email_appends Q email_id data :
  appends Q EmailStorage.world (EmailStorage.store_email email_id data).
Proof.
  apply appends_keep. intros [w es].
  unfold EmailStorage.store_email, catch, mbind, modify, EmailStorage._save_storage. cbn.
  by destruct (disk_writable w), (failed_write_truncates w).
Qed.

(** The documents a pass may add for [msg]: those of the mail the mailbox
    has under that id. *)
Definition from_mailbox (mailbox : EmailIndexer.Mailbox) (msg : string)
    (d : Chroma.Document) : Prop :=
  exists parsed, mailbox msg = Some (Ok parsed) /\ linked parsed d.

Lemma process_message_appends svc mailbox msg :
  appends (from_mailbox mailbox msg) EmailIndexer.world
    (EmailIndexer.process_message svc mailbox msg).
Proof.
  unfold EmailIndexer.process_message.
  destruct (mailbox msg) as [[parsed|err]|] eqn:Hmsg;
    [|by apply appends_keep|apply appends_ret].
  change (mbind (lift (Ok parsed)) ?k) with (k parsed). cbv beta.
  apply appends_mbind.
  { apply appends_catch; [|intros; apply appends_ret].
    apply (appends_zoom _ _ VectorStore.world); [done|done|].
    apply appends_keep. intros s.
    unfold EmailIndexer.already_indexed, mbind, VectorStore.through_collection. cbn.
    by destruct (Chroma.get _ _ _ _). }
  intros found. destruct found; [apply appends_ret|].
  apply appends_mbind.
  { apply (appends_zoom _ _ VectorStore.world); [done|done|]. by apply appends_keep. }
  intros stored_at.
  apply appends_mbind.
  { apply (appends_zoom _ _ EmailStorage.world); [done|done|]. apply store_email_appends. }
  intros _.
  apply appends_mbind; [|intros; apply appends_ret].
  apply (appends_zoom _ _ VectorStore.world); [done|done|].
  eapply appends_weaken; [|apply index_email_appends].
  intros d Hd. exists parsed. split; [exact Hmsg|exact Hd].
Qed.

Lemma index_messages_appends svc mailbox :
  forall messages a b c,
    appends (fun d => exists msg, In msg messages /\ from_mailbox mailbox msg d)
      EmailIndexer.world (EmailIndexer.index_messages svc mailbox messages a b c).
Proof.
  induction messages as [|msg rest IH]; intros a b c; cbn [EmailIndexer.index_messages].
  - apply appends_ret.
  - apply appends_mbind.
    + apply appends_catch; [|intros; apply appends_ret].
      apply appends_mbind; [|intros; apply appends_ret].
      eapply appends_weaken; [|apply process_message_appends].
      intros d Hd. exists msg. split; [by left|exact Hd].
    + intros o.
      assert (Hrest : forall a b c,
                appends (fun d => exists m, In m (msg :: rest) /\ from_mailbox mailbox m d)
                  EmailIndexer.world (EmailIndexer.index_messages svc mailbox rest a b c)).
      { intros a' b' c'. eapply appends_weaken; [|apply IH].
        intros d (m & Hin & Hd). exists m. split; [by right|exact Hd]. }
      destruct o as [[|]|]; apply Hrest.
Qed.

(** X20: an indexing pass removes and changes no stored document.  Every
    document it adds belongs to a listed message the mailbox returned: it
    is mail content carrying that mail's id in [original_email_id]. *)
Theorem run_indexing_appends (svc : Services) (mailbox : EmailIndexer.Mailbox)
    (messages : list string) (st : EmailIndexer.St) :
  exists new,
    stored (EmailIndexer.world (snd (EmailIndexer.run_indexing svc mailbox messages st))) =
      stored (EmailIndexer.world st) ++ new /\
    Forall (fun d => exists msg parsed,
              In msg messages /\ mailbox msg = Some (Ok parsed) /\ linked parsed d) new.
Proof.
  assert (H : appends (fun d => exists msg, In msg messages /\ from_mailbox mailbox msg d)
                EmailIndexer.world (EmailIndexer.run_indexing svc mailbox messages)).
  { unfold EmailIndexer.run_indexing.
    apply appends_catch; [|intros; apply appends_raise].
    apply appends_mbind; [apply index_messages_appends|intros counts].
    apply appends_mbind.
    { apply (appends_zoom _ _ VectorStore.world); [done|done|]. by apply appends_keep. }
    intros now. apply appends_mbind; [by apply appends_keep|intros; apply appends_ret]. }
  destruct (H st) as (new & Hnew & HQ). exists new. split; [exact Hnew|].
  eapply Forall_impl; [exact HQ|]. intros d (msg & Hin & parsed & Hmsg & Hd). eauto.
Qed.

(** *** The dedupe probe after a short mail *)

(** After [add_email] returned, the object's handle is current. *)
Lemma add_email_handle svc st email_id subject body sender recipients date labels
    attachments thread_id additional doc_id :
  let out := VectorStore.add_email svc email_id subject body sender recipients date
               labels attachments thread_id additional st in
  fst out = Ok doc_id ->
  exists col,
    Chroma.resolve (chroma (VectorStore.world (snd out)))
      (VectorStore.collection (VectorStore.self (snd out))) = Ok col /\
    Chroma.docs col = stored (VectorStore.world (snd out)).
Proof.
  cbv zeta.
  destruct (VectorStore.ensure_current st) as (h & c & Hens & Hres & Hdocs).
  destruct (VectorStore.add_email _ _ _ _ _ _ _ _ _ _ _ st) as [r st'] eqn:E.
  unfold VectorStore.add_email, catch, mbind at 1 in E. rewrite Hens in E.
  unfold mbind, lift, VectorStore.read_clock, VectorStore.draw_uuid,
    VectorStore.through_collection, modify, ret, VectorStore.with_world,
    Chroma.add in E. cbn in E.
  destruct (generate_embedding svc _) as [e|err]; cbn in E.
  - rewrite Hres in E. cbn in E. injection E as <- <-. cbn. intros _.
    unfold Chroma.resolve, stored, Chroma.current_docs. cbn.
    rewrite Nat.eqb_refl. by eexists.
  - injection E as <- <-. discriminate.
Qed.

(** The probe finds a document filed under the id through a current
    handle. *)
Lemma probe_found email_id st col :
  Chroma.resolve (chroma (VectorStore.world st))
    (VectorStore.collection (VectorStore.self st)) = Ok col ->
  Exists (fun d => Chroma.metadata d !! "email_id" = Some (Chroma.MStr email_id))
    (Chroma.docs col) ->
  EmailIndexer.already_indexed email_id st = (Ok true, st).
Proof.
  intros Hres Hex.
  unfold EmailIndexer.already_indexed, mbind, VectorStore.through_collection,
    Chroma.get, bind, ret.
  rewrite Hres. cbn.
  induction Hex as [d l Hd|d l _ IH]; cbn.
  - by rewrite (bool_decide_eq_true_2 _ Hd).
  - destruct (bool_decide _); [done|]. exact IH.
Qed.

Lemma short_mail_found svc parsed summary st :
  Z.of_nat (String.length (body_text parsed)) <= 1500 ->
  let out := EmailIndexer._index_email_with_metadata svc parsed summary st in
  fst out = Ok tt ->
  EmailIndexer.already_indexed (id parsed) (snd out) = (Ok true, snd out).
Proof.
  intros Hshort. cbv zeta.
  unfold EmailIndexer._index_email_with_metadata, catch, mbind.
  destruct (Z.ltb_spec 1500 (Z.of_nat (String.length (body_text parsed)))); [lia|].
  pose proof (VectorStore.add_email_run svc st (id parsed)
                (subject parsed) (body_text parsed) (from parsed) (to parsed)
                (date parsed) (labels parsed) (attachments parsed)
                (Some (thread_id parsed))
                (EmailIndexer.enhanced_metadata parsed summary)) as Hrun.
  pose proof (add_email_handle svc st (id parsed)
                (subject parsed) (body_text parsed) (from parsed) (to parsed)
                (date parsed) (labels parsed) (attachments parsed)
                (Some (thread_id parsed))
                (EmailIndexer.enhanced_metadata parsed summary)) as Hhandle.
  cbv zeta in Hrun, Hhandle.
  destruct (VectorStore.add_email _ _ _ _ _ _ _ _ _ _ _ st) as [[doc_id|err] st1];
    cbn [fst snd] in *; [|discriminate].
  intros _. destruct (Hhandle doc_id eq_refl) as (col & Hres & Hcol).
  apply (probe_found _ _ col Hres). rewrite Hcol.
  destruct (generate_embedding svc _) as [e|err]; [|by destruct Hrun].
  destruct Hrun as [_ Hdocs]. unfold stored. rewrite Hdocs.
  apply Exists_app. right. constructor. cbn [Chroma.metadata].
  rewrite VectorStore.merge_metadata_last. cbn.
  apply Assistant.email_metadata_email_id.
Qed.

(** The state [process_message] ends in when it answers [Indexed]: that
    of [_index_email_with_metadata] for the mail, returned normally. *)
Lemma process_message_indexed svc (mailbox : EmailIndexer.Mailbox) msg parsed st :
  mailbox msg = Some (Ok parsed) ->
  let out := EmailIndexer.process_message svc mailbox msg st in
  fst out = Ok EmailIndexer.Indexed ->
  exists parsed' summary vst,
    id parsed' = id parsed /\ body_text parsed' = body_text parsed /\
    fst (EmailIndexer._index_email_with_metadata svc parsed' summary vst) = Ok tt /\
    EmailIndexer.vs_get (snd out) =
      snd (EmailIndexer._index_email_with_metadata svc parsed' summary vst) /\
    EmailStorage.get_email (EmailIndexer.email_storage (EmailIndexer.self (snd out)))
      (id parsed) = Some (EmailStorage.to_record (id parsed) parsed').
Proof.
  intros Hmsg. cbv zeta.
  destruct (EmailIndexer.process_message svc mailbox msg st) as [r st'] eqn:E.
  cbn [fst snd]. intros ->. revert E.
  unfold EmailIndexer.process_message. rewrite Hmsg.
  change (mbind (lift (Ok parsed)) ?k) with (k parsed). cbv beta.
  unfold mbind at 1.
  destruct (catch _ _ st) as [[[|]|err] st1]; [discriminate| |discriminate].
  unfold mbind at 1, zoom at 1, VectorStore.read_clock at 1. cbn [fst snd].
  set (st2 := EmailIndexer.vs_set _ st1).
  set (stored_at := now_iso svc _).
  set (parsed' := EmailIndexer.with_summary parsed _ _ stored_at).
  unfold mbind at 1, zoom at 1.
  destruct (EmailStorage.store_email (id parsed') parsed' (EmailIndexer.es_get st2))
    as [r est] eqn:Hstore.
  assert (Hr : r = Ok tt /\
               EmailStorage.get_email (EmailStorage.self est) (id parsed) =
                 Some (EmailStorage.to_record (id parsed) parsed')).
  { revert Hstore. unfold EmailStorage.store_email, catch, mbind, modify,
      EmailStorage._save_storage, EmailStorage.get_email. cbn.
    destruct (disk_writable _); [|destruct (failed_write_truncates _)]; cbn;
      intros [= <- <-]; cbn;
      by rewrite lookup_insert_eq. }
  destruct Hr as [-> Hget]. cbn [fst snd].
  set (st3 := EmailIndexer.es_set est st2).
  unfold mbind at 1, zoom at 1.
  destruct (EmailIndexer._index_email_with_metadata svc parsed' _ (EmailIndexer.vs_get st3))
    as [[[]|err] vst'] eqn:Hindex; cbn [fst snd ret]; [|discriminate].
  intros [= <-]. exists parsed', (EmailIndexer._generate_email_summary svc parsed),
    (EmailIndexer.vs_get st3).
  rewrite Hindex. cbn. repeat split; [by destruct vst' as [? []]|exact Hget].
Qed.

(** X21: once [process_message] has indexed a mail whose body has at most
    1500 characters, the same indexer object skips every later message
    with that id: the dedupe probe finds the document, the pass answers
    [Skipped] and changes nothing (no model call, no write). *)
Theorem short_mail_skipped_next_time (svc : Services) (mailbox : EmailIndexer.Mailbox)
    (msg : string) (parsed : ParsedEmail) (st : EmailIndexer.St) :
  mailbox msg = Some (Ok parsed) ->
  Z.of_nat (String.length (body_text parsed)) <= 1500 ->
  let out := EmailIndexer.process_message svc mailbox msg st in
  fst out = Ok EmailIndexer.Indexed ->
  forall svc' (mailbox' : EmailIndexer.Mailbox) msg' parsed',
    mailbox' msg' = Some (Ok parsed') ->
    id parsed' = id parsed ->
    EmailIndexer.process_message svc' mailbox' msg' (snd out) =
      (Ok EmailIndexer.Skipped, snd out).
Proof.
  intros Hmsg Hshort. cbv zeta. intros Hindexed svc' mailbox' msg' parsed' Hmsg' Hid.
  destruct (process_message_indexed svc mailbox msg parsed st Hmsg Hindexed)
    as (p & summary & vst & Hpid & Hpbody & Hok & Hvs & _).
  pose proof (short_mail_found svc p summary vst ltac:(rewrite Hpbody; exact Hshort) Hok)
    as Hprobe.
  cbv zeta in Hprobe. rewrite <- Hvs, Hpid in Hprobe.
  destruct (EmailIndexer.process_message svc mailbox msg st) as [r [w [vs es t]]].
  cbn [snd] in *.
  unfold EmailIndexer.process_message. rewrite Hmsg'.
  change (mbind (lift (Ok parsed')) ?k) with (k parsed'). cbv beta.
  unfold mbind at 1, catch, zoom. rewrite Hid, Hprobe. reflexivity.
Qed.

Lemma short_mail_skipped_next_time_witness :
  EmailIndexer.process_message demo_services EmailIndexer.demo_mailbox "m2"
    (snd (EmailIndexer.process_message demo_services EmailIndexer.demo_mailbox "m2"
            (EmailIndexer.init fresh_world))) =
  (Ok EmailIndexer.Skipped,
   snd (EmailIndexer.process_message demo_services EmailIndexer.demo_mailbox "m2"
          (EmailIndexer.init fresh_world))).
Proof.
  apply (short_mail_skipped_next_time demo_services EmailIndexer.demo_mailbox "m2"
           EmailIndexer.short_mail (EmailIndexer.init fresh_world) eq_refl
           ltac:(cbn; lia) ltac:(vm_compute; reflexivity)
           demo_services EmailIndexer.demo_mailbox "m2" EmailIndexer.short_mail
           eq_refl eq_refl).
Defined.

(** X22: the whole body is stored before the mail is indexed: unless the
    dedupe probe found the mail (the answer is [Skipped]),
    [process_message] leaves the full, unchunked body with the generated
    summary and category in Email Full-Body Storage under the mail's id,
    whether indexing then returned or raised. *)
Theorem full_body_stored_unless_skipped (svc : Services)
    (mailbox : EmailIndexer.Mailbox) (msg : string) (parsed : ParsedEmail)
    (st : EmailIndexer.St) :
  mailbox msg = Some (Ok parsed) ->
  let out := EmailIndexer.process_message svc mailbox msg st in
  fst out <> Ok EmailIndexer.Skipped ->
  exists record,
    EmailStorage.get_email (EmailIndexer.email_storage (EmailIndexer.self (snd out)))
      (id parsed) = Some record /\
    r_email_id record = id parsed /\
    r_body_text record = body_text parsed /\
    r_summary record = EmailIndexer._generate_email_summary svc parsed /\
    r_category record =
      EmailIndexer._categorize_email (subject parsed) (body_text parsed) (labels parsed).
Proof.
  intros Hmsg. cbv zeta.
  destruct (EmailIndexer.process_message svc mailbox msg st) as [r st'] eqn:E.
  cbn [fst snd]. revert E.
  unfold EmailIndexer.process_message. rewrite Hmsg.
  change (mbind (lift (Ok parsed)) ?k) with (k parsed). cbv beta.
  unfold mbind at 1.
  destruct (catch _ _ st) as [[[|]|err] st1] eqn:Hprobe.
  - intros [= <- <-]. done.
  - unfold mbind at 1, zoom at 1, VectorStore.read_clock at 1. cbn [fst snd].
    set (st2 := EmailIndexer.vs_set _ st1).
    set (stored_at := now_iso svc _).
    set (parsed' := EmailIndexer.with_summary parsed _ _ stored_at).
    unfold mbind at 1, zoom at 1.
    destruct (EmailStorage.store_email (id parsed') parsed' (EmailIndexer.es_get st2))
      as [r' est] eqn:Hstore.
    assert (Hr : r' = Ok tt /\
                 EmailStorage.get_email (EmailStorage.self est) (id parsed) =
                   Some (EmailStorage.to_record (id parsed) parsed')).
    { revert Hstore. unfold EmailStorage.store_email, catch, mbind, modify,
        EmailStorage._save_storage, EmailStorage.get_email. cbn.
      destruct (disk_writable _); [|destruct (failed_write_truncates _)]; cbn;
      intros [= <- <-]; cbn;
        by rewrite lookup_insert_eq. }
    destruct Hr as [-> Hget]. cbn [fst snd].
    set (st3 := EmailIndexer.es_set est st2).
    unfold mbind at 1, zoom at 1.
    destruct (EmailIndexer._index_email_with_metadata svc parsed' _ (EmailIndexer.vs_get st3))
      as [[[]|err] vst'] eqn:Hindex; cbn [fst snd ret];
      intros [= <- <-] _; eexists; (split; [exact Hget|done]).
  - exfalso. revert Hprobe. unfold catch.
    destruct (zoom _ _ _ st) as [[?|?] ?]; discriminate.
Qed.

Definition silent_services : Services :=
  {| generate_embedding := fun _ => Raise "embedding service unavailable"%string;
     generate_response := generate_response demo_services;
     uuid4_hex := uuid4_hex demo_services;
     now_iso := now_iso demo_services;
     ranking := ranking demo_services |}.

Lemma full_body_stored_unless_skipped_witness :
  fst (EmailIndexer.process_message silent_services EmailIndexer.demo_mailbox "m1"
         (EmailIndexer.init fresh_world)) = Raise "embedding service unavailable"%string /\
  exists record,
    EmailStorage.get_email
      (EmailIndexer.email_storage
         (EmailIndexer.self
            (snd (EmailIndexer.process_message silent_services EmailIndexer.demo_mailbox
                    "m1" (EmailIndexer.init fresh_world))))) "m1" = Some record /\
    r_body_text record = string_of_list_ascii (repeat "a"%char 1600).
Proof.
  split; [vm_compute; reflexivity|].
  destruct (full_body_stored_unless_skipped silent_services EmailIndexer.demo_mailbox
              "m1" EmailIndexer.long_mail (EmailIndexer.init fresh_world) eq_refl
              ltac:(vm_compute; discriminate))
    as (record & Hget & _ & Hbody & _).
  exists record. split; [exact Hget|exact Hbody].
Defined.

End Indexing.

(** ** src/workflows/autonomous_agent.py: the [get_email_details] tool *)

Module AgentTools.
Import Effects Env.
Local Open Scope py_scope.

(** [s.split(sep)[0]]: what comes before the first occurrence of [sep],
    the whole string when there is none. *)
Fixpoint before_sep (sep s : string) : string :=
  match s with
  | EmptyString => EmptyString
  | String c s' =>
      if String.prefix sep s then EmptyString else String c (before_sep sep s')
  end.

(** The dictionary the tool returns; a key one branch leaves out is [None]. *)
Record Details : Type := {
  d_email_id : string;
  d_subject : string;
  d_sender : string;
  d_recipients : option string;
  d_cc : option string;
  d_date : string;
  d_body : string;
  d_body_html : string;
  d_summary : option string;
  d_category : option string;
  d_attachments : list Attachment;
  d_labels : option (list string);
  d_thread_id : option string;
  d_source : string;
  d_complete : bool;
  d_body_length : option Z;
  d_message : option string;
  d_note : option string
}.

Inductive DetailsResult : Type :=
| Found (details : Details)
| NotFound (error : string).

Definition clean_id (email_id : string) : string :=
  if Py.contains "_chunk_" email_id then before_sep "_chunk_" email_id else email_id.

Definition body_chars (body_text : string) : Z := Z.of_nat (String.length body_text).

(** [_get_email_details]; [get_email_by_id] is [EmailTools.get_email_by_id],
    which answers [None] for a message Gmail does not return and for any
    error.  Nothing the body calls raises, so its [except] is not taken. *)
Definition _get_email_details (get_email_by_id : string -> option ParsedEmail)
    (self : Assistant.Agent) (email_id : string) : DetailsResult :=
  let clean_email_id := clean_id email_id in
  match EmailStorage.get_email (Assistant.email_storage self) clean_email_id with
  | Some stored_email =>
      let body_text := r_body_text stored_email in
      Found {| d_email_id := clean_email_id;
               d_subject := r_subject stored_email;
               d_sender := r_sender stored_email;
               d_recipients := Some (r_recipients stored_email);
               d_cc := Some (r_cc stored_email);
               d_date := r_date stored_email;
               d_body := body_text;
               d_body_html := r_body_html stored_email;
               d_summary := Some (r_summary stored_email);
               d_category := Some (r_category stored_email);
               d_attachments := r_attachments stored_email;
               d_labels := Some (r_labels stored_email);
               d_thread_id := Some (r_thread_id stored_email);
               d_source := "email_storage";
               d_complete := true;
               d_body_length := Some (body_chars body_text);
               d_message :=
                 Some ("Complete email retrieved. Body contains "
                       ++ pretty (body_chars body_text)
                       ++ " characters. This is the FULL email content - no need to fetch again.")%string;
               d_note := None |}
  | None =>
      let second :=
        if negb (String.eqb clean_email_id email_id)
        then EmailStorage.get_email (Assistant.email_storage self) clean_email_id
        else None in
      match second with
      | Some stored_email =>
          Found {| d_email_id := clean_email_id;
                   d_subject := r_subject stored_email;
                   d_sender := r_sender stored_email;
                   d_recipients := Some (r_recipients stored_email);
                   d_cc := Some (r_cc stored_email);
                   d_date := r_date stored_email;
                   d_body := r_body_text stored_email;
                   d_body_html := r_body_html stored_email;
                   d_summary := Some (r_summary stored_email);
                   d_category := Some (r_category stored_email);
                   d_attachments := r_attachments stored_email;
                   d_labels := Some (r_labels stored_email);
                   d_thread_id := Some (r_thread_id stored_email);
                   d_source := "email_storage";
                   d_complete := true;
                   d_body_length := None;
                   d_message := None;
                   d_note :=
                     Some ("Retrieved original email (was chunk " ++ email_id ++ ")")%string |}
      | None =>
          match get_email_by_id clean_email_id with
          | Some email_data =>
              let body_text := body_text email_data in
              Found {| d_email_id := clean_email_id;
                       d_subject := subject email_data;
                       d_sender := from email_data;
                       d_recipients := None;
                       d_cc := None;
                       d_date := date email_data;
                       d_body := body_text;
                       d_body_html := body_html email_data;
                       d_summary := None;
                       d_category := None;
                       d_attachments := attachments email_data;
                       d_labels := None;
                       d_thread_id := None;
                       d_source := "gmail_api";
                       d_complete := true;
                       d_body_length := Some (body_chars body_text);
                       d_message :=
                         Some ("Complete email retrieved from Gmail API. Body contains "
                               ++ pretty (body_chars body_text)
                               ++ " characters. This is the FULL email content - no need to fetch again.")%string;
                       d_note := None |}
          | None =>
              NotFound ("Email " ++ clean_email_id ++ " not found in storage or Gmail API")
          end
      end
  end.

(** *** Chunk ids *)

(** No underscore occurs in the string (Gmail message ids are hexadecimal). *)
Fixpoint no_underscore (s : string) : bool :=
  match s with
  | EmptyString => true
  | String c s' => negb (Ascii.eqb c "_") && no_underscore s'
  end.

Lemma prefix_app (s t : string) : String.prefix s (s ++ t) = true.
Proof.
  induction s as [|a s IH]; [by destruct t|].
  change (String a s ++ t)%string with (String a (s ++ t)). cbn [String.prefix].
  by destruct (ascii_dec a a).
Qed.

Lemma prefix_other_head (c : ascii) (sep s : string) :
  Ascii.eqb c "_" = false -> String.prefix (String "_" sep) (String c s) = false.
Proof.
  intros Hc. cbn [String.prefix].
  destruct (ascii_dec "_" c) as [<-|Hne]; [done|done].
Qed.

Lemma chunk_id_cleaned (email_id suffix : string) :
  no_underscore email_id = true ->
  clean_id (email_id ++ "_chunk_" ++ suffix) = email_id.
Proof.
  intros Hno. unfold clean_id, Py.contains.
  assert (H : (exists n, String.index 0 "_chunk_" (email_id ++ "_chunk_" ++ suffix) = Some n) /\
              before_sep "_chunk_" (email_id ++ "_chunk_" ++ suffix) = email_id).
  { induction email_id as [|c s IH].
    - change (EmptyString ++ "_chunk_" ++ suffix)%string
        with (String "_" ("chunk_" ++ suffix)).
      cbn [String.index before_sep].
      change (String "_" ("chunk_" ++ suffix)) with ("_chunk_" ++ suffix)%string.
      rewrite prefix_app. split; [by eexists|done].
    - cbn [no_underscore] in Hno. apply andb_true_iff in Hno as [Hc Hs].
      apply negb_true_iff in Hc.
      destruct (IH Hs) as [[n Hn] Hb].
      change (String c s ++ "_chunk_" ++ suffix)%string
        with (String c (s ++ "_chunk_" ++ suffix)).
      cbn [String.index before_sep].
      rewrite (prefix_other_head c "chunk_" _ Hc), Hn, Hb.
      split; [by eexists|done]. }
  destruct H as [[n ->] ->]. done.
Qed.

Lemma plain_id_kept (email_id : string) :
  no_underscore email_id = true -> clean_id email_id = email_id.
Proof.
  intros Hno. unfold clean_id, Py.contains.
  assert (String.index 0 "_chunk_" email_id = None) as ->; [|done].
  induction email_id as [|c s IH]; [done|].
  cbn [no_underscore] in Hno. apply andb_true_iff in Hno as [Hc Hs].
  apply negb_true_iff in Hc.
  cbn [String.index].
  rewrite (prefix_other_head c "chunk_" _ Hc), IH; done.
Qed.

(** X23: a chunk id leads to the mail it was cut from: for a mail id
    without underscore that is in Email Full-Body Storage,
    [_get_email_details] answers for [<id>_chunk_<anything>] exactly as for
    [<id>]: the stored record with the whole body, marked complete, from
    source [email_storage], and the mailbox is not asked. *)
Theorem chunk_id_resolves_to_mail (get_email_by_id : string -> option ParsedEmail)
    (self : Assistant.Agent) (email_id suffix : string) (record : EmailRecord) :
  no_underscore email_id = true ->
  EmailStorage.get_email (Assistant.email_storage self) email_id = Some record ->
  _get_email_details get_email_by_id self (email_id ++ "_chunk_" ++ suffix) =
    _get_email_details get_email_by_id self email_id /\
  exists details,
    _get_email_details get_email_by_id self email_id = Found details /\
    d_email_id details = email_id /\
    d_body details = r_body_text record /\
    d_body_length details = Some (Z.of_nat (String.length (r_body_text record))) /\
    d_source details = "email_storage"%string /\
    d_complete details = true.
Proof.
  intros Hno Hget. unfold _get_email_details.
  rewrite (chunk_id_cleaned _ suffix Hno), (plain_id_kept _ Hno), Hget.
  split; [done|]. eexists. split; [reflexivity|]. done.
Qed.

Definition stored_agent : Assistant.Agent :=
  {| Assistant.memory_manager := Assistant.memory_manager (Assistant.self Assistant.demo_agent);
     Assistant.vector_store := Assistant.vector_store (Assistant.self Assistant.demo_agent);
     Assistant.email_storage :=
       {| EmailStorage._storage :=
            {["19a97eacb0301e02"%string :=
                EmailStorage.to_record "19a97eacb0301e02" EmailIndexer.long_mail]} |} |}.

Lemma chunk_id_resolves_to_mail_witness :
  _get_email_details (fun _ => None) stored_agent "19a97eacb0301e02_chunk_0" =
  _get_email_details (fun _ => None) stored_agent "19a97eacb0301e02".
Proof.
  exact (proj1 (chunk_id_resolves_to_mail (fun _ => None) stored_agent
                  "19a97eacb0301e02" "0"
                  (EmailStorage.to_record "19a97eacb0301e02" EmailIndexer.long_mail)
                  eq_refl ltac:(apply lookup_singleton_eq))).
Defined.

(** X24: [_get_email_details] looks the cleaned id up in Email Full-Body
    Storage first and asks Gmail only for an id that is not stored; every
    answer it gives is marked complete; the answer with the note
    "Retrieved original email (was chunk ...)" is never given, since the
    second look-up repeats the first. *)
Theorem details_sources (get_email_by_id : string -> option ParsedEmail)
    (self : Assistant.Agent) (email_id : string) :
  let stored :=
    EmailStorage.get_email (Assistant.email_storage self) (clean_id email_id) in
  match _get_email_details get_email_by_id self email_id with
  | Found details =>
      d_note details = None /\ d_complete details = true /\
      d_email_id details = clean_id email_id /\
      ((exists record, stored = Some record /\ d_body details = r_body_text record /\
                       d_source details = "email_storage"%string) \/
       (exists parsed, stored = None /\ get_email_by_id (clean_id email_id) = Some parsed /\
                       d_body details = body_text parsed /\
                       d_source details = "gmail_api"%string))
  | NotFound _ => stored = None /\ get_email_by_id (clean_id email_id) = None
  end.
Proof.
  cbv zeta. unfold _get_email_details.
  destruct (EmailStorage.get_email _ (clean_id email_id)) as [record|] eqn:Hget.
  - repeat split. left. by exists record.
  - destruct (negb _); rewrite ?Hget;
      (destruct (get_email_by_id (clean_id email_id)) as [parsed|] eqn:Hgmail;
       [repeat split; right; by exists parsed|done]).
Qed.

(** *** From the indexer to the tool *)

(** The storage file and its writability are those of [w]. *)
Definition same_file (w w' : World) : Prop :=
  email_storage_json w' = email_storage_json w /\ disk_writable w' = disk_writable w.

Definition keeps_file {S A} (world_of : S -> World) (m : M S A) : Prop :=
  forall s, same_file (world_of s) (world_of (snd (m s))).

Section KeepsFile.
Context {S : Type} (world_of : S -> World).

Lemma keeps_file_same {A} (m : M S A) :
  (forall s, world_of (snd (m s)) = world_of s) -> keeps_file world_of m.
Proof. intros H s. by rewrite H. Qed.

Lemma keeps_file_mbind {A B} (m : M S A) (k : A -> M S B) :
  keeps_file world_of m -> (forall a, keeps_file world_of (k a)) ->
  keeps_file world_of (mbind m k).
Proof.
  intros Hm Hk s. unfold mbind. destruct (Hm s) as [H1 H2].
  destruct (m s) as [[a|e] s']; cbn in *; [|done].
  destruct (Hk a s') as [H3 H4]. split; congruence.
Qed.

Lemma keeps_file_catch {A} (m : M S A) (h : string -> M S A) :
  keeps_file world_of m -> (forall e, keeps_file world_of (h e)) ->
  keeps_file world_of (catch m h).
Proof.
  intros Hm Hh s. unfold catch. destruct (Hm s) as [H1 H2].
  destruct (m s) as [[a|e] s']; cbn in *; [done|].
  destruct (Hh e s') as [H3 H4]. split; congruence.
Qed.

Lemma keeps_file_zoom {T A} (world_of' : T -> World) (get : S -> T) (set : T -> S -> S)
    (m : M T A) :
  (forall s, world_of' (get s) = world_of s) ->
  (forall t s, world_of (set t s) = world_of' t) ->
  keeps_file world_of' m -> keeps_file world_of (zoom get set m).
Proof.
  intros Hget Hset Hm s. unfold zoom.
  specialize (Hm (get s)). rewrite Hget in Hm.
  destruct (m (get s)) as [r t']. cbn in *. by rewrite Hset.
Qed.

End KeepsFile.

Lemma add_email_keeps_file svc email_id subject body sender recipients date labels
    attachments thread_id additional :
  keeps_file VectorStore.world
    (VectorStore.add_email svc email_id subject body sender recipients date labels
       attachments thread_id additional).
Proof.
  unfold VectorStore.add_email.
  apply keeps_file_catch; [|intros; by apply keeps_file_same].
  apply keeps_file_mbind.
  { intros st. destruct (VectorStore.ensure_current st) as (h & c & -> & _). done. }
  intros _. apply keeps_file_mbind; [by apply keeps_file_same|intros embedding].
  apply keeps_file_mbind; [done|intros indexed_at].
  apply keeps_file_mbind; [done|intros hex].
  apply keeps_file_mbind; [by apply keeps_file_same|intros c].
  apply keeps_file_mbind; [done|intros; by apply keeps_file_same].
Qed.

Lemma index_email_keeps_file svc parsed summary :
  keeps_file VectorStore.world (EmailIndexer._index_email_with_metadata svc parsed summary).
Proof.
  unfold EmailIndexer._index_email_with_metadata.
  apply keeps_file_catch; [|intros; by apply keeps_file_same].
  destruct (1500 <? _).
  - destruct (EmailIndexer.body_chunks _) as [chunks|]; [|by apply keeps_file_same].
    generalize (length chunks) 0%nat.
    induction chunks as [|chunk rest IH]; intros total i; cbn [EmailIndexer.index_chunks].
    + by apply keeps_file_same.
    + apply keeps_file_mbind; [apply add_email_keeps_file|intros _; apply IH].
  - apply keeps_file_mbind; [apply add_email_keeps_file|intros; by apply keeps_file_same].
Qed.

Lemma probe_keeps_file email_id :
  keeps_file EmailIndexer.world
    (catch (zoom EmailIndexer.vs_get EmailIndexer.vs_set
              (EmailIndexer.already_indexed email_id))
       (fun _ => ret false)).
Proof.
  apply keeps_file_catch; [|intros; by apply keeps_file_same].
  apply (keeps_file_zoom _ VectorStore.world); [done|done|].
  apply keeps_file_same. intros s.
  unfold EmailIndexer.already_indexed, mbind, VectorStore.through_collection. cbn.
  by destruct (Chroma.get _ _ _ _).
Qed.

(** With a writable disk, what [process_message] stored is in the file
    when it returns. *)
Lemma process_message_in_sync svc (mailbox : EmailIndexer.Mailbox) msg parsed st :
  mailbox msg = Some (Ok parsed) ->
  disk_writable (EmailIndexer.world st) = true ->
  let out := EmailIndexer.process_message svc mailbox msg st in
  fst out <> Ok EmailIndexer.Skipped ->
  EmailStorage.init (EmailIndexer.world (snd out)) =
    EmailIndexer.email_storage (EmailIndexer.self (snd out)) /\
  exists parsed',
    body_text parsed' = body_text parsed /\
    EmailStorage.get_email (EmailIndexer.email_storage (EmailIndexer.self (snd out)))
      (id parsed) = Some (EmailStorage.to_record (id parsed) parsed').
Proof.
  intros Hmsg Hw. cbv zeta.
  destruct (EmailIndexer.process_message svc mailbox msg st) as [r st'] eqn:E.
  cbn [fst snd]. revert E.
  unfold EmailIndexer.process_message. rewrite Hmsg.
  change (mbind (lift (Ok parsed)) ?k) with (k parsed). cbv beta.
  unfold mbind at 1.
  pose proof (probe_keeps_file (id parsed) st) as [_ Hw1]. rewrite Hw in Hw1.
  destruct (catch _ _ st) as [[[|]|err] st1] eqn:Hprobe; cbn [snd] in Hw1.
  - intros [= <- <-]. done.
  - unfold mbind at 1, zoom at 1, VectorStore.read_clock at 1. cbn [fst snd].
    set (st2 := EmailIndexer.vs_set _ st1).
    set (stored_at := now_iso svc _).
    set (parsed' := EmailIndexer.with_summary parsed _ _ stored_at).
    unfold mbind at 1, zoom at 1.
    destruct (EmailStorage.store_email (id parsed') parsed' (EmailIndexer.es_get st2))
      as [r' est] eqn:Hstore.
    assert (Hr : r' = Ok tt /\
                 EmailStorage.get_email (EmailStorage.self est) (id parsed) =
                   Some (EmailStorage.to_record (id parsed) parsed') /\
                 EmailStorage.init (EmailStorage.world est) = EmailStorage.self est).
    { revert Hstore. unfold EmailStorage.store_email, catch, mbind, modify,
        EmailStorage._save_storage, EmailStorage.get_email. cbn.
      rewrite Hw1. cbn. intros [= <- <-]. cbn. by rewrite lookup_insert_eq. }
    destruct Hr as (-> & Hget & Hsync). cbn [fst snd].
    set (st3 := EmailIndexer.es_set est st2).
    unfold mbind at 1, zoom at 1.
    pose proof (index_email_keeps_file svc parsed'
                  (EmailIndexer._generate_email_summary svc parsed)
                  (EmailIndexer.vs_get st3)) as [Hfile _].
    destruct (EmailIndexer._index_email_with_metadata svc parsed' _ (EmailIndexer.vs_get st3))
      as [[[]|err] vst'] eqn:Hindex; cbn [fst snd ret] in *;
      intros [= <- <-] _; cbn;
      (split; [|by exists parsed']);
      unfold EmailStorage.init, EmailStorage._load_storage in *;
      rewrite Hfile; exact Hsync.
  - exfalso. revert Hprobe. unfold catch.
    destruct (zoom _ _ _ st) as [[?|?] ?]; discriminate.
Qed.

(** An agent object constructed on the machine [w]: its
    [EmailStorage()] reads the file as it is then. *)
Definition agent_at (w : World) (mm : MemoryManager.t) (vs : VectorStore.t)
    : Assistant.Agent :=
  {| Assistant.memory_manager := mm;
     Assistant.vector_store := vs;
     Assistant.email_storage := EmailStorage.init w |}.

(** X25: the indexer and the agent hold separate [EmailStorage] objects
    that meet only in the file.  After the indexer processed a mail (id
    without underscore, writable disk, not skipped), an agent object
    constructed afterwards answers [_get_email_details] for the mail's id
    and for each of its chunk ids with the whole body from storage; an
    agent object constructed before, when the mail was not in the file,
    still misses it and answers with what Gmail returns, or with an error
    when Gmail returns nothing. *)
Theorem details_after_indexing (svc : Services) (mailbox : EmailIndexer.Mailbox)
    (msg : string) (parsed : ParsedEmail) (st : EmailIndexer.St)
    (get_email_by_id : string -> option ParsedEmail)
    (mm : MemoryManager.t) (vs : VectorStore.t) :
  mailbox msg = Some (Ok parsed) ->
  no_underscore (id parsed) = true ->
  disk_writable (EmailIndexer.world st) = true ->
  let out := EmailIndexer.process_message svc mailbox msg st in
  fst out <> Ok EmailIndexer.Skipped ->
  let later := agent_at (EmailIndexer.world (snd out)) mm vs in
  let earlier := agent_at (EmailIndexer.world st) mm vs in
  (forall suffix,
     exists details,
       _get_email_details get_email_by_id later (id parsed ++ "_chunk_" ++ suffix) =
         Found details /\
       d_body details = body_text parsed /\
       d_source details = "email_storage"%string) /\
  (exists details,
     _get_email_details get_email_by_id later (id parsed) = Found details /\
     d_body details = body_text parsed /\
     d_source details = "email_storage"%string) /\
  (EmailStorage.get_email (EmailStorage.init (EmailIndexer.world st)) (id parsed) = None ->
   _get_email_details get_email_by_id earlier (id parsed) =
     _get_email_details get_email_by_id
       {| Assistant.memory_manager := mm; Assistant.vector_store := vs;
          Assistant.email_storage := {| EmailStorage._storage := ∅ |} |} (id parsed)).
Proof.
  intros Hmsg Hno Hw. cbv zeta. intros Hnot.
  destruct (process_message_in_sync svc mailbox msg parsed st Hmsg Hw Hnot)
    as (Hsync & parsed' & Hbody & Hget).
  unfold agent_at. rewrite Hsync.
  assert (Hplain : exists details,
            _get_email_details get_email_by_id
              {| Assistant.memory_manager := mm; Assistant.vector_store := vs;
                 Assistant.email_storage :=
                   EmailIndexer.email_storage
                     (EmailIndexer.self
                        (snd (EmailIndexer.process_message svc mailbox msg st))) |}
              (id parsed) = Found details /\
            d_body details = body_text parsed /\
            d_source details = "email_storage"%string).
  { unfold _get_email_details. rewrite (plain_id_kept _ Hno). cbn.
    rewrite Hget. eexists. split; [reflexivity|]. cbn. by rewrite Hbody. }
  split; [|split; [exact Hplain|]].
  - intros suffix. destruct Hplain as (details & Hd & Hrest).
    exists details. split; [|exact Hrest]. rewrite <- Hd.
    unfold _get_email_details.
    rewrite (chunk_id_cleaned _ suffix Hno), (plain_id_kept _ Hno).
    cbn [Assistant.email_storage]. by rewrite Hget.
  - intros Hmiss. unfold _get_email_details. rewrite (plain_id_kept _ Hno). cbn.
    rewrite Hmiss. unfold EmailStorage.get_email. cbn. by rewrite lookup_empty.
Qed.

Lemma details_after_indexing_witness :
  exists details,
    _get_email_details (fun _ => None)
      (agent_at
         (EmailIndexer.world
            (snd (EmailIndexer.process_message demo_services EmailIndexer.demo_mailbox
                    "m2" (EmailIndexer.init fresh_world))))
         (Assistant.memory_manager (Assistant.self Assistant.demo_agent))
         (Assistant.vector_store (Assistant.self Assistant.demo_agent)))
      "m2_chunk_0" = Found details /\
    d_body details = "Lunch at noon?"%string /\
    d_source details = "email_storage"%string.
Proof.
  exact (proj1 (details_after_indexing demo_services EmailIndexer.demo_mailbox "m2"
                  EmailIndexer.short_mail (EmailIndexer.init fresh_world)
                  (fun _ => None)
                  (Assistant.memory_manager (Assistant.self Assistant.demo_agent))
                  (Assistant.vector_store (Assistant.self Assistant.demo_agent))
                  eq_refl eq_refl eq_refl ltac:(vm_compute; discriminate))
           "0"%string).
Defined.

End AgentTools.

(** ** src/workflows/email_assistant.py: the routes of the fixed pipeline *)

Module Workflow.
Import Effects.

(** The nodes of the graph [_build_workflow] compiles, and its end. *)
Inductive Node : Type :=
| understand_query
| plan_search
| execute_parallel
| retrieve_with_rag
| synthesize_answer
| END.

(** The two keys of [AgentState] the routes read. *)
Record Flags : Type := {
  needs_rag : DecisionEngine.Json;
  needs_search : DecisionEngine.Json
}.

(** [initial_state] of [run] *)
Definition initial_state : Flags :=
  {| needs_rag := DecisionEngine.JBool false;
     needs_search := DecisionEngine.JBool false |}.

(** [_understand_query]: [user_context] is what [get_personalized_context]
    did, [bookkeeping] what the statements after the two assignments did
    (storing the analysis, the system message, the logging).  Any
    exception sets both keys to [True]. *)
Definition _understand_query (deps : DecisionEngine.Deps)
    (user_context : result string)
    (bookkeeping : DecisionEngine.Analysis -> result unit)
    (query : string) (state : Flags) : Flags :=
  try_except
    (bind user_context
       (fun _ =>
          let analysis := DecisionEngine.analyze_query deps query in
          let state := {| needs_rag := DecisionEngine.needs_rag analysis;
                          needs_search := DecisionEngine.needs_search analysis |} in
          bind (bookkeeping analysis) (fun _ => Ok state)))
    (fun _ => {| needs_rag := DecisionEngine.JBool true;
                 needs_search := DecisionEngine.JBool true |}).

(** [_route_after_understanding] *)
Definition _route_after_understanding (state : Flags) : string :=
  if DecisionEngine.truthy (needs_search state) || DecisionEngine.truthy (needs_rag state)
  then "plan_search" else "direct_answer".

(** [_route_after_planning] *)
Definition _route_after_planning (state : Flags) : string :=
  if DecisionEngine.truthy (needs_rag state) then "rag" else "execute".

(** The edges: [add_conditional_edges] with its mapping, [add_edge]. *)
Definition next (node : Node) (state : Flags) : Node :=
  match node with
  | understand_query =>
      if String.eqb (_route_after_understanding state) "plan_search"
      then plan_search else synthesize_answer
  | plan_search =>
      if String.eqb (_route_after_planning state) "execute"
      then execute_parallel else retrieve_with_rag
  | execute_parallel => synthesize_answer
  | retrieve_with_rag => synthesize_answer
  | synthesize_answer => END
  | END => END
  end.

(** The nodes a run goes through from [node] on; only [understand_query]
    writes the two keys. *)
Fixpoint path (fuel : nat) (update : Node -> Flags -> Flags) (node : Node)
    (state : Flags) : list Node :=
  match fuel, node with
  | _, END => []
  | O, _ => []
  | S fuel', _ =>
      let state := update node state in
      node :: path fuel' update (next node state) state
  end.

(** [workflow.ainvoke(initial_state)], as the sequence of nodes run. *)
Definition run (deps : DecisionEngine.Deps) (user_context : result string)
    (bookkeeping : DecisionEngine.Analysis -> result unit) (query : string) : list Node :=
  path 5 (fun node state =>
            match node with
            | understand_query =>
                _understand_query deps user_context bookkeeping query state
            | _ => state
            end)
    understand_query initial_state.

Lemma understood_flags_agree deps user_context bookkeeping query state :
  needs_search (_understand_query deps user_context bookkeeping query state) =
  needs_rag (_understand_query deps user_context bookkeeping query state).
Proof.
  unfold _understand_query, try_except, bind.
  destruct user_context as [c|e]; [|done].
  destruct (bookkeeping _) as [[]|e]; [|done].
  cbn. unfold DecisionEngine.analyze_query, DecisionEngine.analyze_body, try_except, bind.
  destruct (DecisionEngine.get _ "requires_email_data" _); [|done].
  destruct (DecisionEngine._calculate_confidence _ _); [|done].
  destruct (DecisionEngine.get _ "intent" _); [|done].
  by destruct (DecisionEngine._build_reasoning _ _ _).
Qed.

Lemma path_first (fuel : nat) (update : Node -> Flags -> Flags) (state : Flags) :
  path (S fuel) update understand_query state =
  understand_query ::
    path fuel update (next understand_query (update understand_query state))
      (update understand_query state).
Proof. reflexivity. Qed.

(** The nodes run after [understand_query], from a state in which the two
    keys agree. *)
Lemma path_after_understanding (update : Node -> Flags -> Flags) (state : Flags) :
  (forall s, update plan_search s = s) ->
  needs_search state = needs_rag state ->
  path 4 update (next understand_query state) state = [synthesize_answer] \/
  path 4 update (next understand_query state) state =
    [plan_search; retrieve_with_rag; synthesize_answer].
Proof.
  intros Hplan Hagree.
  unfold next, _route_after_understanding. rewrite Hagree, orb_diag.
  destruct (DecisionEngine.truthy (needs_rag state)) eqn:Htruthy; cbn.
  - right. rewrite Hplan. unfold _route_after_planning. rewrite Htruthy. reflexivity.
  - left. reflexivity.
Qed.

(** X26: a run of the fixed pipeline goes through understand, synthesize,
    or through understand, plan, retrieve-with-RAG, synthesize: since
    [_understand_query] leaves [needs_search] equal to [needs_rag], the
    route after planning is always [rag], and the [execute_parallel] node
    (the Execution Planner's waves) is never run. *)
Theorem execute_parallel_never_runs (deps : DecisionEngine.Deps)
    (user_context : result string)
    (bookkeeping : DecisionEngine.Analysis -> result unit) (query : string) :
  let nodes := run deps user_context bookkeeping query in
  (nodes = [understand_query; synthesize_answer] \/
   nodes = [understand_query; plan_search; retrieve_with_rag; synthesize_answer]) /\
  ~ In execute_parallel nodes.
Proof.
  cbv zeta.
  pose proof (understood_flags_agree deps user_context bookkeeping query initial_state)
    as Hagree.
  assert (H : run deps user_context bookkeeping query =
                [understand_query; synthesize_answer] \/
              run deps user_context bookkeeping query =
                [understand_query; plan_search; retrieve_with_rag; synthesize_answer]).
  { unfold run. rewrite path_first. cbv beta iota.
    revert Hagree.
    generalize (_understand_query deps user_context bookkeeping query initial_state).
    intros state Hagree.
    destruct (path_after_understanding
                (fun node state =>
                   match node with
                   | understand_query =>
                       _understand_query deps user_context bookkeeping query state
                   | _ => state
                   end) state) as [-> | ->]; auto. }
  split; [exact H|].
  destruct H as [-> | ->]; intros Hin;
    repeat (destruct Hin as [Hin|Hin]; [discriminate|]); exact Hin.
Qed.

End Workflow.

(** ** src/agents/base_agent.py: the loop with the values the tools return *)

Module AgentLoop.
Import Effects.
Import BaseAgent (Params, Decision, UseTool, FinalAnswer, Think, OtherAction).

(** What a tool call leaves in [tool_results]: a dictionary, of which the
    loop reads the key [count], or a value of another type (the text
    [_execute_tool] makes of an error is of type [str]). *)
Inductive ToolValue : Type :=
| VDict (count : option Z) (shown : string)
| VOther (type_name : string) (shown : string).

Record Call : Type := {
  tool : string;
  parameters : Params;
  result : ToolValue
}.

(** [self.available_tools]: the registered functions; one may raise. *)
Definition Registry : Type := string -> option (Params -> Effects.result ToolValue).

(** [_get_agent_decision(query, conversation_history, tool_results,
    thoughts, force_synthesize)] for the query and history of one run: the
    model's answer may also depend on how many calls were made before.
    [Raise]: the call, or reading a key of its answer, raised. *)
Definition Oracle : Type :=
  nat -> list Call -> list string -> bool -> Effects.result Decision.

Definition quote (s : string) : string := ("'" ++ s ++ "'")%string.

(** [_execute_tool] *)
Definition _execute_tool (available_tools : Registry) (tool_name : string)
    (parameters : Params) : ToolValue :=
  match available_tools tool_name with
  | None => VOther "str" ("Error: Tool " ++ quote tool_name ++ " not found")
  | Some function =>
      match function parameters with
      | Ok r => r
      | Raise e => VOther "str" ("Error executing " ++ tool_name ++ ": " ++ e)
      end
  end.

(** [if iteration >= 2 and tool_results: rag_results = [...];
    if rag_results and rag_results[0]['result'].get('count', 0) > 0: ...]:
    the branch only logs, but [.get] raises on a value that is no
    dictionary. *)
Definition rag_check (iteration : nat) (tool_results : list Call) : Effects.result unit :=
  if (2 <=? iteration)%nat && Py.truthy tool_results then
    match List.filter (fun tr => String.eqb (tool tr) "search_emails_rag") tool_results with
    | first :: _ =>
        match result first with
        | VDict _ _ => Ok tt
        | VOther type_name _ =>
            Raise (quote type_name ++ " object has no attribute " ++ quote "get")
        end
    | [] => Ok tt
    end
  else Ok tt.

(** [len(tool_results) >= 3], and the last three name one tool. *)
Definition looping (tool_results : list Call) : bool :=
  (3 <=? length tool_results)%nat &&
  match Py.last_n tool_results 3 with
  | [a; b; c] =>
      String.eqb (tool a) (tool b) && String.eqb (tool b) (tool c)
      && String.eqb (tool a) (tool c)
  | _ => false
  end.

(** The dictionary [run] returns; a key it leaves out is [None]. *)
Record Reply : Type := {
  answer : string;
  tool_calls : option (list Call);
  iterations : option nat;
  thoughts : option (list string);
  completed : bool;
  forced_stop : option bool;
  error : option string
}.

Definition final_reply (content : string) (tool_results : list Call)
    (iteration : nat) (thoughts : list string) (forced : option bool) : Reply :=
  {| answer := content;
     tool_calls := Some tool_results;
     iterations := Some iteration;
     thoughts := Some thoughts;
     completed := true;
     forced_stop := forced;
     error := None |}.

Definition exhausted_reply (tool_results : list Call) (iteration : nat) : Reply :=
  {| answer := "I've exhausted my thinking iterations. Please rephrase your query.";
     tool_calls := Some tool_results;
     iterations := Some iteration;
     thoughts := None;
     completed := false;
     forced_stop := None;
     error := None |}.

Definition error_reply (e : string) : Reply :=
  {| answer := ("I encountered an error: " ++ e)%string;
     tool_calls := None;
     iterations := None;
     thoughts := None;
     completed := false;
     forced_stop := None;
     error := Some e |}.

(** [while iteration < self.max_iterations:], with [remaining] the number
    of turns left; [calls] counts the decision calls made so far. *)
Fixpoint turns_from (oracle : Oracle) (available_tools : Registry)
    (remaining iteration : nat) (tool_results : list Call) (thoughts : list string)
    (calls : nat) : Reply :=
  match remaining with
  | O => exhausted_reply tool_results iteration
  | S remaining' =>
      let iteration := S iteration in
      let check := (3 <? iteration)%nat && looping tool_results in
      let forced :=
        if check then Some (oracle calls tool_results thoughts true) else None in
      let calls := if check then S calls else calls in
      match forced with
      | Some (Raise e) => error_reply e
      | Some (Ok (FinalAnswer content)) =>
          final_reply content tool_results iteration thoughts (Some true)
      | _ =>
          match oracle calls tool_results thoughts false with
          | Raise e => error_reply e
          | Ok (FinalAnswer content) =>
              final_reply content tool_results iteration thoughts None
          | Ok (UseTool tool_name tool_params thought) =>
              let result := _execute_tool available_tools tool_name tool_params in
              let tool_results :=
                tool_results ++ [{| tool := tool_name; parameters := tool_params;
                                    result := result |}] in
              let thoughts := thoughts ++ [Py.or_empty thought] in
              match rag_check iteration tool_results with
              | Raise e => error_reply e
              | Ok _ =>
                  turns_from oracle available_tools remaining' iteration tool_results
                    thoughts (S calls)
              end
          | Ok (Think thought) =>
              turns_from oracle available_tools remaining' iteration tool_results
                (thoughts ++ [thought]) (S calls)
          | Ok OtherAction =>
              turns_from oracle available_tools remaining' iteration tool_results
                thoughts (S calls)
          end
      end
  end.

(** [run] *)
Definition run (oracle : Oracle) (available_tools : Registry) : Reply :=
  turns_from oracle available_tools BaseAgent.max_iterations 0 [] [] 0.

(** What happened in one turn of the loop: the tool results it started
    from, the forced-synthesis call if one was made, and the ordinary
    decision call if the turn got to it. *)
Record Turn : Type := {
  number : nat;
  seen : list Call;
  forced_decision : option (Effects.result Decision);
  decision : option (Effects.result Decision)
}.

(** The loop of [run] once more, with the turns it went through. *)
Fixpoint turns_from_traced (oracle : Oracle) (available_tools : Registry)
    (remaining iteration : nat) (tool_results : list Call) (thoughts : list string)
    (calls : nat) : Reply * list Turn :=
  match remaining with
  | O => (exhausted_reply tool_results iteration, [])
  | S remaining' =>
      let iteration := S iteration in
      let check := (3 <? iteration)%nat && looping tool_results in
      let forced :=
        if check then Some (oracle calls tool_results thoughts true) else None in
      let calls := if check then S calls else calls in
      let stop_here r :=
        (r, [{| number := iteration; seen := tool_results;
                forced_decision := forced; decision := None |}]) in
      match forced with
      | Some (Raise e) => stop_here (error_reply e)
      | Some (Ok (FinalAnswer content)) =>
          stop_here (final_reply content tool_results iteration thoughts (Some true))
      | _ =>
          let d := oracle calls tool_results thoughts false in
          let this_turn :=
            {| number := iteration; seen := tool_results;
               forced_decision := forced; decision := Some d |} in
          let continue tool_results thoughts :=
            let '(r, rest) :=
              turns_from_traced oracle available_tools remaining' iteration
                tool_results thoughts (S calls) in
            (r, this_turn :: rest) in
          match d with
          | Raise e => (error_reply e, [this_turn])
          | Ok (FinalAnswer content) =>
              (final_reply content tool_results iteration thoughts None, [this_turn])
          | Ok (UseTool tool_name tool_params thought) =>
              let result := _execute_tool available_tools tool_name tool_params in
              let tool_results :=
                tool_results ++ [{| tool := tool_name; parameters := tool_params;
                                    result := result |}] in
              let thoughts := thoughts ++ [Py.or_empty thought] in
              match rag_check iteration tool_results with
              | Raise e => (error_reply e, [this_turn])
              | Ok _ => continue tool_results thoughts
              end
          | Ok (Think thought) => continue tool_results (thoughts ++ [thought])
          | Ok OtherAction => continue tool_results thoughts
          end
      end
  end.

Definition run_traced (oracle : Oracle) (available_tools : Registry)
    : Reply * list Turn :=
  turns_from_traced oracle available_tools BaseAgent.max_iterations 0 [] [] 0.

Definition has_forced (t : Turn) : bool :=
  match forced_decision t with Some _ => true | None => false end.

(** The forced call of a turn ended the run: it gave a final answer (or
    raised). *)
Definition forced_final (t : Turn) : Prop :=
  exists content, forced_decision t = Some (Ok (FinalAnswer content)).

Definition forced_raised (t : Turn) : Prop :=
  exists e, forced_decision t = Some (Raise e).

(** A mocked model that always answers "use tool X". *)
Definition always_tool_x : Oracle :=
  fun _ _ _ _ => Ok (UseTool "X" [] (Some "keep going")).

(** A turn starts with a forced-synthesis call exactly from turn 4 on
    when the last three tool calls name one tool, and gets to its ordinary
    decision call unless the forced one gave the final answer or raised. *)
Definition well_formed_turn (t : Turn) : Prop :=
  (has_forced t = true <-> (4 <= number t)%nat /\ looping (seen t) = true) /\
  (decision t = None <-> forced_final t \/ forced_raised t).

(** What a traced run looks like from any point of the loop on. *)
Definition run_shape (remaining iteration : nat) (out : Reply * list Turn) : Prop :=
  let '(resp, turns) := out in
  (length turns <= remaining)%nat /\
  List.map number turns = seq (S iteration) (length turns) /\
  (forall n, iterations resp = Some n -> n = (iteration + length turns)%nat) /\
  Forall well_formed_turn turns /\
  (forced_stop resp = Some true <->
   exists t, last turns = Some t /\ forced_final t) /\
  (length (List.filter has_forced turns) <=
     iteration + remaining - Nat.max iteration 3)%nat.

(** A turn that starts without a forced-synthesis call. *)
Lemma turn_without_forced (oracle : Oracle) (available_tools : Registry)
    (remaining iteration : nat) (tool_results : list Call) (thoughts : list string)
    (calls : nat) :
  (3 <? S iteration)%nat && looping tool_results = false ->
  turns_from oracle available_tools (S remaining) iteration tool_results thoughts calls =
  match oracle calls tool_results thoughts false with
  | Raise e => error_reply e
  | Ok (FinalAnswer content) =>
      final_reply content tool_results (S iteration) thoughts None
  | Ok (UseTool tool_name tool_params thought) =>
      match rag_check (S iteration)
              (tool_results ++
               [{| tool := tool_name; parameters := tool_params;
                   result := _execute_tool available_tools tool_name tool_params |}]) with
      | Raise e => error_reply e
      | Ok _ =>
          turns_from oracle available_tools remaining (S iteration)
            (tool_results ++
             [{| tool := tool_name; parameters := tool_params;
                 result := _execute_tool available_tools tool_name tool_params |}])
            (thoughts ++ [Py.or_empty thought]) (S calls)
      end
  | Ok (Think thought) =>
      turns_from oracle available_tools remaining (S iteration) tool_results
        (thoughts ++ [thought]) (S calls)
  | Ok OtherAction =>
      turns_from oracle available_tools remaining (S iteration) tool_results
        thoughts (S calls)
  end.
Proof. intros H. cbn [turns_from]. rewrite H. reflexivity. Qed.

(** X27: [_execute_tool] turns what a tool raises into an error text, but
    the loop then calls [.get] on it: when the first decision is to use
    [search_emails_rag] and that call raises, and the second decision is to
    use a tool again (any tool, whatever it returns), [run] ends on turn 2
    with the error answer for an [AttributeError], [completed] false and
    neither [tool_calls] nor [iterations]. *)
Theorem failed_rag_search_ends_run (oracle : Oracle) (available_tools : Registry)
    (function : Params -> Effects.result ToolValue) (e : string)
    (params1 params2 : Params) (thought1 thought2 : option string) (tool2 : string) :
  available_tools "search_emails_rag"%string = Some function ->
  function params1 = Raise e ->
  oracle 0%nat [] [] false = Ok (UseTool "search_emails_rag" params1 thought1) ->
  oracle 1%nat
    [{| tool := "search_emails_rag"; parameters := params1;
        result := VOther "str" ("Error executing search_emails_rag: " ++ e) |}]
    [Py.or_empty thought1] false = Ok (UseTool tool2 params2 thought2) ->
  run oracle available_tools =
    error_reply "'str' object has no attribute 'get'".
Proof.
  intros Htool Hraise Hfirst Hsecond. unfold run, BaseAgent.max_iterations.
  rewrite turn_without_forced by reflexivity. rewrite Hfirst.
  assert (Hexec : _execute_tool available_tools "search_emails_rag" params1 =
                  VOther "str" ("Error executing search_emails_rag: " ++ e)).
  { unfold _execute_tool. by rewrite Htool, Hraise. }
  rewrite Hexec.
  change ([] ++ ?l) with l. change ([] ++ ?l) with l.
  change (rag_check 1 ?l) with (@Ok unit tt). cbv iota.
  rewrite turn_without_forced by reflexivity. rewrite Hsecond.
  reflexivity.
Qed.

Definition rag_raises : Registry :=
  fun name =>
    if String.eqb name "search_emails_rag"
    then Some (fun _ => Raise "unexpected keyword argument"%string)
    else None.

Definition keeps_searching : Oracle :=
  fun _ _ _ _ => Ok (UseTool "search_emails_rag" [] None).

Lemma failed_rag_search_ends_run_witness :
  run keeps_searching rag_raises = error_reply "'str' object has no attribute 'get'".
Proof.
  exact (failed_rag_search_ends_run keeps_searching rag_raises
           (fun _ => Raise "unexpected keyword argument"%string)
           "unexpected keyword argument" [] [] None None "search_emails_rag"
           eq_refl eq_refl eq_refl eq_refl).
Defined.

(** What every reply of the loop satisfies, from any point on. *)
Definition reply_shape (remaining iteration : nat) (tool_results : list Call)
    (r : Reply) : Prop :=
  (forall tc n, tool_calls r = Some tc -> iterations r = Some n ->
     (iteration <= n <= iteration + remaining)%nat /\
     (length tc + iteration <= length tool_results + n)%nat) /\
  (forall e, error r = Some e ->
     tool_calls r = None /\ iterations r = None /\ completed r = false) /\
  (error r = None -> is_Some (tool_calls r) /\ is_Some (iterations r)) /\
  (completed r = false -> error r = None ->
   iterations r = Some (iteration + remaining)%nat).

Lemma error_reply_shape remaining iteration tool_results e :
  reply_shape remaining iteration tool_results (error_reply e).
Proof. unfold reply_shape, error_reply. cbn. repeat split; done. Qed.

Lemma final_reply_shape remaining iteration tool_results content thoughts forced :
  reply_shape (S remaining) iteration tool_results
    (final_reply content tool_results (S iteration) thoughts forced).
Proof.
  unfold reply_shape, final_reply. cbn.
  split; [intros tc n [= <-] [= <-]; lia|].
  split; [done|]. split; [intros _; split; eauto|done].
Qed.

Lemma later_reply_shape remaining iteration tool_results tool_results' r :
  (length tool_results' <= S (length tool_results))%nat ->
  reply_shape remaining (S iteration) tool_results' r ->
  reply_shape (S remaining) iteration tool_results r.
Proof.
  intros Hlen (Hb & He & Hn & Hx). unfold reply_shape.
  split; [|split; [done|split; [done|]]].
  - intros tc n Htc Hit. specialize (Hb tc n Htc Hit). lia.
  - intros Hc Herr. rewrite (Hx Hc Herr). f_equal. lia.
Qed.

Lemma turns_from_reply_shape oracle available_tools :
  forall remaining iteration tool_results thoughts calls,
    reply_shape remaining iteration tool_results
      (turns_from oracle available_tools remaining iteration tool_results thoughts calls).
Proof.
  induction remaining as [|remaining IH]; intros iteration tool_results thoughts calls.
  - unfold reply_shape. cbn.
    split; [intros tc n [= <-] [= <-]; lia|].
    split; [done|]. split; [intros _; split; eauto|].
    intros _ _. f_equal. lia.
  - cbn [turns_from].
    set (check := (3 <? S iteration)%nat && looping tool_results).
    set (calls' := if check then S calls else calls).
    assert (Hordinary :
      reply_shape (S remaining) iteration tool_results
        match oracle calls' tool_results thoughts false with
        | Raise e => error_reply e
        | Ok (FinalAnswer content) =>
            final_reply content tool_results (S iteration) thoughts None
        | Ok (UseTool tool_name tool_params thought) =>
            match rag_check (S iteration)
                    (tool_results ++
                     [{| tool := tool_name; parameters := tool_params;
                         result := _execute_tool available_tools tool_name tool_params |}])
            with
            | Raise e => error_reply e
            | Ok _ =>
                turns_from oracle available_tools remaining (S iteration)
                  (tool_results ++
                   [{| tool := tool_name; parameters := tool_params;
                       result := _execute_tool available_tools tool_name tool_params |}])
                  (thoughts ++ [Py.or_empty thought]) (S calls')
            end
        | Ok (Think thought) =>
            turns_from oracle available_tools remaining (S iteration) tool_results
              (thoughts ++ [thought]) (S calls')
        | Ok OtherAction =>
            turns_from oracle available_tools remaining (S iteration) tool_results
              thoughts (S calls')
        end).
    { destruct (oracle calls' tool_results thoughts false)
        as [[tool_name tool_params thought|content|thought|]|e].
      - destruct (rag_check _ _); [|apply error_reply_shape].
        eapply later_reply_shape; [|apply IH]. rewrite length_app. cbn. lia.
      - apply final_reply_shape.
      - eapply later_reply_shape; [|apply IH]. lia.
      - eapply later_reply_shape; [|apply IH]. lia.
      - apply error_reply_shape. }
    destruct check; [|exact Hordinary].
    destruct (oracle calls tool_results thoughts true)
      as [[tool_name tool_params thought|content|thought|]|e]; try exact Hordinary.
    + apply final_reply_shape.
    + apply error_reply_shape.
Qed.

(** X28: whatever the model and the tools do, the dictionary [run] returns
    is of one of three kinds.  With an [error] it has neither [tool_calls]
    nor [iterations] (the tool results gathered before the exception are
    dropped) and [completed] is false.  Without one it has both, with at
    most 10 iterations and at most one tool call per iteration; and it is
    not [completed] only when all 10 iterations were used. *)
Theorem run_reply_kinds (oracle : Oracle) (available_tools : Registry) :
  let r := run oracle available_tools in
  (forall tc n, tool_calls r = Some tc -> iterations r = Some n ->
     (length tc <= n <= 10)%nat) /\
  (forall e, error r = Some e ->
     tool_calls r = None /\ iterations r = None /\ completed r = false) /\
  (error r = None -> is_Some (tool_calls r) /\ is_Some (iterations r)) /\
  (completed r = false -> error r = None -> iterations r = Some 10%nat).
Proof.
  cbv zeta. unfold run.
  destruct (turns_from_reply_shape oracle available_tools BaseAgent.max_iterations 0 [] [] 0)
    as (Hb & He & Hn & Hx).
  split; [|split; [exact He|split; [exact Hn|exact Hx]]].
  intros tc n Htc Hit. specialize (Hb tc n Htc Hit).
  unfold BaseAgent.max_iterations in Hb. cbn in Hb. lia.
Qed.

Lemma run_reply_kinds_witness :
  tool_calls (run keeps_searching rag_raises) = None /\
  iterations (run keeps_searching rag_raises) = None /\
  completed (run keeps_searching rag_raises) = false.
Proof.
  exact (proj1 (proj2 (run_reply_kinds keeps_searching rag_raises))
           "'str' object has no attribute 'get'"%string
           ltac:(unfold run, BaseAgent.max_iterations;
                 rewrite turn_without_forced by reflexivity;
                 change (keeps_searching 0%nat [] [] false)
                   with (@Ok Decision (UseTool "search_emails_rag" [] None));
                 cbv iota;
                 change (rag_check 1 ?l) with (@Ok unit tt); cbv iota;
                 rewrite turn_without_forced by reflexivity;
                 reflexivity)).
Defined.

(** *** The forced-synthesis call *)

(** The reply of the traced loop is the reply of the loop. *)
Lemma traced_reply oracle available_tools :
  forall remaining iteration tool_results thoughts calls,
    fst (turns_from_traced oracle available_tools remaining iteration tool_results
           thoughts calls) =
    turns_from oracle available_tools remaining iteration tool_results thoughts calls.
Proof.
  induction remaining as [|remaining IH]; intros iteration tool_results thoughts calls;
    [reflexivity|].
  cbn [turns_from_traced turns_from].
  set (check := (3 <? S iteration)%nat && looping tool_results).
  set (calls' := if check then S calls else calls).
  assert (Hordinary : forall forced,
    fst (let this_turn :=
           {| number := S iteration; seen := tool_results;
              forced_decision := forced;
              decision := Some (oracle calls' tool_results thoughts false) |} in
         let continue tool_results thoughts :=
           let '(r, rest) :=
             turns_from_traced oracle available_tools remaining (S iteration)
               tool_results thoughts (S calls') in
           (r, this_turn :: rest) in
         match oracle calls' tool_results thoughts false with
         | Raise e => (error_reply e, [this_turn])
         | Ok (FinalAnswer content) =>
             (final_reply content tool_results (S iteration) thoughts None, [this_turn])
         | Ok (UseTool tool_name tool_params thought) =>
             match rag_check (S iteration)
                     (tool_results ++
                      [{| tool := tool_name; parameters := tool_params;
                          result := _execute_tool available_tools tool_name tool_params |}])
             with
             | Raise e => (error_reply e, [this_turn])
             | Ok _ =>
                 continue
                   (tool_results ++
                    [{| tool := tool_name; parameters := tool_params;
                        result := _execute_tool available_tools tool_name tool_params |}])
                   (thoughts ++ [Py.or_empty thought])
             end
         | Ok (Think thought) => continue tool_results (thoughts ++ [thought])
         | Ok OtherAction => continue tool_results thoughts
         end) =
    match oracle calls' tool_results thoughts false with
    | Raise e => error_reply e
    | Ok (FinalAnswer content) =>
        final_reply content tool_results (S iteration) thoughts None
    | Ok (UseTool tool_name tool_params thought) =>
        match rag_check (S iteration)
                (tool_results ++
                 [{| tool := tool_name; parameters := tool_params;
                     result := _execute_tool available_tools tool_name tool_params |}])
        with
        | Raise e => error_reply e
        | Ok _ =>
            turns_from oracle available_tools remaining (S iteration)
              (tool_results ++
               [{| tool := tool_name; parameters := tool_params;
                   result := _execute_tool available_tools tool_name tool_params |}])
              (thoughts ++ [Py.or_empty thought]) (S calls')
        end
    | Ok (Think thought) =>
        turns_from oracle available_tools remaining (S iteration) tool_results
          (thoughts ++ [thought]) (S calls')
    | Ok OtherAction =>
        turns_from oracle available_tools remaining (S iteration) tool_results
          thoughts (S calls')
    end).
  { intros forced. cbv zeta.
    destruct (oracle calls' tool_results thoughts false)
      as [[tool_name tool_params thought|content|thought|]|e]; try reflexivity.
    - destruct (rag_check _ _); [|reflexivity].
      rewrite <- IH. by destruct (turns_from_traced _ _ _ _ _ _ _).
    - rewrite <- IH. by destruct (turns_from_traced _ _ _ _ _ _ _).
    - rewrite <- IH. by destruct (turns_from_traced _ _ _ _ _ _ _). }
  destruct check; [|apply Hordinary].
  destruct (oracle calls tool_results thoughts true)
    as [[tool_name tool_params thought|content|thought|]|e];
    try apply Hordinary; reflexivity.
Qed.

Lemma check_iff iteration tool_results :
  (3 <? S iteration)%nat && looping tool_results = true <->
  (4 <= S iteration)%nat /\ looping tool_results = true.
Proof. rewrite andb_true_iff, Nat.ltb_lt. split; intros [? ?]; split; (lia || done). Qed.

Lemma stop_turn_well_formed iteration tool_results forced :
  (is_Some forced <-> (4 <= S iteration)%nat /\ looping tool_results = true) ->
  (exists content, forced = Some (Ok (FinalAnswer content))) \/
  (exists e, forced = Some (Raise e)) ->
  well_formed_turn {| number := S iteration; seen := tool_results;
                      forced_decision := forced; decision := None |}.
Proof.
  intros Hforced Hstop. split; simpl.
  - unfold has_forced. simpl. rewrite <- Hforced.
    destruct forced; split; (done || eauto || intros [? ?]; done).
  - split; [intros _|done]. exact Hstop.
Qed.

Lemma go_on_turn_well_formed iteration tool_results forced d :
  (is_Some forced <-> (4 <= S iteration)%nat /\ looping tool_results = true) ->
  (forall content, forced <> Some (Ok (FinalAnswer content))) ->
  (forall e, forced <> Some (Raise e)) ->
  well_formed_turn {| number := S iteration; seen := tool_results;
                      forced_decision := forced; decision := Some d |}.
Proof.
  intros Hforced Hnf Hnr. split; simpl.
  - unfold has_forced. simpl. rewrite <- Hforced.
    destruct forced; split; (done || eauto || intros [? ?]; done).
  - split; [done|]. intros [[content H]|[e H]]; simpl in H.
    + by apply Hnf in H.
    + by apply Hnr in H.
Qed.

Lemma run_shape_stop remaining iteration t resp :
  number t = S iteration ->
  well_formed_turn t ->
  (forall n, iterations resp = Some n -> n = S iteration) ->
  (forced_stop resp = Some true <-> forced_final t) ->
  run_shape (S remaining) iteration (resp, [t]).
Proof.
  intros Hnum Hwf Hit Hfs. unfold run_shape. simpl.
  split; [lia|]. split; [by rewrite Hnum|].
  split; [intros n Hn; apply Hit in Hn; lia|].
  split; [by constructor|]. split.
  - rewrite Hfs. split; [intros H; eauto|]. intros (t' & [= <-] & H). done.
  - destruct (has_forced t) eqn:Hf; simpl; [|lia].
    apply Hwf in Hf. lia.
Qed.

Lemma run_shape_go_on remaining iteration t out :
  number t = S iteration ->
  well_formed_turn t ->
  ~ forced_final t ->
  run_shape remaining (S iteration) out ->
  run_shape (S remaining) iteration (fst out, t :: snd out).
Proof.
  intros Hnum Hwf Hnf. destruct out as [resp rest]. unfold run_shape. simpl.
  intros (Hlen & Hnums & Hit & Hall & Hfs & Hcount).
  split; [lia|]. split; [by rewrite Hnum, Hnums|].
  split; [intros n Hn; apply Hit in Hn; lia|].
  split; [by constructor|]. split.
  - rewrite Hfs. destruct rest as [|t' rest]; simpl.
    + split; [intros (? & [=] & _)|]. intros (? & [= <-] & H). done.
    + done.
  - destruct (has_forced t) eqn:Hf; simpl; [|lia].
    apply Hwf in Hf. lia.
Qed.

Lemma turns_from_traced_shape oracle available_tools :
  forall remaining iteration tool_results thoughts calls,
    run_shape remaining iteration
      (turns_from_traced oracle available_tools remaining iteration tool_results
         thoughts calls).
Proof.
  induction remaining as [|remaining IH]; intros iteration tool_results thoughts calls.
  - simpl. repeat split; try (simpl; lia); try done.
    + intros n [= <-]. simpl. lia.
    + intros (t & [=] & _).
  - cbn [turns_from_traced].
    pose proof (check_iff iteration tool_results) as Hcheck.
    set (check := (3 <? S iteration)%nat && looping tool_results) in *.
    set (forced := if check then Some (oracle calls tool_results thoughts true) else None).
    set (calls' := if check then S calls else calls).
    assert (Hforced : is_Some forced <->
                      (4 <= S iteration)%nat /\ looping tool_results = true).
    { rewrite <- Hcheck. unfold forced. destruct check; split; (done || eauto). }
    assert (Hstep :
      (forall content, forced <> Some (Ok (FinalAnswer content))) ->
      (forall e, forced <> Some (Raise e)) ->
      run_shape (S remaining) iteration
        (let d := oracle calls' tool_results thoughts false in
         let this_turn :=
           {| number := S iteration; seen := tool_results;
              forced_decision := forced; decision := Some d |} in
         let continue tool_results thoughts :=
           let '(r, rest) :=
             turns_from_traced oracle available_tools remaining (S iteration)
               tool_results thoughts (S calls') in
           (r, this_turn :: rest) in
         match d with
         | Raise e => (error_reply e, [this_turn])
         | Ok (FinalAnswer content) =>
             (final_reply content tool_results (S iteration) thoughts None, [this_turn])
         | Ok (UseTool tool_name tool_params thought) =>
             match rag_check (S iteration)
                     (tool_results ++
                      [{| tool := tool_name; parameters := tool_params;
                          result := _execute_tool available_tools tool_name tool_params |}])
             with
             | Raise e => (error_reply e, [this_turn])
             | Ok _ =>
                 continue
                   (tool_results ++
                    [{| tool := tool_name; parameters := tool_params;
                        result := _execute_tool available_tools tool_name tool_params |}])
                   (thoughts ++ [Py.or_empty thought])
             end
         | Ok (Think thought) => continue tool_results (thoughts ++ [thought])
         | Ok OtherAction => continue tool_results thoughts
         end)).
    { intros Hnf Hnr. cbv zeta.
      generalize (oracle calls' tool_results thoughts false). intros d.
      pose proof (go_on_turn_well_formed iteration tool_results forced d Hforced Hnf Hnr)
        as Hwf.
      assert (Hnot : ~ forced_final {| number := S iteration; seen := tool_results;
                                       forced_decision := forced; decision := Some d |}).
      { intros [content H]. simpl in H. by apply Hnf in H. }
      assert (Herr : forall e,
        run_shape (S remaining) iteration
          (error_reply e,
           [{| number := S iteration; seen := tool_results;
               forced_decision := forced; decision := Some d |}])).
      { intros e. apply run_shape_stop; [done|done| |].
        - intros n [=].
        - simpl. split; [done|]. intros H. by apply Hnot in H. }
      destruct d as [[tool_name tool_params thought|content|thought|]|e].
      - destruct (rag_check _ _) as [[]|e]; [|apply Herr].
        specialize (IH (S iteration)
                      (tool_results ++
                       [{| tool := tool_name; parameters := tool_params;
                           result := _execute_tool available_tools tool_name tool_params |}])
                      (thoughts ++ [Py.or_empty thought]) (S calls')).
        destruct (turns_from_traced _ _ _ _ _ _ _) as [r rest].
        by apply (run_shape_go_on remaining iteration _ (r, rest)).
      - apply run_shape_stop; [done|done| |].
        + intros n [= <-]. done.
        + simpl. split; [done|]. intros H. by apply Hnot in H.
      - specialize (IH (S iteration) tool_results (thoughts ++ [thought]) (S calls')).
        destruct (turns_from_traced _ _ _ _ _ _ _) as [r rest].
        by apply (run_shape_go_on remaining iteration _ (r, rest)).
      - specialize (IH (S iteration) tool_results thoughts (S calls')).
        destruct (turns_from_traced _ _ _ _ _ _ _) as [r rest].
        by apply (run_shape_go_on remaining iteration _ (r, rest)).
      - apply Herr. }
    destruct forced as [[[tool_name tool_params thought|content|thought|]|e]|] eqn:Hf;
      try (apply Hstep; intros; discriminate).
    + apply run_shape_stop; [done| | |].
      * apply stop_turn_well_formed; [done|]. left. eauto.
      * intros n [= <-]. done.
      * simpl. split; [intros _; by exists content|done].
    + apply run_shape_stop; [done| | |].
      * apply stop_turn_well_formed; [done|]. right. eauto.
      * intros n [=].
      * simpl. split; [done|]. intros [content [=]].
Qed.

(** X29: what the loop detection of [run] does, whatever the model and the
    tools answer.  A run has at most 10 turns, numbered from 1.  A turn
    starts with a forced-synthesis decision call exactly when it is turn 4
    or later and the last three tool calls name one tool.  If that call
    gives a final answer the run ends there with [forced_stop = true] (if
    it raises, with the error answer); otherwise its answer is dropped and
    the same turn goes on with an ordinary decision call.  [forced_stop] is
    set exactly when the last turn's forced call gave the final answer, and
    at most 7 forced calls are made in a run. *)
Theorem forced_synthesis_calls (oracle : Oracle) (available_tools : Registry) :
  let resp := fst (run_traced oracle available_tools) in
  let turns := snd (run_traced oracle available_tools) in
  resp = run oracle available_tools /\
  (length turns <= 10)%nat /\
  List.map number turns = seq 1 (length turns) /\
  Forall (fun t =>
            (has_forced t = true <-> (4 <= number t)%nat /\ looping (seen t) = true) /\
            (decision t = None <-> forced_final t \/ forced_raised t)) turns /\
  (forced_stop resp = Some true <-> exists t, last turns = Some t /\ forced_final t) /\
  (length (List.filter has_forced turns) <= 7)%nat.
Proof.
  cbv zeta. split; [apply traced_reply|]. unfold run_traced.
  pose proof (turns_from_traced_shape oracle available_tools
                BaseAgent.max_iterations 0 [] [] 0) as H.
  destruct (turns_from_traced oracle available_tools BaseAgent.max_iterations 0 [] [] 0)
    as [resp turns].
  destruct H as (Hlen & Hnums & Hit & Hall & Hfs & Hcount). simpl.
  unfold BaseAgent.max_iterations in *.
  split; [lia|]. split; [done|].
  split; [exact Hall|]. split; [exact Hfs|]. simpl in Hcount. lia.
Qed.

(** C3 (the code departs from it): with a model that always answers "use
    tool X", whatever the tools are, the loop is detected at the start of
    each of the turns 4 to 10 and a forced-synthesis call is made there,
    seven of them and not one.  The answer of each, not being a final
    answer, is dropped: every one of the ten turns goes on to an ordinary
    decision call and invokes the tool again.  The run ends only when the
    ten turns are used up, with ten tool calls, not [completed] and without
    a [forced_stop] flag; the reply is that of [run]. *)
Theorem looping_agent_is_not_stopped (available_tools : Registry) :
  let out := run_traced always_tool_x available_tools in
  fst out = run always_tool_x available_tools /\
  List.map number (List.filter has_forced (snd out)) = [4; 5; 6; 7; 8; 9; 10]%nat /\
  List.map number (snd out) = [1; 2; 3; 4; 5; 6; 7; 8; 9; 10]%nat /\
  Forall (fun t => decision t = Some (Ok (UseTool "X" [] (Some "keep going"))))
    (snd out) /\
  option_map (List.map tool) (tool_calls (fst out)) = Some (repeat "X"%string 10) /\
  forced_stop (fst out) = None /\
  iterations (fst out) = Some 10%nat /\
  completed (fst out) = false.
Proof. vm_compute. repeat split; repeat constructor. Qed.

End AgentLoop.
